(** * email-app: the compose orchestrator, the author agent and the send agent

    A shallow embedding of [compose/server.js], of the helpers the services
    take from [shared/index.js], of [author-agent/server.js] and of
    [send-agent/server.js], followed by the properties of the instance
    lifecycle and of the agents.

    Conventions of the embedding.
    - JSON values are [jsval]; JavaScript truthiness, [||] and property
      access are written out ([js_truthy], [js_or], [js_get]).
    - The files under [INSTANCE_ROOT/email-app/<id>/] are finite maps keyed by
      the instance id as a request gives it: [meta.json], [config.json],
      [artifacts/email.html]. The path an id names is [getInstancePaths];
      [path.join] resolves [.] and [..], so two ids can name the same files,
      and a property that relates the files of two ids is stated for ids
      that name different ones ([file_of]).
    - Text is a string of bytes, and [trim] and [toLowerCase] are the
      methods of JavaScript on ASCII text ([ascii_text]); a property that
      cuts a text at a position found in its lowered form is stated for
      such text.
    - [async] functions run to completion in program order; a rejected
      promise is a [Throw] of the small state-and-exception monad [M].
    - The three collaborators, the clock and the random source are oracles
      gathered in [Env]. *)

From stdpp Require Import gmap strings list fin_maps pretty.
From Stdlib Require Import ZArith Lia Ascii String.

Local Open Scope Z_scope.
Local Open Scope string_scope.

(** ** JavaScript values *)

Module JS.

#[local] Set Warnings "-register-all".

Inductive jsval : Type :=
| JUndef
| JNull
| JBool (b : bool)
| JNum (n : Z)
| JStr (s : string)
| JArr (items : list jsval)
| JObj (fields : list (string * jsval)).

(** [Boolean(v)]: the falsy values are undefined, null, false, 0 and the
    empty string; every array and object is truthy, the empty ones too. *)
Definition js_truthy (v : jsval) : bool :=
  match v with
  | JUndef | JNull => false
  | JBool b => b
  | JNum n => negb (n =? 0)%Z
  | JStr s => negb (String.eqb s "")
  | JArr _ | JObj _ => true
  end.

(** [a || b] *)
Definition js_or (a b : jsval) : jsval := if js_truthy a then a else b.

Fixpoint assoc (k : string) (fields : list (string * jsval)) : jsval :=
  match fields with
  | [] => JUndef
  | (k', v) :: rest => if String.eqb k k' then v else assoc k rest
  end.

(** [v.k] for a value that is not null or undefined: own properties of an
    object, [undefined] on every other value. *)
Definition js_get (v : jsval) (k : string) : jsval :=
  match v with
  | JObj fields => assoc k fields
  | _ => JUndef
  end.

(** [Array.isArray(v) ? v.filter(Boolean) : []] *)
Definition filter_truthy (v : jsval) : list jsval :=
  match v with
  | JArr items => List.filter js_truthy items
  | _ => []
  end.

Definition join (sep : string) (parts : list string) : string :=
  match parts with
  | [] => ""
  | p :: ps => fold_left (fun acc q => acc +:+ sep +:+ q) ps p
  end.

(** [String(v)], as a template literal computes it. *)
Fixpoint js_to_string (v : jsval) : string :=
  match v with
  | JUndef => "undefined"
  | JNull => "null"
  | JBool true => "true"
  | JBool false => "false"
  | JNum n => pretty n
  | JStr s => s
  | JArr items =>
      join "," (List.map (fun x => match x with
                                   | JUndef | JNull => ""
                                   | _ => js_to_string x
                                   end) items)
  | JObj _ => "[object Object]"
  end.

Definition is_ws (c : ascii) : bool :=
  let n := nat_of_ascii c in
  ((9 <=? n) && (n <=? 13))%nat || (n =? 32)%nat.

Fixpoint trim_start (s : string) : string :=
  match s with
  | String c rest => if is_ws c then trim_start rest else s
  | EmptyString => EmptyString
  end.

Fixpoint trim_end (s : string) : string :=
  match s with
  | EmptyString => EmptyString
  | String c rest =>
      match trim_end rest with
      | EmptyString => if is_ws c then EmptyString else String c EmptyString
      | r => String c r
      end
  end.

(** [s.trim()] on the ASCII white space. *)
Definition trim (s : string) : string := trim_end (trim_start s).

Definition lower_ascii (c : ascii) : ascii :=
  let n := nat_of_ascii c in
  if ((65 <=? n) && (n <=? 90))%nat then ascii_of_nat (n + 32) else c.

(** [s.toLowerCase()] on ASCII text: the letters A to Z are lowered, one
    for one. On other text the method of JavaScript lowers more letters and
    can change the length (U+0130 becomes two code units). *)
Fixpoint toLowerCase (s : string) : string :=
  match s with
  | EmptyString => EmptyString
  | String c rest => String (lower_ascii c) (toLowerCase rest)
  end.

(** Text within ASCII, on which [trim] and [toLowerCase] are the methods of
    JavaScript. *)
Definition is_ascii (c : ascii) : bool := (nat_of_ascii c <? 128)%nat.

Fixpoint ascii_text (s : string) : bool :=
  match s with
  | EmptyString => true
  | String c rest => is_ascii c && ascii_text rest
  end.

Definition nonempty (s : string) : bool := negb (String.eqb s "").

(** [a || b] on strings. *)
Definition str_or (a b : string) : string := if nonempty a then a else b.

(** [e.message || e] inside a template literal, for an [Error] whose
    message is [msg]. *)
Definition err_text (msg : string) : string := str_or msg "Error".

End JS.
Import JS.

Infix "|||" := js_or (at level 50, left associativity).


(** ** The instance store, the collaborators and the world *)

Inductive Status : Type := Active | Wait | Finished | Abort.

Definition status_name (s : Status) : string :=
  match s with
  | Active => "active"
  | Wait => "wait"
  | Finished => "finished"
  | Abort => "abort"
  end.

Definition is_terminal (s : Status) : bool :=
  match s with
  | Finished | Abort => true
  | Active | Wait => false
  end.

(** The content of [meta.json]; a key that is absent is [None] ([JUndef] for
    the owner, which holds the username as it came in). *)
Record Meta : Type := mkMeta {
  status : option Status;
  started_at : option string;
  finished_at : option string;
  owner : jsval;
  gen_count : option Z
}.

Definition empty_meta : Meta := mkMeta None None None JUndef None.

Record AuthorReq : Type := mkAuthorReq {
  a_instance_id : string;
  a_username : jsval;
  a_instructions : jsval;
  a_base_html : jsval;
  a_subject : jsval;
  a_trace_id : jsval
}.

Record HitlReq : Type := mkHitlReq {
  h_caller_id : string;
  h_html : string;
  h_hitl : jsval;
  h_loop : Z
}.

Record EmailReq : Type := mkEmailReq {
  e_instance_id : string;
  e_username : jsval;
  e_html : string;
  e_subject : jsval;
  e_sender_email : jsval;
  e_sender_name : jsval;
  e_to : jsval;
  e_cc : jsval;
  e_bcc : jsval;
  e_trace_id : jsval
}.

Inductive Call : Type :=
| CallAuthor (req : AuthorReq)
| CallHitl (req : HitlReq)
| CallEmail (req : EmailReq).

(** What a [fetch] to a collaborator comes back with. [AuthorFailed] and
    [EmailFailed] are every way [callAuthorAgent] and [callEmailAgent] throw
    (no connection, a status that is not ok, a body that is not JSON);
    [HitlUnreachable] is a [fetch] that throws in [callHitlAgent], which
    turns every answered request into a status and a body ([JNull] when the
    body is not JSON). *)
Inductive AuthorOutcome : Type :=
| AuthorFailed (msg : string)
| AuthorReplied (html : string).

Inductive HitlOutcome : Type :=
| HitlUnreachable (msg : string)
| HitlReplied (code : Z) (body : jsval).

Inductive EmailOutcome : Type :=
| EmailFailed (msg : string)
| EmailReplied (receipt : jsval).

Record LogEvent : Type := mkLogEvent {
  l_service : string;
  l_level : string;
  l_event_type : string;
  l_message : string;
  l_instance_id : string;
  l_username : jsval;
  l_trace_id : jsval
}.

Record World : Type := mkWorld {
  metas : gmap string Meta;          (* <id>/meta.json *)
  configs : gmap string jsval;       (* <id>/config.json, parsed *)
  drafts : gmap string string;       (* <id>/artifacts/email.html *)
  dirs : gset string;                (* the instance directories that exist *)
  calls : list Call;                 (* collaborator requests, oldest first *)
  events : list LogEvent;            (* what the log service received *)
  locallog : list (string * string * string);  (* <id>/logs/<service>.log *)
  tick : nat                         (* reads of the clock and random source *)
}.

(** The collaborators share the instance directory with the orchestrator:
    each answers from the world as it is when the request is made, and the
    request. [clock n] and [random n] are the values of the n-th read of
    [new Date()] (already formatted) and of [crypto.randomBytes]. *)
Record Env : Type := mkEnv {
  author_agent : World -> AuthorReq -> AuthorOutcome;
  hitl_agent : World -> HitlReq -> HitlOutcome;
  email_agent : World -> EmailReq -> EmailOutcome;
  clock : nat -> string;
  random : nat -> string
}.

Definition set_metas (f : gmap string Meta -> gmap string Meta) (w : World) : World :=
  mkWorld (f (metas w)) (configs w) (drafts w) (dirs w) (calls w) (events w) (locallog w) (tick w).
Definition set_drafts (f : gmap string string -> gmap string string) (w : World) : World :=
  mkWorld (metas w) (configs w) (f (drafts w)) (dirs w) (calls w) (events w) (locallog w) (tick w).
Definition add_dir (id : string) (w : World) : World :=
  mkWorld (metas w) (configs w) (drafts w) ({[id]} ∪ dirs w) (calls w) (events w) (locallog w) (tick w).
Definition add_call (c : Call) (w : World) : World :=
  mkWorld (metas w) (configs w) (drafts w) (dirs w) (calls w ++ [c]) (events w) (locallog w) (tick w).
Definition add_event (e : LogEvent) (w : World) : World :=
  mkWorld (metas w) (configs w) (drafts w) (dirs w) (calls w) (events w ++ [e]) (locallog w) (tick w).
Definition add_local (l : string * string * string) (w : World) : World :=
  mkWorld (metas w) (configs w) (drafts w) (dirs w) (calls w) (events w) (locallog w ++ [l]) (tick w).
Definition bump_tick (w : World) : World :=
  mkWorld (metas w) (configs w) (drafts w) (dirs w) (calls w) (events w) (locallog w) (S (tick w)).

(** ** A state and exception monad for the handlers *)

Inductive Res (A : Type) : Type :=
| Ok (a : A)
| Throw (msg : string).
Arguments Ok {A} a.
Arguments Throw {A} msg.

Definition M (A : Type) : Type := World -> Res A * World.

Definition ret {A} (a : A) : M A := fun w => (Ok a, w).
Definition throw {A} (msg : string) : M A := fun w => (Throw msg, w).
Definition bind {A B} (m : M A) (k : A -> M B) : M B :=
  fun w => match m w with
           | (Ok a, w') => k a w'
           | (Throw msg, w') => (Throw msg, w')
           end.
(** [try { m } catch (e) { h(e.message) }]; what [m] wrote stays written. *)
Definition try_catch {A} (m : M A) (h : string -> M A) : M A :=
  fun w => match m w with
           | (Ok a, w') => (Ok a, w')
           | (Throw msg, w') => h msg w'
           end.
Definition gets {A} (f : World -> A) : M A := fun w => (Ok (f w), w).
Definition modify (f : World -> World) : M unit := fun w => (Ok tt, f w).

Declare Scope js_scope.
Delimit Scope js_scope with js.
Notation "'do' x <- m ;; k" := (bind m (fun x => k))
  (at level 10, x name, m at level 99, k at level 200, only parsing) : js_scope.
Notation "'run' m ;; k" := (bind m (fun _ => k))
  (at level 10, m at level 99, k at level 200, only parsing) : js_scope.

Local Open Scope js_scope.

(** ** shared/index.js *)

Module Shared.
Section WithEnv.
Variable env : Env.

(** [typeof value === 'string' && !!value.trim()] *)
Definition validateInstanceId (value : jsval) : bool :=
  match value with
  | JStr s => nonempty (trim s)
  | _ => false
  end.

Definition read_random : M string :=
  fun w => (Ok (random env (tick w)), bump_tick w).

(** [new Date().toISOString().replace('T', ' ').slice(0, 19)] *)
Definition now : M string :=
  fun w => (Ok (clock env (tick w)), bump_tick w).

(** [`${Date.now().toString(36)}-${crypto.randomBytes(4).toString('hex')}`];
    both parts are reads of the random source. *)
Definition generateInstanceId (w : World) : string * World :=
  (random env (tick w) +:+ "-" +:+ random env (S (tick w)), bump_tick (bump_tick w)).

Definition ensureDir (id : string) : M unit := modify (add_dir id).

(** [readJsonSafe(config) || {}] *)
Definition loadInstanceConfig (w : World) (instanceId : string) : jsval :=
  match configs w !! instanceId with
  | Some c => c ||| JObj []
  | None => JObj []
  end.

(** [readJsonSafe(meta) || {}] *)
Definition readMeta (w : World) (instanceId : string) : Meta :=
  default empty_meta (metas w !! instanceId).

Definition writeJsonSafe (instanceId : string) (data : Meta) : M unit :=
  modify (fun w => set_metas <[instanceId := data]> (add_dir instanceId w)).

(** [updateMeta(instanceId, updater)] with a function; the object form
    [updateMeta(id, {k: v})] is the updater that sets [k]. *)
Definition updateMeta (instanceId : string) (updater : Meta -> M Meta) : M Meta :=
  do existing <- gets (fun w => readMeta w instanceId);;
  do next <- updater existing;;
  run writeJsonSafe instanceId next;;
  ret next.

(** Fails open: never throws. *)
Definition appendLocalLog (instanceId service message : string) : M unit :=
  modify (fun w => add_local (instanceId, service, message) (add_dir instanceId w)).

(** Fails open: never throws. *)
Definition logEvent (service level event_type message instance_id : string)
    (username trace_id : jsval) : M unit :=
  modify (add_event (mkLogEvent service level event_type message instance_id username trace_id)).

End WithEnv.
End Shared.
Import Shared.

(** ** compose/server.js *)

Module Compose.

Definition SERVICE : string := "compose".
Definition HITL_URL : string := "http://127.0.0.1:3001/api/hitl-agent".

Record Reply : Type := mkReply { code : Z; body : jsval }.

(** [sendJson(res, status, body)] *)
Definition sendJson (status : Z) (body : jsval) : Reply := mkReply status body.

Record Merged : Type := mkMerged {
  subject : jsval;
  to : jsval;
  cc : jsval;
  bcc : jsval;
  sender_email : jsval;
  sender_name : jsval
}.

Definition mergeConfig (w : World) (instanceId : string) (payload : jsval) : Merged :=
  let cfg := loadInstanceConfig w instanceId in
  {| subject := js_get payload "subject" ||| js_get cfg "subject" ||| js_get cfg "EMAIL_SUBJECT" ||| JNull;
     to := js_get payload "to" ||| js_get cfg "to" ||| JArr [];
     cc := js_get payload "cc" ||| js_get cfg "cc" ||| JArr [];
     bcc := js_get payload "bcc" ||| js_get cfg "bcc" ||| JArr [];
     sender_email := js_get payload "sender_email" ||| js_get cfg "sender_email"
                       ||| js_get cfg "SENDER_EMAIL" ||| JNull;
     sender_name := js_get payload "sender_name" ||| js_get cfg "sender_name"
                      ||| js_get cfg "SENDER_NAME" ||| JNull |}.

Definition requireRecipients (to cc bcc : jsval)
    : option (list jsval * list jsval * list jsval) :=
  let toArr := filter_truthy to in
  let ccArr := filter_truthy cc in
  let bccArr := filter_truthy bcc in
  if (List.length toArr =? 0)%nat && (List.length ccArr =? 0)%nat && (List.length bccArr =? 0)%nat
  then None
  else Some (toArr, ccArr, bccArr).

Definition falsy_time (t : option string) : bool :=
  match t with
  | Some s => negb (nonempty s)
  | None => true
  end.

(** [parseInt(next.gen_count || 0, 10) + 1] on an integer counter. *)
Definition next_gen (m : Meta) : Z :=
  (match gen_count m with
   | Some n => if (n =? 0)%Z then 0 else n
   | None => 0
   end + 1)%Z.

Section WithEnv.
Variable env : Env.

Definition markInstanceActive (instanceId : string) (username : jsval) : M unit :=
  run updateMeta instanceId (fun prev =>
    let next := mkMeta (Some Active) (started_at prev) (finished_at prev)
                       (owner prev) (gen_count prev) in
    do next <- (if falsy_time (started_at next)
                then do t <- now env;;
                     ret (mkMeta (status next) (Some t) (finished_at next)
                                 (owner next) (gen_count next))
                else ret next);;
    ret (if js_truthy username && negb (js_truthy (owner next))
         then mkMeta (status next) (started_at next) (finished_at next)
                     username (gen_count next)
         else next));;
  appendLocalLog instanceId "compose" "state - active".

Definition callAuthorAgent (req : AuthorReq) : M string :=
  fun w =>
    let w' := add_call (CallAuthor req) w in
    match author_agent env w req with
    | AuthorFailed msg => (Throw msg, w')
    | AuthorReplied html =>
        (* author-agent writes artifacts/email.html before it answers 200 *)
        (Ok html, set_drafts <[a_instance_id req := html]> w')
    end.

Definition callEmailAgent (req : EmailReq) : M jsval :=
  fun w =>
    let w' := add_call (CallEmail req) w in
    match email_agent env w req with
    | EmailFailed msg => (Throw msg, w')
    | EmailReplied receipt => (Ok receipt, w')
    end.

Definition callHitlAgent (instance_id html : string) (hitlConfig : jsval)
    (loopIndex : Z) : M (Z * jsval) :=
  let payload := mkHitlReq instance_id html (hitlConfig ||| JObj []) (loopIndex + 1) in
  run appendLocalLog instance_id "compose" ("HITL submit -> " +:+ HITL_URL);;
  fun w =>
    let w' := add_call (CallHitl payload) w in
    match hitl_agent env w payload with
    | HitlUnreachable msg => (Throw msg, w')
    | HitlReplied status body => (Ok (status, body), w')
    end.

End WithEnv.

Record HitlResult : Type := mkHitlResult {
  accepted : bool;
  r_status : Z;
  r_error : jsval;
  hitlStatus : jsval;
  hitlInfo : jsval
}.

(** [v !== s] for a string literal [s] *)
Definition differs_from (v : jsval) (s : string) : bool :=
  match v with
  | JStr t => negb (String.eqb t s)
  | _ => true
  end.

(** [body && body.k ? body.k : null] *)
Definition field_or_null (body : jsval) (k : string) : jsval :=
  if js_truthy body && js_truthy (js_get body k) then js_get body k else JNull.

Definition hitl_error (body : jsval) : jsval := field_or_null body "error".
Definition hitl_status (body : jsval) : jsval := field_or_null body "status".
Definition hitl_info (body : jsval) : jsval :=
  if js_truthy body && js_truthy (js_get body "information" ||| js_get body "info")
  then js_get body "information" ||| js_get body "info"
  else JNull.

Definition hitl_accepted (statusCode : Z) (body : jsval) : bool :=
  ((statusCode =? 200)%Z || (statusCode =? 202)%Z)
  && negb (js_truthy (hitl_error body))
  && differs_from (hitl_status body) "no-hitl"
  && differs_from (hitl_status body) "skip".

(** [`${e ? ` error=${e}` : ''}${s ? ` status=${s}` : ''}${i ? ` info=${i}` : ''}`] *)
Definition hitl_detail (body : jsval) : string :=
  (if js_truthy (hitl_error body) then " error=" +:+ js_to_string (hitl_error body) else "")
  +:+ (if js_truthy (hitl_status body) then " status=" +:+ js_to_string (hitl_status body) else "")
  +:+ (if js_truthy (hitl_info body) then " info=" +:+ js_to_string (hitl_info body) else "").

Definition submit_note (statusCode : Z) (body : jsval) : string :=
  "HITL submission failed: " +:+ pretty statusCode +:+ hitl_detail body.

Section WithEnv.
Variable env : Env.

Definition readLatestEmailHtml (w : World) (instanceId : string) : string :=
  default "" (drafts w !! instanceId).

Definition stamp_terminal (s : Status) (t : string) (prev : Meta) : Meta :=
  mkMeta (Some s) (started_at prev) (Some t) (owner prev) (gen_count prev).

Definition abortInstance (instanceId : string) (username traceId : jsval)
    (note : string) : M unit :=
  do t <- now env;;
  run updateMeta instanceId (fun prev => ret (stamp_terminal Abort t prev));;
  run appendLocalLog instanceId "compose" "state - abort";;
  run (if nonempty note then appendLocalLog instanceId "compose" note else ret tt);;
  do tr <- (if js_truthy traceId then ret traceId
            else do r <- read_random env;; ret (JStr r));;
  logEvent SERVICE "warn" "state_change"
    (if nonempty note then "state - abort (" +:+ note +:+ ")" else "state - abort")
    instanceId (username ||| JStr "unknown") tr.

Definition submitHitlAndHandle (instanceId : string) (username : jsval)
    (html : string) (hitlConfig : jsval) (loopIndex : Z) (traceId : jsval)
    (abortOnFail : bool) : M HitlResult :=
  do hitlResp <- callHitlAgent env instanceId html hitlConfig loopIndex;;
  let statusCode := fst hitlResp in
  let body := snd hitlResp in
  let hitlAccepted := hitl_accepted statusCode body in
  run (if negb hitlAccepted && abortOnFail
       then
         let reason := "HITL submission rejected: status=" +:+ pretty statusCode
                         +:+ hitl_detail body in
         run appendLocalLog instanceId "compose" reason;;
         run logEvent SERVICE "warn" "record" reason instanceId username traceId;;
         abortInstance instanceId username traceId (submit_note statusCode body)
       else ret tt);;
  run (if hitlAccepted
       then
         let msg := "HITL submission accepted (" +:+ pretty statusCode +:+ ")" in
         run logEvent SERVICE "info" "progress" msg instanceId username traceId;;
         run appendLocalLog instanceId "compose" msg;;
         (* Transition to wait state while HITL is pending *)
         run updateMeta instanceId (fun prev =>
               ret (mkMeta (Some Wait) (started_at prev) (finished_at prev)
                           (owner prev) (gen_count prev)));;
         run appendLocalLog instanceId "compose" "state - wait";;
         logEvent SERVICE "info" "state_change" "state - wait" instanceId username traceId
       else ret tt);;
  ret (mkHitlResult hitlAccepted statusCode (hitl_error body) (hitl_status body)
                    (hitl_info body)).

(** What a handler leaves behind: the answer on the wire, the world when it
    answers, and the callback it handed to [setImmediate], if any. *)
Record Handled : Type := mkHandled {
  reply : Reply;
  after : World;
  task : option (World -> World)
}.

(** The world once the event loop has run the pending callback. *)
Definition settle (h : Handled) : World :=
  match task h with
  | Some k => k (after h)
  | None => after h
  end.

Definition error_body (reason : string) : jsval := JObj [("error", JStr reason)].

(** [trace_id || crypto.randomBytes(6).toString('hex')] *)
Definition resolve_trace_id (trace_id : jsval) (w : World) : jsval * World :=
  if js_truthy trace_id then (trace_id, w)
  else (JStr (random env (tick w)), bump_tick w).

Definition handleAbort (body : jsval) (w : World) : Handled :=
  let b := body ||| JObj [] in
  let instance_id := js_get b "instance_id" in
  let username := js_get b "username" in
  let trace_id := js_get b "trace_id" in
  match instance_id with
  | JStr id =>
      if negb (validateInstanceId instance_id)
      then mkHandled (sendJson 400 (error_body "instance_id_required")) w None
      else if negb (js_truthy username)
      then mkHandled (sendJson 400 (error_body "username_required")) w None
      else
        let '(traceId, w1) := resolve_trace_id trace_id w in
        let w2 := snd (abortInstance id username traceId "" w1) in
        mkHandled (sendJson 200 (JObj [("ok", JBool true); ("instance_id", instance_id);
                                       ("trace_id", traceId)])) w2 None
  | _ => mkHandled (sendJson 400 (error_body "instance_id_required")) w None
  end.

(** The body of a review callback. Its text fields are strings, [""] when
    the key is absent (the handler only tests them with [||] and [?:]);
    [cb_async] is [true] exactly when the body has [async: true]. *)
Record CallbackBody : Type := mkCallbackBody {
  cb_instance_id : jsval;
  cb_result : string;
  cb_response : string;
  cb_information : string;
  cb_instructions : string;
  cb_username : string;
  cb_trace_id : string;
  cb_async : bool
}.

(** [(response || result || '').toString().toLowerCase()] *)
Definition action_of (b : CallbackBody) : string :=
  toLowerCase (str_or (str_or (cb_response b) (cb_result b)) "").

(** [(username || '').trim() || 'unknown'] *)
Definition callback_user (b : CallbackBody) : jsval :=
  JStr (str_or (trim (str_or (cb_username b) "")) "unknown").

Definition finishAs (instance_id : string) (user traceId : jsval)
    (st : Status) (logMsg : string) : M unit :=
  do t <- now env;;
  run updateMeta instance_id (fun prev => ret (stamp_terminal st t prev));;
  run appendLocalLog instance_id "compose" ("state - " +:+ status_name st);;
  logEvent SERVICE
    (match st with Finished => "info" | _ => "warn" end) "state_change"
    ("state - " +:+ status_name st
       +:+ (if nonempty logMsg then " (" +:+ logMsg +:+ ")" else ""))
    instance_id user traceId.

(** [rawInstr && rawInstr.trim() ? `[Key Instruction] ${rawInstr.trim()}` : ''] *)
Definition key_instruction (rawInstr : string) : string :=
  if nonempty rawInstr && nonempty (trim rawInstr)
  then "[Key Instruction] " +:+ trim rawInstr
  else "".

Definition hitl_config (cfg : jsval) : jsval :=
  js_get cfg "human-in-the-loop" ||| js_get cfg "hitl" ||| js_get cfg "HITL" ||| JObj [].

Definition resubmit_detail (r : HitlResult) : string :=
  let detail := r_error r ||| hitlInfo r ||| hitlStatus r in
  pretty (r_status r)
  +:+ (if js_truthy detail then " detail=" +:+ js_to_string detail else "").

(** The updater of the modify branch: [gen_count] incremented, status
    active. *)
Definition regenerating (prev : Meta) : Meta :=
  mkMeta (Some Active) (started_at prev) (finished_at prev) (owner prev)
         (Some (next_gen prev)).

(** The [handler] closure of [handleHitlCallback]. *)
Definition handler (b : CallbackBody) (instance_id : string) (action : string)
    (user traceId : jsval) : M unit :=
  let information := cb_information b in
  let infoText := if nonempty information then " info='" +:+ information +:+ "'" else "" in
  let received := "hitl-callback: " +:+ str_or action "unknown" +:+ infoText in
  run appendLocalLog instance_id "compose" received;;
  run logEvent SERVICE "info" "record" received instance_id user traceId;;
  (* Load config and recipients *)
  do merged <- gets (fun w => mergeConfig w instance_id (JObj []));;
  if String.eqb action "approve" then
    (* Send using existing email.html *)
    do html <- gets (fun w => readLatestEmailHtml w instance_id);;
    try_catch
      (run callEmailAgent env
             (mkEmailReq instance_id user html (subject merged) (sender_email merged)
                         (sender_name merged) (to merged) (cc merged) (bcc merged) traceId);;
       finishAs instance_id user traceId Finished "hitl approve")
      (fun msg =>
         run finishAs instance_id user traceId Abort ("email send failed: " +:+ err_text msg);;
         throw (err_text msg))
  else if String.eqb action "reject" then
    finishAs instance_id user traceId Abort (str_or information "hitl reject")
  else if String.eqb action "modify" then
    let rawInstr := str_or (str_or (cb_instructions b) information) "" in
    let newInstr := key_instruction rawInstr in
    (* Increment gen_count *)
    do next <- updateMeta instance_id (fun prev => ret (regenerating prev));;
    let nextGen := default 1%Z (gen_count next) in
    do baseHtml <- gets (fun w => readLatestEmailHtml w instance_id);;
    try_catch
      (run logEvent SERVICE "info" "record"
             ("Calling LLM to re-generate email (" +:+ pretty nextGen +:+ ")")
             instance_id user traceId;;
       do html <- callAuthorAgent env
                    (mkAuthorReq instance_id user (JStr newInstr) (JStr baseHtml)
                                 (subject merged) traceId);;
       do cfg <- gets (fun w => loadInstanceConfig w instance_id ||| JObj []);;
       do hitlResult <- submitHitlAndHandle instance_id user html (hitl_config cfg)
                          (nextGen - 1) traceId false;;
       if negb (accepted hitlResult) then
         run abortInstance instance_id user traceId
               ("HITL resubmit failed: " +:+ resubmit_detail hitlResult);;
         throw ("HITL resubmit failed " +:+ resubmit_detail hitlResult)
       else ret tt)
      (fun msg =>
         run finishAs instance_id user traceId Abort ("modify failed: " +:+ err_text msg);;
         throw msg)
  else throw "unknown_hitl_result".

Definition handleHitlCallback (b : CallbackBody) (w : World) : Handled :=
  let action := action_of b in
  match cb_instance_id b with
  | JStr instance_id =>
      if negb (validateInstanceId (cb_instance_id b))
      then mkHandled (sendJson 400 (error_body "instance_id_required")) w None
      else
        let user := callback_user b in
        let '(traceId, w1) := resolve_trace_id (JStr (cb_trace_id b)) w in
        let h := handler b instance_id action user traceId in
        if cb_async b then
          mkHandled
            (sendJson 202 (JObj [("status", JStr "accepted");
                                 ("instance_id", cb_instance_id b);
                                 ("trace_id", traceId)]))
            w1
            (Some (fun w' =>
               snd (try_catch h (fun msg =>
                      appendLocalLog instance_id "compose"
                        ("hitl-callback async error: " +:+ err_text msg)) w')))
        else
          match h w1 with
          | (Ok _, w2) => mkHandled (sendJson 200 (JObj [("ok", JBool true)])) w2 None
          | (Throw msg, w2) =>
              (* handler already logged; return generic error *)
              mkHandled
                (sendJson 400 (JObj [("error", JStr "hitl_callback_failed");
                                     ("detail", if nonempty msg then JStr msg else JObj [])]))
                w2 None
          end
  | _ => mkHandled (sendJson 400 (error_body "instance_id_required")) w None
  end.

(** [if (!validateInstanceId(instance_id)) instance_id = generateInstanceId()] *)
Definition resolve_instance_id (instance_id : jsval) (w : World) : string * World :=
  match instance_id with
  | JStr s => if validateInstanceId instance_id then (s, w) else generateInstanceId env w
  | _ => generateInstanceId env w
  end.

(** [genMeta && genMeta.gen_count ? genMeta.gen_count - 1 : 0] *)
Definition loop_index (genMeta : Meta) : Z :=
  match gen_count genMeta with
  | Some g => if (g =? 0)%Z then 0%Z else (g - 1)%Z
  | None => 0%Z
  end.

(** [{ instance_id, trace_id: traceId, draft_html: authorResp.html, send_result: null }] *)
Definition flow_result (instance_id : string) (traceId : jsval) (html : string) : jsval :=
  JObj [("instance_id", JStr instance_id); ("trace_id", traceId);
        ("draft_html", JStr html); ("send_result", JNull)].

(** The [runFlow] closure of [handleComposeSend]. *)
Definition runFlow (instance_id : string) (username instructions base_html : jsval)
    (merged : Merged) (traceId : jsval) : M jsval :=
  do genMeta <- updateMeta instance_id (fun prev =>
                  ret (mkMeta (status prev) (started_at prev) (finished_at prev)
                              (owner prev) (Some (next_gen prev))));;
  (* Log before invoking the LLM so the record appears immediately *)
  run logEvent SERVICE "info" "record" "Calling LLM to generate email"
        instance_id username traceId;;
  do html <- callAuthorAgent env
               (mkAuthorReq instance_id username instructions base_html
                            (subject merged) traceId);;
  (* Submit to HITL *)
  do cfg <- gets (fun w => loadInstanceConfig w instance_id ||| JObj []);;
  let loopIdx := loop_index genMeta in
  do hitlResult <- submitHitlAndHandle instance_id username html (hitl_config cfg)
                     loopIdx traceId true;;
  if negb (accepted hitlResult) then
    ret (JObj [("error", JStr "hitl_submit_failed");
               ("status", JNum (r_status hitlResult));
               ("detail", r_error hitlResult ||| hitlInfo hitlResult
                            ||| hitlStatus hitlResult ||| JUndef)])
  else
    ret (flow_result instance_id traceId html).

(** [regen_base_html: base_html = ''] *)
Definition base_html_of (p : jsval) : jsval :=
  match js_get p "regen_base_html" with
  | JUndef => JStr ""
  | v => v
  end.

(** The instance id and trace id a send works with, and the world once the
    instance directory exists ([ensureDir(paths.root)]). *)
Definition send_target (p : jsval) (w : World) : string * jsval * World :=
  let '(instance_id, w1) := resolve_instance_id (js_get p "instance_id") w in
  let '(traceId, w2) := resolve_trace_id (js_get p "trace_id") w1 in
  (instance_id, traceId, add_dir instance_id w2).

(** From the launch receipt to the [state - active] event. *)
Definition launch (instance_id : string) (username traceId : jsval) : M unit :=
  (* Log launch receipt immediately *)
  run logEvent SERVICE "info" "record" "Email-App Agent received call to launch"
        instance_id username traceId;;
  (* Mark meta as active and stamp started_at *)
  run markInstanceActive env instance_id username;;
  logEvent SERVICE "info" "state_change" "state - active" instance_id username traceId.

Definition handleComposeSend (payload : jsval) (w : World) : Handled :=
  let p := payload ||| JObj [] in
  let username := js_get p "username" in
  let instructions := js_get p "instructions" in
  let base_html := base_html_of p in
  if negb (js_truthy username)
  then mkHandled (sendJson 400 (error_body "username_required")) w None
  else if negb (js_truthy instructions) && negb (js_truthy base_html)
  then mkHandled (sendJson 400 (error_body "instructions_required")) w None
  else
    let '(instance_id, traceId, w3) := send_target p w in
    let merged := mergeConfig w3 instance_id p in
    let recipients := requireRecipients (to merged) (cc merged) (bcc merged) in
    if negb (js_truthy (subject merged))
    then mkHandled (sendJson 400 (error_body "subject_missing_after_merge")) w3 None
    else match recipients with
    | None => mkHandled (sendJson 400 (error_body "recipients_missing_after_merge")) w3 None
    | Some _ =>
      let w4 := snd (launch instance_id username traceId w3) in
      let flow := runFlow instance_id username instructions base_html merged traceId in
      match js_get payload "async" with
      | JBool true =>
          mkHandled
            (sendJson 202 (JObj [("status", JStr "accepted");
                                 ("instance_id", JStr instance_id);
                                 ("trace_id", traceId)]))
            w4
            (Some (fun w' =>
               snd (try_catch (run flow;; ret tt)
                      (fun msg =>
                         logEvent SERVICE "error" "record"
                           ("Compose async error: " +:+ err_text msg)
                           instance_id username traceId) w')))
      | _ =>
          match flow w4 with
          | (Ok result, w5) => mkHandled (sendJson 200 result) w5 None
          | (Throw msg, w5) =>
              let w6 := snd (logEvent SERVICE "error" "record"
                               ("Compose error: " +:+ err_text msg)
                               instance_id username traceId w5) in
              mkHandled
                (sendJson 502 (JObj [("error", JStr "compose_failed");
                                     ("detail", if nonempty msg then JStr msg else JObj []);
                                     ("instance_id", JStr instance_id);
                                     ("trace_id", traceId)]))
                w6 None
          end
      end
    end.

End WithEnv.
End Compose.

(** ** author-agent/server.js *)

Module AuthorAgent.

Definition SERVICE : string := "author-agent".

Definition nl : string := String (ascii_of_nat 10) EmptyString.
Definition dq : string := String (ascii_of_nat 34) EmptyString.

Record Prompt : Type := mkPrompt { prompt : string; usedExistingHtml : bool }.

Record LlmResult : Type := mkLlmResult {
  llm_html : string;
  llm_model_used : string;
  llm_reasoning : jsval
}.

(** [generateHtmlWithLLM]: the provider call returns or throws. *)
Inductive LlmOutcome : Type :=
| LlmThrows (msg : string)
| LlmReturns (result : LlmResult).

(** The body of [POST /generate], its text fields defaulted to [''] as the
    destructuring does. *)
Record GenerateReq : Type := mkGenerateReq {
  g_instance_id : jsval;
  g_username : jsval;
  g_instructions : string;
  g_base_html : string;
  g_subject : string;
  g_trace_id : jsval
}.

Record TraceEntry : Type := mkTraceEntry {
  t_model : string;
  t_prompt : string;
  t_reasoning : jsval;
  t_answer : string;
  t_trace_id : jsval
}.

(** The files the agent writes. [email_files !! id] is the directory
    [<id>/artifacts]: index [0] is [email.html], index [n] is [email-n.html].
    Both maps are keyed by the instance id as the request gives it. *)
Record Disk : Type := mkDisk {
  email_files : gmap string (gmap nat string);
  llm_traces : gmap string (list TraceEntry);
  agent_log : list (string * string * string);
  agent_events : list LogEvent
}.

Record Reply : Type := mkReply { code : Z; body : jsval }.

(** [send(res, status, body)] *)
Definition send (status : Z) (body : jsval) : Reply := mkReply status body.

Definition stubGenerateHtml (instructions baseHtml : string) : string :=
  let bodyText := if nonempty instructions && nonempty (trim instructions)
                  then trim instructions
                  else "No additional instructions provided." in
  if nonempty baseHtml && nonempty (trim baseHtml)
  then baseHtml (* Preserve supplied HTML verbatim for stub behavior. *)
  else
    (* Minimal HTML shell for first run. *)
    join nl ["<html>";
             "<body style=" +:+ dq +:+ "font-family: Arial, sans-serif; padding: 16px;"
               +:+ dq +:+ ">";
             "<p>" +:+ bodyText +:+ "</p>";
             "</body>";
             "</html>"].

(** [fs.renameSync(src, dest)] inside one directory *)
Definition rename (src dest : nat) (dir : gmap nat string) : gmap nat string :=
  match dir !! src with
  | Some content => <[dest := content]> (delete src dir)
  | None => dir
  end.

(** The [while (fs.existsSync(email-n.html)) n += 1] loop from [n = 1]: among
    [1 .. size dir + 1] one index is free. *)
Definition first_free (dir : gmap nat string) : nat :=
  default (S (size dir))
    (head (List.filter (fun n => bool_decide (dir !! n = None)) (seq 1 (S (size dir))))).

Definition rotateEmailFiles (dir : gmap nat string) : gmap nat string :=
  match dir !! 0%nat with
  | None => dir
  | Some _ =>
      let n := first_free dir in
      (* Move highest to next slot, descending *)
      let shifted := fold_left (fun d i => rename i (S i) d) (rev (seq 1 (n - 1))) dir in
      rename 0 1 shifted
  end.

Section WithProvider.
(** What the agent reads from its surroundings: the prompt text found for
    the instance, the configured model name ([''] when none), the provider,
    the fixed JSON contract text, and the two parsers applied to a provider
    answer, which the fallback path does not reach. *)
Variable promptText : string -> string.
Variable configuredModel : string -> string.
Variable generateHtmlWithLLM : string -> string -> LlmOutcome.
Variable jsonContract : string.
Variable cleanHtmlOutput : string -> string.
Variable parseLlmJson : string -> option (string * jsval).

Definition buildPrompt (instructions baseHtml promptText : string) : Prompt :=
  let hasInstructions := nonempty instructions && nonempty (trim instructions) in
  let keyBlock := if hasInstructions
                  then nl +:+ nl +:+ "[KEY INSTRUCTIONS]" +:+ nl +:+ trim instructions +:+ nl
                  else "" in
  let instructionReminder :=
    if hasInstructions
    then nl +:+ nl +:+ "When producing JSON, mention the instructions you considered while generating the email and keep reasoning.key_instructions to a concise summary of how you applied them (never copy the literal "
           +:+ dq +:+ "[KEY INSTRUCTIONS]" +:+ dq +:+ " label or quote the raw text verbatim)."
    else nl +:+ nl +:+ "If there are no [KEY INSTRUCTIONS], rely solely on the base prompt." in
  let enforcement := nl +:+ "Ensure the final HTML answer reflects every applicable instruction." in
  if negb (nonempty baseHtml) then
    mkPrompt ((if hasInstructions then promptText +:+ keyBlock else promptText)
                +:+ instructionReminder +:+ enforcement +:+ nl +:+ nl +:+ jsonContract)
             false
  else
    (* With base HTML, focus on applying prompt + optional instructions to the provided HTML. *)
    let header := "Apply only the [KEY INSTRUCTIONS] (if provided) to the included HTML email to produce the updated HTML email." in
    mkPrompt (header +:+ keyBlock +:+ instructionReminder +:+ enforcement +:+ nl +:+ nl
                +:+ "Here is the current HTML email to modify:" +:+ nl +:+ nl
                +:+ "```html" +:+ nl +:+ baseHtml +:+ nl +:+ "```" +:+ nl +:+ nl +:+ jsonContract)
             true.

Definition handleGenerate (payload : GenerateReq) (d : Disk) : Reply * Disk :=
  match g_instance_id payload with
  | JStr instance_id =>
      if negb (validateInstanceId (g_instance_id payload))
      then (send 400 (JObj [("error", JStr "instance_id_required")]), d)
      else if negb (js_truthy (g_username payload))
      then (send 400 (JObj [("error", JStr "username_required")]), d)
      else
        let instructions := g_instructions payload in
        let base_html := g_base_html payload in
        let modelName := str_or (configuredModel instance_id) "stub-model" in
        let promptInfo := buildPrompt instructions base_html (promptText instance_id) in
        let '(html, reasoning, modelUsed) :=
          match generateHtmlWithLLM instance_id (prompt promptInfo) with
          | LlmReturns llmResult =>
              let raw := str_or (llm_html llmResult) "" in
              let '(html, reasoning) :=
                match parseLlmJson raw with
                | Some (answer, r) => (cleanHtmlOutput (str_or answer ""), r ||| JObj [])
                | None => (cleanHtmlOutput raw, llm_reasoning llmResult ||| JObj [])
                end in
              (html, reasoning, str_or (llm_model_used llmResult) modelName)
          | LlmThrows msg =>
              (* Fallback to stub on error *)
              (stubGenerateHtml instructions base_html,
               JObj [("summary", JStr ("LLM error (" +:+ err_text msg
                                         +:+ "); used stub fallback."));
                     ("used_existing_html", JBool (usedExistingHtml promptInfo))],
               modelName)
          end in
        let dir := default ∅ (email_files d !! instance_id) in
        let dir' := <[0%nat := html]> (rotateEmailFiles dir) in
        let traceEntry := mkTraceEntry modelUsed (prompt promptInfo) reasoning html
                            (g_trace_id payload ||| JNull) in
        let d' :=
          mkDisk (<[instance_id := dir']> (email_files d))
                 (<[instance_id := (default [] (llm_traces d !! instance_id) ++ [traceEntry])%list]>
                    (llm_traces d))
                 (agent_log d ++ [(instance_id, "author-agent",
                                   "Generated email HTML and saved to artifacts/email.html")])%list
                 (agent_events d ++ [mkLogEvent SERVICE "info" "progress" "Generated draft HTML"
                                       instance_id (g_username payload) (g_trace_id payload)])%list in
        (send 200 (JObj [("html", JStr html); ("model", JStr modelUsed);
                         ("trace_id", g_trace_id payload ||| JNull);
                         ("reasoning", reasoning)]), d')
  | _ => (send 400 (JObj [("error", JStr "instance_id_required")]), d)
  end.

End WithProvider.
End AuthorAgent.

(** ** String methods *)

Module JSString.

(** [s.indexOf(sub)]; [None] is [-1]. *)
Definition indexOf (sub s : string) : option nat := String.index 0 sub s.

(** [s.lastIndexOf(sub)]; [None] is [-1]. *)
Fixpoint lastIndexOf (sub s : string) : option nat :=
  match s with
  | EmptyString => if String.prefix sub s then Some 0%nat else None
  | String _ rest =>
      match lastIndexOf sub rest with
      | Some n => Some (S n)
      | None => if String.prefix sub s then Some 0%nat else None
      end
  end.

(** [s.slice(a, b)] for indices [0 <= a], [0 <= b]. *)
Definition slice (a b : nat) (s : string) : string := String.substring a (b - a) s.

(** [s.slice(a)] for an index [0 <= a]. *)
Definition slice_from (a : nat) (s : string) : string :=
  String.substring a (String.length s - a) s.

(** [s.startsWith(p)] *)
Definition startsWith (p s : string) : bool := String.prefix p s.

Definition LF : ascii := ascii_of_nat 10.
Definition CR : ascii := ascii_of_nat 13.

(** [s.split(/\r?\n/)]: a line ends at a line feed, which takes a carriage
    return just before it along. *)
Fixpoint split_lines (s : string) : list string :=
  match s with
  | EmptyString => [EmptyString]
  | String c rest =>
      if Ascii.eqb c LF then EmptyString :: split_lines rest
      else if Ascii.eqb c CR && String.prefix (String LF EmptyString) rest
      then split_lines rest
      else match split_lines rest with
           | line :: lines => String c line :: lines
           | [] => [String c EmptyString]
           end
  end.

End JSString.
Import JSString.


(** ** shared/index.js: the environment files and the configuration *)

Module SharedEnv.

(** [out[key] = val] on an object literal: the [__proto__] key is the
    accessor of [Object.prototype], and assigning a string to it does
    nothing. *)
Definition set_env_key (key val : string) (out : gmap string string) : gmap string string :=
  if String.eqb key "__proto__" then out else <[key := val]> out.

(** The body of the [for] loop of [parseEnvFile]. *)
Definition parse_env_line (out : gmap string string) (line : string) : gmap string string :=
  if negb (nonempty line) || startsWith "#" (trim line) then out
  else match indexOf "=" line with
       | None => out
       | Some idx =>
           let key := trim (slice 0 idx line) in
           let val := trim (slice_from (S idx) line) in
           if nonempty key then set_env_key key val out else out
       end.

(** [parseEnvFile(filePath)]; the file is [None] when it does not exist or
    cannot be read. *)
Definition parseEnvFile (file : option string) : gmap string string :=
  match file with
  | None => ∅
  | Some content => fold_left parse_env_line (split_lines content) ∅
  end.

(** [obj.KEY] on the result of [parseEnvFile] or on [process.env], as [||]
    sees it: an unset variable is as good as an empty one. *)
Definition env_var (vars : gmap string string) (k : string) : string :=
  default "" (vars !! k).

(** [overrides.K || process.env.K || dflt] *)
Definition setting (overrides process_env : gmap string string) (k dflt : string) : string :=
  str_or (env_var overrides k) (str_or (env_var process_env k) dflt).

Record LLMConfig : Type := mkLLMConfig {
  llm_provider : string;
  llm_model : string;
  llm_endpoint : string;
  llm_options : jsval;
  llm_apiKey : string
}.

Record MailConfig : Type := mkMailConfig {
  mail_provider : string;
  resendApiKey : string;
  gmailClientId : string;
  gmailClientSecret : string;
  gmailRefreshToken : string;
  gmailRedirectUri : string
}.

Section WithProcess.
(** The variables of the process, the [.env] file of each instance (by
    instance id), and [JSON.parse], [None] when it throws. *)
Variable process_env : gmap string string.
Variable env_files : string -> option string.
Variable JSON_parse : string -> option jsval.

Definition loadInstanceEnv (instanceId : string) : gmap string string :=
  parseEnvFile (env_files instanceId).

Definition getLLMConfigFromEnv (overrides : gmap string string) : LLMConfig :=
  let provider := toLowerCase (setting overrides process_env "LLM_PROVIDER" "ollama") in
  let model := setting overrides process_env "LLM_MODEL" "" in
  let endpoint := setting overrides process_env "LLM_ENDPOINT" "" in
  let optRaw := setting overrides process_env "LLM_OPTIONS" "" in
  let options := if nonempty optRaw
                 then match JSON_parse optRaw with
                      | Some v => v
                      | None => JObj []
                      end
                 else JObj [] in
  let apiKey := setting overrides process_env "OPENAI_API_KEY" "" in
  mkLLMConfig provider model endpoint options apiKey.

Definition getMailConfigFromEnv (overrides : gmap string string) : MailConfig :=
  let provider := toLowerCase (setting overrides process_env "MAIL_PROVIDER" "resend") in
  mkMailConfig provider
    (setting overrides process_env "RESEND_API_KEY" "")
    (setting overrides process_env "GMAIL_CLIENT_ID" "")
    (setting overrides process_env "GMAIL_CLIENT_SECRET" "")
    (setting overrides process_env "GMAIL_REFRESH_TOKEN" "")
    (setting overrides process_env "GMAIL_REDIRECT_URI"
       "https://developers.google.com/oauthplayground").

End WithProcess.
End SharedEnv.
Import SharedEnv.


(** ** shared/index.js: the files of an instance *)

(** The POSIX flavour of Node's [path] module. *)
Module Path.

(** The pieces of a path between its separators. *)
Fixpoint segments (s : string) : list string :=
  match s with
  | EmptyString => [EmptyString]
  | String c rest =>
      if Ascii.eqb c "/" then EmptyString :: segments rest
      else match segments rest with
           | seg :: more => String c seg :: more
           | [] => [String c EmptyString]
           end
  end.

(** What [normalizeString] does at the end of a segment, [kept] being the
    segments of its result so far, the last one first: an empty segment and
    [.] are dropped; [..] removes the segment before it, unless there is
    none or it is [..] itself, and is then kept only if the path may climb
    above its start. *)
Definition normalize_step (allowAboveRoot : bool) (kept : list string) (seg : string)
    : list string :=
  if String.eqb seg "" || String.eqb seg "." then kept
  else if String.eqb seg ".." then
    match kept with
    | top :: below =>
        if String.eqb top ".." then (if allowAboveRoot then ".." :: kept else kept)
        else below
    | [] => if allowAboveRoot then [".."] else []
    end
  else seg :: kept.

Definition normalizeString (path : string) (allowAboveRoot : bool) : string :=
  JS.join "/" (rev (fold_left (normalize_step allowAboveRoot) (segments path) [])).

Definition isAbsolute (path : string) : bool :=
  match path with
  | String c _ => Ascii.eqb c "/"
  | EmptyString => false
  end.

Fixpoint trailingSeparator (path : string) : bool :=
  match path with
  | EmptyString => false
  | String c EmptyString => Ascii.eqb c "/"
  | String _ rest => trailingSeparator rest
  end.

(** [path.normalize(path)] *)
Definition normalize (path : string) : string :=
  if String.eqb path "" then "."
  else
    let p := normalizeString path (negb (isAbsolute path)) in
    if String.eqb p "" then
      (if isAbsolute path then "/" else if trailingSeparator path then "./" else ".")
    else
      let p := if trailingSeparator path then p +:+ "/" else p in
      if isAbsolute path then "/" +:+ p else p.

(** [path.join(...args)] *)
Definition join (args : list string) : string :=
  match List.filter nonempty args with
  | [] => "."
  | first :: rest => normalize (fold_left (fun joined arg => joined +:+ "/" +:+ arg) rest first)
  end.

End Path.

Module SharedPaths.

Record InstancePaths : Type := mkInstancePaths {
  p_root : string;
  p_meta : string;
  p_config : string;
  p_traces : string;
  p_artifactsDir : string;
  p_draftHtml : string;
  p_logsDir : string;
  p_runLog : string
}.

Section WithProcess.
(** The variables of the process and its working directory. *)
Variable process_env : gmap string string.
Variable cwd : string.

(** [process.env.INSTANCE_ROOT || path.join(process.cwd(), 'agents')] *)
Definition getInstanceRoot : string :=
  str_or (env_var process_env "INSTANCE_ROOT") (Path.join [cwd; "agents"]).

Definition getInstancePaths (instanceId : string) : Res InstancePaths :=
  if negb (nonempty instanceId) then Throw "instance_id is required"
  else
    let root := Path.join [getInstanceRoot; "email-app"; instanceId] in
    Ok {| p_root := root;
          p_meta := Path.join [root; "meta.json"];
          p_config := Path.join [root; "config.json"];
          p_traces := Path.join [root; "llm_traces.json"];
          p_artifactsDir := Path.join [root; "artifacts"];
          p_draftHtml := Path.join [root; "artifacts"; "email.html"];
          p_logsDir := Path.join [root; "logs"];
          p_runLog := Path.join [root; "logs"; "run.log"] |}.

End WithProcess.
End SharedPaths.
Import SharedPaths.



(** ** author-agent/server.js: the provider and its answer *)

Module AuthorProvider.
Import AuthorAgent.

(** The fallback of [cleanHtmlOutput]: strip a markdown-style
    [### Summary] block appended at the end. *)
Definition strip_summary (trimmed lower : string) : string :=
  match lastIndexOf "### summary" lower with
  | Some summaryIdx => trim (slice 0 summaryIdx trimmed)
  | None => trimmed
  end.

Definition cleanHtmlOutput (raw : jsval) : string :=
  match raw with
  | JStr raw =>
      if negb (nonempty raw) then ""
      else
        let trimmed := trim raw in
        let lower := toLowerCase trimmed in
        match indexOf "<html" lower, lastIndexOf "</html>" lower with
        | Some startIdx, Some endIdx =>
            if (startIdx <? endIdx)%nat
            then trim (slice startIdx (endIdx + String.length "</html>") trimmed)
            else strip_summary trimmed lower
        | _, _ => strip_summary trimmed lower
        end
  | _ => ""
  end.

Section WithProviders.
(** [JSON.parse], [None] when it throws, and the two provider calls with
    the arguments they are given: each returns or throws. *)
Variable JSON_parse : string -> option jsval.
Variable callOllama : forall (model endpoint prompt : string) (options : jsval), LlmOutcome.
Variable callOpenAI : forall (model apiKey endpoint prompt : string) (options : jsval), LlmOutcome.

(** [typeof parsed === 'object'] for a value that is not null *)
Definition is_object (v : jsval) : bool :=
  match v with
  | JObj _ | JArr _ => true
  | _ => false
  end.

Definition parseLlmJson (raw : jsval) : option jsval :=
  match raw with
  | JStr raw =>
      if negb (nonempty raw) then None
      else match JSON_parse raw with
           | Some parsed =>
               if js_truthy parsed && is_object parsed && js_truthy (js_get parsed "answer")
               then Some parsed
               else None
           | None => None
           end
  | _ => None
  end.

Definition generateHtmlWithLLM (llmCfg : LLMConfig) (prompt : string) : LlmOutcome :=
  let provider := toLowerCase (str_or (llm_provider llmCfg) "openai") in
  if String.eqb provider "ollama"
  then callOllama (llm_model llmCfg) (llm_endpoint llmCfg) prompt (llm_options llmCfg)
  else if negb (nonempty (llm_apiKey llmCfg))
  then LlmThrows "openai_api_key_missing"
  else callOpenAI (llm_model llmCfg) (llm_apiKey llmCfg) (llm_endpoint llmCfg) prompt
         (llm_options llmCfg).

End WithProviders.
End AuthorProvider.

(** ** send-agent/server.js *)

Module SendAgent.

Local Open Scope list_scope.

Definition SERVICE : string := "send-agent".

(** The body of [POST /send]. [s_html] is the [html] field when it is a
    string, and [""] when the field is absent or otherwise falsy. *)
Record SendPayload : Type := mkSendPayload {
  s_instance_id : jsval;
  s_username : jsval;
  s_html : string;
  s_subject : jsval;
  s_sender_email : jsval;
  s_sender_name : jsval;
  s_to : jsval;
  s_cc : jsval;
  s_bcc : jsval;
  s_trace_id : jsval
}.

(** What goes over the network to a mail provider. A JSON body is given by
    the values it is built from. *)
Inductive NetRequest : Type :=
| ResendPost (apiKey : string) (from : jsval) (to : list jsval) (subject : jsval)
    (html : string) (cc bcc : option (list jsval))
| GmailToken (client_id client_secret refresh_token redirect_uri : string)
| GmailSend (accessToken : jsval) (raw : string).

(** What a [fetch] comes back with: it throws, or it answers with a status,
    a body as text, and that body parsed ([res.json()], which throws on
    text that is not JSON). *)
Inductive HttpOutcome : Type :=
| HttpFails (msg : string)
| HttpAnswers (status : Z) (text : string) (json : Res jsval).

(** [res.ok] *)
Definition http_ok (status : Z) : bool := (200 <=? status)%Z && (status <=? 299)%Z.

Record Outbox : Type := mkOutbox {
  artifacts : gmap string string;      (* <id>/artifacts/email.html *)
  send_log : list (string * string * string);
  send_events : list LogEvent;
  requests : list NetRequest;          (* what was sent to the providers *)
  reads : nat                          (* reads of the clock and random source *)
}.

Record Reply : Type := mkReply { code : Z; body : jsval }.

(** [sendJson(res, status, body)] *)
Definition sendJson (status : Z) (body : jsval) : Reply := mkReply status body.

Definition requireRecipients (to cc bcc : jsval)
    : option (list jsval * list jsval * list jsval) :=
  let toArr := filter_truthy to in
  let ccArr := filter_truthy cc in
  let bccArr := filter_truthy bcc in
  if (List.length toArr =? 0)%nat && (List.length ccArr =? 0)%nat && (List.length bccArr =? 0)%nat
  then None
  else Some (toArr, ccArr, bccArr).

Definition add_request (q : NetRequest) (s : Outbox) : Outbox :=
  mkOutbox (artifacts s) (send_log s) (send_events s) (requests s ++ [q]) (reads s).
Definition add_send_event (e : LogEvent) (s : Outbox) : Outbox :=
  mkOutbox (artifacts s) (send_log s) (send_events s ++ [e]) (requests s) (reads s).
Definition add_send_log (l : string * string * string) (s : Outbox) : Outbox :=
  mkOutbox (artifacts s) (send_log s ++ [l]) (send_events s) (requests s) (reads s).
Definition write_artifact (id html : string) (s : Outbox) : Outbox :=
  mkOutbox (<[id := html]> (artifacts s)) (send_log s) (send_events s) (requests s) (reads s).
Definition next_read (s : Outbox) : Outbox :=
  mkOutbox (artifacts s) (send_log s) (send_events s) (requests s) (S (reads s)).

(** [arr.join(', ')]: each element as [String] has it, [null] and
    [undefined] as the empty string. *)
Definition join_addresses (items : list jsval) : string :=
  join ", " (List.map (fun x => match x with
                                | JUndef | JNull => ""
                                | _ => js_to_string x
                                end) items).

Section WithProviders.
(** The variables of the process and the [.env] files of the instances, the
    network, [Date.now()], [new Date().toISOString()] and
    [crypto.randomBytes] by the number of the read, [Buffer]'s base64
    encoding, and the message of the [TypeError] raised by reading a
    property of [null]. *)
Variable process_env : gmap string string.
Variable env_files : string -> option string.
Variable fetch : NetRequest -> HttpOutcome.
Variable date_now : nat -> string.
Variable iso_time : nat -> string.
Variable random_hex : nat -> string.
Variable base64 : string -> string.
Variable null_read_error : string -> string.

(** [data.k] for a parsed body; reading a property of [null] throws. *)
Definition read_property (data : jsval) (k : string) : Res jsval :=
  match data with
  | JNull | JUndef => Throw (null_read_error k)
  | _ => Ok (js_get data k)
  end.

Definition sendViaResend (apiKey : string) (fromEmail fromName : jsval)
    (to cc bcc : list jsval) (subject : jsval) (html : string) (s : Outbox)
    : Res jsval * Outbox :=
  if negb (nonempty apiKey) then (Throw "resend_api_key_missing", s)
  else
    let from := if js_truthy fromName
                then JStr (js_to_string fromName +:+ " <" +:+ js_to_string fromEmail +:+ ">")
                else fromEmail in
    let payload := ResendPost apiKey from to subject html
                     (if (List.length cc =? 0)%nat then None else Some cc)
                     (if (List.length bcc =? 0)%nat then None else Some bcc) in
    let s1 := add_request payload s in
    match fetch payload with
    | HttpFails msg => (Throw msg, s1)
    | HttpAnswers status text json =>
        if negb (http_ok status)
        then (Throw ("resend_error_" +:+ pretty status +:+ ": " +:+ text), s1)
        else match json with
             | Throw msg => (Throw msg, s1)
             | Ok data =>
                 match read_property data "id" with
                 | Throw msg => (Throw msg, s1)
                 | Ok id =>
                     if js_truthy id then (Ok id, s1)
                     else if js_truthy (js_get data "message") then (Ok (js_get data "message"), s1)
                     else (Ok (JStr ("resend-" +:+ date_now (reads s1))), next_read s1)
                 end
             end
    end.

Definition getGmailAccessToken (cfg : MailConfig) (s : Outbox) : Res jsval * Outbox :=
  if negb (nonempty (gmailClientId cfg)) || negb (nonempty (gmailClientSecret cfg))
     || negb (nonempty (gmailRefreshToken cfg))
  then (Throw "gmail_credentials_missing", s)
  else
    let q := GmailToken (gmailClientId cfg) (gmailClientSecret cfg) (gmailRefreshToken cfg)
               (str_or (gmailRedirectUri cfg) "https://developers.google.com/oauthplayground") in
    let s1 := add_request q s in
    match fetch q with
    | HttpFails msg => (Throw msg, s1)
    | HttpAnswers status text json =>
        if negb (http_ok status)
        then (Throw ("gmail_token_error_" +:+ pretty status +:+ ": " +:+ text), s1)
        else match json with
             | Throw msg => (Throw msg, s1)
             | Ok data =>
                 match read_property data "access_token" with
                 | Throw msg => (Throw msg, s1)
                 | Ok token =>
                     if negb (js_truthy token) then (Throw "gmail_access_token_missing", s1)
                     else (Ok token, s1)
                 end
             end
    end.

Definition CRLF : string := String (ascii_of_nat 13) (String (ascii_of_nat 10) "").
Definition dq : string := String (ascii_of_nat 34) "".

(** The message [buildGmailRaw] encodes. *)
Definition gmail_message (fromEmail : jsval) (to cc bcc : list jsval) (subject : jsval)
    (html : string) : string :=
  let headers :=
    ["From: " +:+ js_to_string fromEmail; "To: " +:+ join_addresses to]
    ++ (if (List.length cc =? 0)%nat then [] else ["Cc: " +:+ join_addresses cc])
    ++ (if (List.length bcc =? 0)%nat then [] else ["Bcc: " +:+ join_addresses bcc])
    ++ ["Subject: " +:+ js_to_string subject; "MIME-Version: 1.0";
        "Content-Type: text/html; charset=" +:+ dq +:+ "UTF-8" +:+ dq] in
  join CRLF headers +:+ CRLF +:+ CRLF +:+ html.

Definition buildGmailRaw (fromEmail : jsval) (to cc bcc : list jsval) (subject : jsval)
    (html : string) : string :=
  base64 (gmail_message fromEmail to cc bcc subject html).

Definition sendViaGmail (cfg : MailConfig) (fromEmail : jsval) (to cc bcc : list jsval)
    (subject : jsval) (html : string) (s : Outbox) : Res jsval * Outbox :=
  match getGmailAccessToken cfg s with
  | (Throw msg, s1) => (Throw msg, s1)
  | (Ok accessToken, s1) =>
      let raw := buildGmailRaw fromEmail to cc bcc subject html in
      let q := GmailSend accessToken raw in
      let s2 := add_request q s1 in
      match fetch q with
      | HttpFails msg => (Throw msg, s2)
      | HttpAnswers status text json =>
          if negb (http_ok status)
          then (Throw ("gmail_send_error_" +:+ pretty status +:+ ": " +:+ text), s2)
          else match json with
               | Throw msg => (Throw msg, s2)
               | Ok data =>
                   match read_property data "id" with
                   | Throw msg => (Throw msg, s2)
                   | Ok id =>
                       if js_truthy id then (Ok id, s2)
                       else (Ok (JStr ("gmail-" +:+ date_now (reads s2))), next_read s2)
                   end
               end
      end
  end.

(** [sendEmailProvider]; what it returns is the [id] of its result. *)
Definition sendEmailProvider (mailCfg : MailConfig) (fromEmail fromName : jsval)
    (to cc bcc : list jsval) (subject : jsval) (html : string) (s : Outbox)
    : Res jsval * Outbox :=
  let provider := toLowerCase (str_or (mail_provider mailCfg) "resend") in
  if String.eqb provider "gmail"
  then sendViaGmail mailCfg fromEmail to cc bcc subject html s
  else (* Default to Resend *)
    sendViaResend (resendApiKey mailCfg) fromEmail fromName to cc bcc subject html s.

Definition error_body (reason : string) : jsval := JObj [("error", JStr reason)].

Definition handleSend (payload : SendPayload) (s : Outbox) : Reply * Outbox :=
  match s_instance_id payload with
  | JStr instance_id =>
      if negb (validateInstanceId (s_instance_id payload))
      then (sendJson 400 (error_body "instance_id_required"), s)
      else if negb (js_truthy (s_username payload))
      then (sendJson 400 (error_body "username_required"), s)
      else if negb (nonempty (s_html payload))
      then (sendJson 400 (error_body "html_required"), s)
      else if negb (js_truthy (s_subject payload))
      then (sendJson 400 (error_body "subject_required"), s)
      else
        match requireRecipients (s_to payload) (s_cc payload) (s_bcc payload) with
        | None => (sendJson 400 (error_body "recipients_required"), s)
        | Some (to, cc, bcc) =>
            (* Load per-instance mail configuration overrides. *)
            let instanceEnv := loadInstanceEnv env_files instance_id in
            let mailCfg := getMailConfigFromEnv process_env instanceEnv in
            let s1 := add_send_event
                        (mkLogEvent SERVICE "info" "progress"
                           ("Sending email (" +:+ mail_provider mailCfg +:+ ")")
                           instance_id (s_username payload) (s_trace_id payload))
                        s in
            let s2 := add_send_log (instance_id, "send-agent", "Sending email via provider")
                        (write_artifact instance_id (s_html payload) s1) in
            match sendEmailProvider mailCfg (s_sender_email payload) (s_sender_name payload)
                    to cc bcc (s_subject payload) (s_html payload) s2 with
            | (Throw msg, s3) =>
                (sendJson 502 (JObj [("error", JStr (err_text msg))]), s3)
            | (Ok id, s3) =>
                let '(messageId, s4) :=
                  if js_truthy id then (id, s3)
                  else (JStr ("msg-" +:+ random_hex (reads s3)), next_read s3) in
                let sentAt := iso_time (reads s4) in
                let s5 := add_send_event
                            (mkLogEvent SERVICE "info" "state_change"
                               ("Email sent (" +:+ mail_provider mailCfg +:+ ")")
                               instance_id (s_username payload) (s_trace_id payload))
                            (next_read s4) in
                (sendJson 200 (JObj [("id", messageId); ("sent_at", JStr sentAt);
                                     ("status", JStr "sent");
                                     ("trace_id", s_trace_id payload ||| JNull)]),
                 s5)
            end
        end
  | _ => (sendJson 400 (error_body "instance_id_required"), s)
  end.

End WithProviders.
End SendAgent.

(** * Vocabulary of the properties *)

Import Compose.
Local Open Scope list_scope.

(** The six fields of the compose configuration. *)
Inductive Field : Type :=
| FSubject | FTo | FCc | FBcc | FSenderEmail | FSenderName.

Definition key (f : Field) : string :=
  match f with
  | FSubject => "subject"
  | FTo => "to"
  | FCc => "cc"
  | FBcc => "bcc"
  | FSenderEmail => "sender_email"
  | FSenderName => "sender_name"
  end.

Definition merged_field (f : Field) (m : Merged) : jsval :=
  match f with
  | FSubject => subject m
  | FTo => to m
  | FCc => cc m
  | FBcc => bcc m
  | FSenderEmail => sender_email m
  | FSenderName => sender_name m
  end.

(** The keys of [config.json] that can supply a field. *)
Definition stored_keys (f : Field) : list string :=
  match f with
  | FSubject => ["subject"; "EMAIL_SUBJECT"]
  | FTo => ["to"]
  | FCc => ["cc"]
  | FBcc => ["bcc"]
  | FSenderEmail => ["sender_email"; "SENDER_EMAIL"]
  | FSenderName => ["sender_name"; "SENDER_NAME"]
  end.

(** What a field is when nothing supplies it. *)
Definition field_default (f : Field) : jsval :=
  match f with
  | FTo | FCc | FBcc => JArr []
  | FSubject | FSenderEmail | FSenderName => JNull
  end.

(** The value the stored configuration gives a field: the first truthy one
    among its keys, else the default. *)
Definition stored (f : Field) (cfg : jsval) : jsval :=
  fold_right (fun k rest => js_get cfg k ||| rest) (field_default f) (stored_keys f).

(** What the instance store says of an instance. *)
Definition status_of (w : World) (id : string) : option Status := status (readMeta w id).
Definition gen_of (w : World) (id : string) : Z := default 0%Z (gen_count (readMeta w id)).

Definition is_email_call (c : Call) : bool :=
  match c with CallEmail _ => true | _ => false end.


(** What an operation leaves as it found it: the collaborator calls made,
    the drafted artifacts and the stored configurations. *)
Definition keeps_store (w w' : World) : Prop :=
  calls w' = calls w /\ drafts w' = drafts w /\ configs w' = configs w.

(** What a synchronous review callback answers for an outcome of its handler. *)
Definition callback_reply (r : Res unit) : Reply :=
  match r with
  | Ok _ => sendJson 200 (JObj [("ok", JBool true)])
  | Throw msg =>
      sendJson 400 (JObj [("error", JStr "hitl_callback_failed");
                          ("detail", if nonempty msg then JStr msg else JObj [])])
  end.

(** The world the review collaborator is called in, [w] being the world
    when [callHitlAgent] starts: the submission has been noted in the local
    log. *)
Definition review_sees (i : string) (w : World) : World :=
  add_local (i, "compose", "HITL submit -> " +:+ HITL_URL) (add_dir i w).

(** What a synchronous send answers for an outcome of its flow. *)
Definition send_reply (i : string) (tr : jsval) (r : Res jsval) : Reply :=
  match r with
  | Ok result => sendJson 200 result
  | Throw msg =>
      sendJson 502 (JObj [("error", JStr "compose_failed");
                          ("detail", if nonempty msg then JStr msg else JObj []);
                          ("instance_id", JStr i);
                          ("trace_id", tr)])
  end.

(** The acknowledgment of a detached trigger. *)
Definition acknowledgment (i : jsval) (tr : jsval) : Reply :=
  sendJson 202 (JObj [("status", JStr "accepted"); ("instance_id", i); ("trace_id", tr)]).

(** The answer of a send whose review was declined. *)
Definition flow_declined (statusCode : Z) (body : jsval) : jsval :=
  JObj [("error", JStr "hitl_submit_failed"); ("status", JNum statusCode);
        ("detail", hitl_error body ||| hitl_info body ||| hitl_status body ||| JUndef)].

(** The reason code a new send is refused with, if it is refused. *)
Definition validation_error (env : Env) (payload : jsval) (w : World) : option string :=
  let p := payload ||| JObj [] in
  if negb (js_truthy (js_get p "username")) then Some "username_required"
  else if negb (js_truthy (js_get p "instructions")) && negb (js_truthy (base_html_of p))
  then Some "instructions_required"
  else
    let '(i, _, _) := send_target env p w in
    let merged := mergeConfig w i p in
    if negb (js_truthy (subject merged)) then Some "subject_missing_after_merge"
    else match requireRecipients (to merged) (cc merged) (bcc merged) with
         | None => Some "recipients_missing_after_merge"
         | Some _ => None
         end.

(** Two request bodies that differ at most in their [async] flag. *)
Definition same_request (p p' : jsval) : Prop :=
  forall k : string, k <> "async" -> js_get p k = js_get p' k.

(** The same callback in the other mode. *)
Definition with_async (a : bool) (b : CallbackBody) : CallbackBody :=
  mkCallbackBody (cb_instance_id b) (cb_result b) (cb_response b) (cb_information b)
                 (cb_instructions b) (cb_username b) (cb_trace_id b) a.

(** The merged configuration has no non-empty recipient in to, cc or bcc. *)
Definition lacks_recipient (m : Merged) : Prop :=
  forall (field : jsval) (items : list jsval) (x : jsval),
    In field [to m; cc m; bcc m] -> field = JArr items -> In x items ->
    js_truthy x = false.

(** [meta.json] after [updateMeta(id, { status: 'wait' })]. *)
Definition waiting (m : Meta) : Meta :=
  mkMeta (Some Wait) (started_at m) (finished_at m) (owner m) (gen_count m).

(** ** Scenarios

    Concrete collaborators and requests on which the properties are run. *)

Definition clock_T (n : nat) : string := "T" +:+ pretty n.
Definition random_r (n : nat) : string := "r" +:+ pretty n.

(** Every collaborator answers well. *)
Definition env_ok : Env :=
  mkEnv (fun _ _ => AuthorReplied "<html>H1</html>")
        (fun _ _ => HitlReplied 202 (JObj [("status", JStr "pending")]))
        (fun _ _ => EmailReplied (JObj [("id", JStr "msg-1")]))
        clock_T random_r.

(** The drafting service cannot be reached. *)
Definition env_draft_down : Env :=
  mkEnv (fun _ _ => AuthorFailed "author_agent_error_500: down")
        (hitl_agent env_ok) (email_agent env_ok) clock_T random_r.


(** The delivery service fails. *)
Definition env_delivery_down : Env :=
  mkEnv (author_agent env_ok) (hitl_agent env_ok)
        (fun _ _ => EmailFailed "email_agent_error_502: provider")
        clock_T random_r.

Definition world0 : World := mkWorld ∅ ∅ ∅ ∅ [] [] [] 0.

(** The new send of the specification's scenario. *)
Definition send_alice : jsval :=
  JObj [("username", JStr "alice"); ("instructions", JStr "Say hello");
        ("subject", JStr "Hi"); ("to", JArr [JStr "a@x.com"])].

(** The same send with the detached-mode flag. *)
Definition send_alice_detached : jsval :=
  JObj [("async", JBool true); ("username", JStr "alice"); ("instructions", JStr "Say hello");
        ("subject", JStr "Hi"); ("to", JArr [JStr "a@x.com"])].

(** The same send without a subject. *)
Definition send_no_subject : jsval :=
  JObj [("username", JStr "alice"); ("instructions", JStr "Say hello");
        ("to", JArr [JStr "a@x.com"])].

Definition callback (id response instructions : string) : CallbackBody :=
  mkCallbackBody (JStr id) "" response "" instructions "" "" false.

Definition abort_by_alice (id : string) : jsval :=
  JObj [("instance_id", JStr id); ("username", JStr "alice")].

(** The scenario's instance once its first draft is with the reviewer; its
    generated id is ["r0-r1"]. *)
Definition world_waiting : World := settle (handleComposeSend env_ok send_alice world0).


(** A store with a configuration for the instance ["i1"]. *)
Definition world_stored : World :=
  mkWorld ∅ {["i1" := JObj [("subject", JStr "Stored"); ("to", JArr [JStr "b@x.com"])]]}
          ∅ ∅ [] [] [] 0.

(** ** Vocabulary of the further properties *)

(** A step relation on worlds holds of a computation when it relates the
    world the computation starts in to the world it ends in, whether it
    returns or throws. *)
Definition steps (R : World -> World -> Prop) {A : Type} (m : M A) : Prop :=
  forall w, R w (snd (m w)).

(** How the store may change while a handler works on instance [i]: no
    configuration is written, the records and drafts of the other instances
    stay, and of the instance's own record [started_at] and [owner] stay
    once set and [gen_count] does not go down. *)
Definition evolves (i : string) (w w' : World) : Prop :=
  configs w' = configs w
  /\ (forall j, j <> i -> metas w' !! j = metas w !! j)
  /\ (forall j, j <> i -> drafts w' !! j = drafts w !! j)
  /\ (forall t, started_at (readMeta w i) = Some t -> nonempty t = true ->
        started_at (readMeta w' i) = Some t)
  /\ (js_truthy (owner (readMeta w i)) = true ->
        owner (readMeta w' i) = owner (readMeta w i))
  /\ (gen_of w i <= gen_of w' i)%Z.

(** An event of the orchestrator about instance [i], for [user], under the
    trace id [tr]. *)
Definition tagged (i : string) (user tr : jsval) (e : LogEvent) : Prop :=
  l_service e = SERVICE /\ l_instance_id e = i /\ l_username e = user /\ l_trace_id e = tr.

(** The events logged between two worlds all carry the same tags. *)
Definition logs_tagged (i : string) (user tr : jsval) (w w' : World) : Prop :=
  exists l, events w' = events w ++ l /\ Forall (tagged i user tr) l.

(** The requests the orchestrator serves. *)
Inductive Trigger : Type :=
| NewSend (payload : jsval)
| ReviewCallback (b : CallbackBody)
| AbortRequest (body : jsval).

Definition serve (env : Env) (q : Trigger) (w : World) : Handled :=
  match q with
  | NewSend payload => handleComposeSend env payload w
  | ReviewCallback b => handleHitlCallback env b w
  | AbortRequest body => handleAbort env body w
  end.

(** One request served, its background task included. *)
Definition served (env : Env) (w w' : World) : Prop :=
  exists q, w' = settle (serve env q w).

(** The instance a request is about, when it names or is given one. *)
Definition target (env : Env) (q : Trigger) (w : World) : option string :=
  match q with
  | NewSend payload => Some (send_target env (payload ||| JObj []) w).1.1
  | ReviewCallback b =>
      match cb_instance_id b with JStr i => Some i | _ => None end
  | AbortRequest body =>
      match js_get (body ||| JObj []) "instance_id" with JStr i => Some i | _ => None end
  end.

(** Who a request says it is from, and the trace id it brings. *)
Definition requester (q : Trigger) : jsval :=
  match q with
  | NewSend payload => js_get (payload ||| JObj []) "username"
  | ReviewCallback b => callback_user b
  | AbortRequest body => js_get (body ||| JObj []) "username"
  end.

Definition supplied_trace (q : Trigger) : jsval :=
  match q with
  | NewSend payload => js_get (payload ||| JObj []) "trace_id"
  | ReviewCallback b => JStr (cb_trace_id b)
  | AbortRequest body => js_get (body ||| JObj []) "trace_id"
  end.

(** The file of a kind that an instance id names, if it names one. Two ids
    can name the same file: [path.join] resolves [.] and [..]. *)
Definition file_of (kind : InstancePaths -> string) (process_env : gmap string string)
    (cwd id : string) : option string :=
  match getInstancePaths process_env cwd id with
  | Ok paths => Some (kind paths)
  | Throw _ => None
  end.

(** The ids [i] and [j] name different files of a kind, [same_file] being
    what the file system takes for one file under two paths. *)
Definition apart (same_file : string -> string -> Prop) (kind : InstancePaths -> string)
    (process_env : gmap string string) (cwd i j : string) : Prop :=
  forall pi pj,
    file_of kind process_env cwd i = Some pi ->
    file_of kind process_env cwd j = Some pj ->
    ~ same_file pi pj.

(** Where [rotateEmailFiles] puts the file that was in slot [k]. *)
Definition rotated_slot (dir : gmap nat string) (k : nat) : nat :=
  if decide (k < AuthorAgent.first_free dir)%nat then S k else k.

(** *** Environment files *)

(** The lines of an environment file. *)
Inductive EnvLine : Type :=
| Assign (k v : string)
| Comment (text : string)
| Blank.

Definition render_line (l : EnvLine) : string :=
  match l with
  | Assign k v => k +:+ "=" +:+ v
  | Comment text => "#" +:+ text
  | Blank => ""
  end.

(** The file whose lines are [ls], each but the last ended by [eol]. *)
Definition render (eol : string) (ls : list EnvLine) : string :=
  join eol (List.map render_line ls).

Fixpoint has (c : ascii) (s : string) : bool :=
  match s with
  | EmptyString => false
  | String c' rest => Ascii.eqb c c' || has c rest
  end.

(** No line break inside. *)
Definition one_line (s : string) : Prop := has LF s = false /\ has CR s = false.

(** A line the parser reads back as written: a key that is not empty, has no
    white space around it and no [=] in it, does not start a comment and is
    not [__proto__]; a value with no white space around it. *)
Definition well_formed (l : EnvLine) : Prop :=
  match l with
  | Assign k v =>
      nonempty k = true /\ trim k = k /\ has "=" k = false /\ one_line k
      /\ startsWith "#" k = false /\ k <> "__proto__"
      /\ trim v = v /\ one_line v
  | Comment text => one_line text
  | Blank => True
  end.

(** What the assignments of a file amount to, later ones overriding. *)
Definition assignments (ls : list EnvLine) : gmap string string :=
  fold_left (fun m l => match l with Assign k v => <[k := v]> m | _ => m end) ls ∅.

Definition CRLF : string := String CR (String LF "").

(** What [parseEnvFile] can hold under a key. *)
Definition env_entry (k v : string) : Prop :=
  nonempty k = true /\ trim k = k /\ has "=" k = false /\ k <> "__proto__" /\ trim v = v.


(** *** The answer of the provider *)

(** [s.endsWith(p)] *)
Definition endsWith (p s : string) : bool :=
  (String.length p <=? String.length s)%nat
  && String.eqb (String.substring (String.length s - String.length p) (String.length p) s) p.

(** An HTML document, from its opening tag to its closing tag, whatever
    the case of the tags. *)
Definition is_document (s : string) : Prop :=
  startsWith "<html" (toLowerCase s) = true /\ endsWith "</html>" (toLowerCase s) = true.

(** *** The author agent as configured *)

Section Configured.
Variable process_env : gmap string string.
Variable env_files : string -> option string.
Variable JSON_parse : string -> option jsval.
Variable callOllama : forall (model endpoint prompt : string) (options : jsval),
    AuthorAgent.LlmOutcome.
Variable callOpenAI : forall (model apiKey endpoint prompt : string) (options : jsval),
    AuthorAgent.LlmOutcome.
Variable promptText : string -> string.
Variable jsonContract : string.
Variable cleanHtml : string -> string.
Variable parseAnswer : string -> option (string * jsval).

(** The configuration [handleGenerate] works with for an instance. *)
Definition llm_config_of (i : string) : LLMConfig :=
  getLLMConfigFromEnv process_env JSON_parse (loadInstanceEnv env_files i).

(** [handleGenerate] with the provider chosen by that configuration. *)
Definition generate_configured : AuthorAgent.GenerateReq -> AuthorAgent.Disk ->
                                 AuthorAgent.Reply * AuthorAgent.Disk :=
  AuthorAgent.handleGenerate promptText (fun i => llm_model (llm_config_of i))
    (fun i prompt =>
       AuthorProvider.generateHtmlWithLLM callOllama callOpenAI (llm_config_of i) prompt)
    jsonContract cleanHtml parseAnswer.

End Configured.

(** *** The send agent as the delivery collaborator *)

Module Delivery.
Import SendAgent.

(** A request that [handleSend] refuses. *)
Definition send_refused (p : SendPayload) : Prop :=
  validateInstanceId (s_instance_id p) = false
  \/ js_truthy (s_username p) = false
  \/ s_html p = ""
  \/ js_truthy (s_subject p) = false
  \/ SendAgent.requireRecipients (s_to p) (s_cc p) (s_bcc p) = None.

(** A request that hands a message to a provider, as opposed to one that
    asks for a token. *)
Definition is_message (q : NetRequest) : bool :=
  match q with
  | GmailToken _ _ _ _ => false
  | _ => true
  end.

(** The request [q] hands over the message of the payload [p], for the
    recipients [to], [cc] and [bcc] and by the encoding [base64]. *)
Definition carries_message (base64 : string -> string) (p : SendPayload)
    (to cc bcc : list jsval) (q : NetRequest) : Prop :=
  match q with
  | ResendPost _ _ to' subject html cc' bcc' =>
      to' = to /\ subject = s_subject p /\ html = s_html p
      /\ cc' = (if (List.length cc =? 0)%nat then None else Some cc)
      /\ bcc' = (if (List.length bcc =? 0)%nat then None else Some bcc)
  | GmailSend _ raw =>
      raw = buildGmailRaw base64 (s_sender_email p) to cc bcc (s_subject p) (s_html p)
  | GmailToken _ _ _ _ => False
  end.

(** The provider granted the token [tok] in its answer to the request [q]. *)
Definition grants (fetch : NetRequest -> HttpOutcome) (q : NetRequest) (tok : jsval) : Prop :=
  is_message q = false
  /\ exists status text data,
       fetch q = HttpAnswers status text (Ok data) /\ http_ok status = true
       /\ js_get data "access_token" = tok /\ js_truthy tok = true.
(** What the provider was asked when [sendEmailProvider] is over, with the
    outcome [out] and the requests [qs]: at most one request hands over a
    message, and it is the last one; it carries the message of the payload;
    with Gmail it bears a token the provider granted; a result means it
    was answered ok. *)
Definition provider_asked (fetch : NetRequest -> HttpOutcome) (base64 : string -> string)
    (p : SendPayload) (to cc bcc : list jsval) (out : Res jsval) (qs : list NetRequest)
    : Prop :=
  (qs = []
   \/ (exists q, qs = [q] /\ (forall tok raw, q <> GmailSend tok raw)
                  /\ (is_message q = true -> carries_message base64 p to cc bcc q))
   \/ exists tq tok raw,
        qs = [tq; GmailSend tok raw] /\ grants fetch tq tok
        /\ carries_message base64 p to cc bcc (GmailSend tok raw))
  /\ (forall id, out = Ok id ->
        exists before q status text data,
          qs = before ++ [q] /\ is_message q = true
          /\ fetch q = HttpAnswers status text (Ok data) /\ http_ok status = true).

Section WithSendAgent.
Variable process_env : gmap string string.
Variable env_files : string -> option string.
Variable fetch : NetRequest -> HttpOutcome.
Variable date_now : nat -> string.
Variable iso_time : nat -> string.
Variable random_hex : nat -> string.
Variable base64 : string -> string.
Variable null_read_error : string -> string.
(** [JSON.stringify], for the text of an answer that is not ok. *)
Variable JSON_stringify : jsval -> string.

(** The configuration [handleSend] works with for an instance. *)
Definition mail_config_of (i : string) : MailConfig :=
  getMailConfigFromEnv process_env (loadInstanceEnv env_files i).

(** The body [callEmailAgent] posts, as the send agent reads it. *)
Definition payload_of (req : EmailReq) : SendPayload :=
  mkSendPayload (JStr (e_instance_id req)) (e_username req) (e_html req) (e_subject req)
    (e_sender_email req) (e_sender_name req) (e_to req) (e_cc req) (e_bcc req)
    (e_trace_id req).

(** The send agent works in the instance directories of the orchestrator. *)
Definition outbox_of (w : World) : Outbox := mkOutbox (drafts w) [] [] [] (tick w).

(** What [callEmailAgent] gets when the service at [EMAIL_URL] is the send
    agent: the body of a 200, and otherwise the error it throws. *)
Definition delivery_by_send_agent (w : World) (req : EmailReq) : EmailOutcome :=
  let answer := fst (handleSend process_env env_files fetch date_now iso_time random_hex
                       base64 null_read_error (payload_of req) (outbox_of w)) in
  if http_ok (SendAgent.code answer) then EmailReplied (SendAgent.body answer)
  else EmailFailed ("email_agent_error_" +:+ pretty (SendAgent.code answer) +:+ ": "
                      +:+ JSON_stringify (SendAgent.body answer)).

End WithSendAgent.
End Delivery.
Import Delivery.

(** *** Further scenarios *)

(** The review service cannot be reached. *)
Definition env_review_down : Env :=
  mkEnv (author_agent env_ok) (fun _ _ => HitlUnreachable "fetch failed")
        (email_agent env_ok) clock_T random_r.

(** A delivery request for the scenario's instance. *)
Definition send_request (html : string) : SendAgent.SendPayload :=
  SendAgent.mkSendPayload (JStr "r0-r1") (JStr "alice") html (JStr "Hi") JNull JNull
    (JArr [JStr "a@x.com"]) JUndef JUndef JUndef.

Definition outbox0 : SendAgent.Outbox := SendAgent.mkOutbox ∅ [] [] [] 0.

(** A mail provider that accepts every message. *)
Definition provider_accepts (q : SendAgent.NetRequest) : SendAgent.HttpOutcome :=
  SendAgent.HttpAnswers 200 "" (Ok (JObj [("id", JStr "m-1")])).

(** The send agent of the scenarios, by the variables of its process. *)
Definition send_agent (process_env : gmap string string) :=
  SendAgent.handleSend process_env (fun _ => None) provider_accepts clock_T clock_T random_r
    (fun s => s) (fun k => "Cannot read properties of null").

(** The scenario's collaborators with that send agent for the delivery. *)
Definition env_with_send_agent (process_env : gmap string string) : Env :=
  mkEnv (author_agent env_ok) (hitl_agent env_ok)
        (delivery_by_send_agent process_env (fun _ => None) provider_accepts clock_T clock_T
           random_r (fun s => s) (fun k => "Cannot read properties of null")
           (fun _ => "{}"))
        clock_T random_r.

(** The waiting instance of the scenario with a stored configuration. *)
Definition world_configured : World :=
  mkWorld (metas world_waiting)
          {["r0-r1" := JObj [("subject", JStr "Hi"); ("to", JArr [JStr "a@x.com"])]]}
          (drafts world_waiting) (dirs world_waiting) (calls world_waiting)
          (events world_waiting) (locallog world_waiting) (tick world_waiting).

(** * Properties *)

(** ** Field-level merge of the configuration *)

Lemma js_or_assoc (a b c : jsval) : a ||| b ||| c = a ||| (b ||| c).
Proof. unfold js_or. destruct (js_truthy a) eqn:Ha; [now rewrite Ha | reflexivity]. Qed.

Lemma js_or_truthy (a b : jsval) : js_truthy a = true -> a ||| b = a.
Proof. unfold js_or. now intros ->. Qed.

Lemma js_or_falsy (a b : jsval) : js_truthy a = false -> a ||| b = b.
Proof. unfold js_or. now intros ->. Qed.

Lemma mergeConfig_field (f : Field) (w : World) (id : string) (p : jsval) :
  merged_field f (mergeConfig w id p)
  = js_get p (key f) ||| stored f (loadInstanceConfig w id).
Proof. destruct f; cbn; now rewrite ?js_or_assoc. Qed.

(** C9, as the code has it. Each of subject, to, cc, bcc, sender_email and
    sender_name is merged on its own. A value supplied by the request that
    is truthy, as [||] tests it, is the merged value whatever
    [config.json] holds and whatever the other request fields are. A field
    that the request leaves out, or supplies as the empty text, [null],
    [false] or [0], takes the value that the [config.json] of the instance
    has for that field: the first truthy one among its keys, else [null]
    or the empty list; with no [config.json] it is that default. The merged
    field depends on nothing but the request's value for it and the stored
    keys of that same field. *)
Theorem mergeConfig_field_override (f : Field) (w : World) (id : string) (p : jsval) :
  let config_json := fun (w : World) (id : string) =>
                       match configs w !! id with
                       | Some c => c ||| JObj []
                       | None => JObj []
                       end in
  (js_truthy (js_get p (key f)) = true ->
     merged_field f (mergeConfig w id p) = js_get p (key f))
  /\ (js_truthy (js_get p (key f)) = false ->
        merged_field f (mergeConfig w id p) = stored f (config_json w id))
  /\ (configs w !! id = None -> stored f (config_json w id) = field_default f)
  /\ (forall (w' : World) (id' : string) (p' : jsval),
        js_get p' (key f) = js_get p (key f) ->
        (forall k, k ∈ stored_keys f ->
           js_get (config_json w' id') k = js_get (config_json w id) k) ->
        merged_field f (mergeConfig w' id' p') = merged_field f (mergeConfig w id p)).
Proof.
  intros config_json.
  assert (Hload : forall w id, loadInstanceConfig w id = config_json w id) by reflexivity.
  split; [| split; [| split]].
  - intros Hv. rewrite mergeConfig_field. now apply js_or_truthy.
  - intros Hv. rewrite mergeConfig_field, Hload. now apply js_or_falsy.
  - intros Hnone. unfold config_json. rewrite Hnone. destruct f; reflexivity.
  - intros w' id' p' Hp Hk. rewrite !mergeConfig_field, Hp, !Hload. f_equal.
    unfold stored. destruct f; cbn; rewrite ?Hk; try reflexivity; set_solver.
Qed.

(** A request that supplies a subject and no recipient, for an instance
    whose [config.json] has a subject and a recipient: the subject is the
    request's, the recipient the stored one. *)
Lemma mergeConfig_field_override_witness :
  let p := JObj [("subject", JStr "Hi")] in
  merged_field FSubject (mergeConfig world_stored "i1" p) = JStr "Hi"
  /\ merged_field FTo (mergeConfig world_stored "i1" p) = JArr [JStr "b@x.com"].
Proof.
  intros p. split.
  - apply (proj1 (mergeConfig_field_override FSubject world_stored "i1" p)). reflexivity.
  - rewrite (proj1 (proj2 (mergeConfig_field_override FTo world_stored "i1" p)) eq_refl).
    reflexivity.
Defined.

(** A request that supplies the empty text as its subject does not get it:
    the stored subject is the merged one. *)
Lemma mergeConfig_empty_subject_does_not_override :
  let p := JObj [("subject", JStr ""); ("to", JArr [JStr "a@x.com"])] in
  js_get p "subject" = JStr ""
  /\ subject (mergeConfig world_stored "i1" p) = JStr "Stored"
  /\ to (mergeConfig world_stored "i1" p) = JArr [JStr "a@x.com"].
Proof. vm_compute. repeat split. Qed.

(** A value that is present but falsy ([""], [null], [0], [false]) is not
    taken: the field falls back to the stored configuration as if absent. *)
Lemma mergeConfig_falsy_falls_back (f : Field) (w : World) (id : string) (p : jsval) :
  js_truthy (js_get p (key f)) = false ->
  merged_field f (mergeConfig w id p) = stored f (loadInstanceConfig w id).
Proof. intros Hv. rewrite mergeConfig_field. now apply js_or_falsy. Qed.

(** ** Running the handlers *)

Ltac unfold_js :=
  unfold finishAs, abortInstance, markInstanceActive, updateMeta, writeJsonSafe,
    appendLocalLog, logEvent, callAuthorAgent, callEmailAgent, callHitlAgent,
    now, read_random, ensureDir, try_catch, bind, ret, throw, gets, modify in *.

Ltac unfold_monad :=
  unfold updateMeta, writeJsonSafe, appendLocalLog, logEvent, callAuthorAgent,
    callEmailAgent, callHitlAgent, try_catch, bind, ret, throw, gets, modify in *.

Ltac case_ifs :=
  repeat match goal with
         | |- context [if ?c then _ else _] => destruct c eqn:?; cbn
         end.


Lemma mergeConfig_configs (w w' : World) (i : string) (p : jsval) :
  configs w' = configs w -> mergeConfig w' i p = mergeConfig w i p.
Proof. unfold mergeConfig, loadInstanceConfig. now intros ->. Qed.

Ltac norm_merge w :=
  repeat match goal with
         | |- context [mergeConfig ?W ?i ?p] =>
             lazymatch W with
             | w => fail
             | _ => rewrite (mergeConfig_configs w W i p) by reflexivity
             end
         end.

Ltac world_simpl_goal :=
  unfold status_of, gen_of, readMeta, readLatestEmailHtml, stamp_terminal, keeps_store,
    review_sees;
  cbn [metas configs drafts dirs calls events locallog tick
       add_event add_local add_dir add_call set_metas set_drafts bump_tick
       status started_at finished_at owner gen_count fst snd];
  rewrite ?lookup_insert_eq;
  cbn [default from_option Datatypes.id status started_at finished_at owner gen_count].

(** Rewrite the store of every later world into the store of the first. *)
Ltac chase :=
  repeat first
    [ progress world_simpl_goal
    | match goal with
      | H : metas ?x = _ |- context [metas ?x] => rewrite H
      | H : calls ?x = _ |- context [calls ?x] => rewrite H
      | H : drafts ?x = _ |- context [drafts ?x] => rewrite H
      | H : configs ?x = _ |- context [configs ?x] => rewrite H
      end ].

Ltac split_all := unfold keeps_store; repeat match goal with |- _ /\ _ => split end.

Ltac norm_store w :=
  norm_merge w;
  unfold readLatestEmailHtml, readMeta, loadInstanceConfig in *;
  cbn [metas configs drafts dirs calls events locallog tick
       add_event add_local add_dir add_call set_metas set_drafts bump_tick] in *.

(** The compound operations, each summarised by what it returns and what
    it does to the store. *)

Lemma resolve_trace_id_spec (env : Env) (t : jsval) (w : World) :
  exists tr w',
    resolve_trace_id env t w = (tr, w')
    /\ metas w' = metas w /\ keeps_store w w' /\ events w' = events w
    /\ locallog w' = locallog w /\ dirs w' = dirs w /\ (tick w <= tick w')%nat.
Proof.
  unfold resolve_trace_id. destruct (js_truthy t);
    (eexists _, _; split; [reflexivity |]); unfold keeps_store; cbn; repeat split; lia.
Qed.

Lemma abortInstance_spec (env : Env) (i : string) (user trace : jsval)
    (note : string) (w : World) :
  exists w',
    abortInstance env i user trace note w = (Ok tt, w')
    /\ metas w' = <[i := stamp_terminal Abort (clock env (tick w)) (readMeta w i)]> (metas w)
    /\ keeps_store w w'
    /\ (tick w < tick w')%nat
    /\ (forall l, In l (locallog w) -> In l (locallog w'))
    /\ (nonempty note = true -> In (i, "compose", note) (locallog w'))
    /\ (forall e, In e (events w) -> In e (events w')).
Proof.
  unfold abortInstance. unfold_js. cbn.
  case_ifs; (eexists; split; [reflexivity |]); cbn; unfold keeps_store; cbn;
    repeat split; try lia; intros; rewrite ?in_app_iff; cbn; auto.
Qed.

Lemma finishAs_spec (env : Env) (i : string) (user trace : jsval) (st : Status)
    (msg : string) (w : World) :
  exists w',
    finishAs env i user trace st msg w = (Ok tt, w')
    /\ metas w' = <[i := stamp_terminal st (clock env (tick w)) (readMeta w i)]> (metas w)
    /\ keeps_store w w'
    /\ tick w' = S (tick w)
    /\ locallog w' = locallog w ++ [(i, "compose", "state - " +:+ status_name st)]
    /\ events w' = events w ++
         [mkLogEvent SERVICE (match st with Finished => "info" | _ => "warn" end)
            "state_change"
            ("state - " +:+ status_name st
               +:+ (if nonempty msg then " (" +:+ msg +:+ ")" else ""))
            i user trace].
Proof.
  unfold finishAs. unfold_js. cbn. eexists; split; [reflexivity |]. cbn.
  unfold keeps_store; cbn. repeat split.
Qed.

#[local] Arguments finishAs : simpl never.
#[local] Arguments abortInstance : simpl never.
#[local] Arguments submitHitlAndHandle : simpl never.
#[local] Arguments markInstanceActive : simpl never.
#[local] Arguments mergeConfig : simpl never.
#[local] Arguments runFlow : simpl never.
#[local] Arguments handler : simpl never.

Lemma submitHitlAndHandle_replied (env : Env) (i : string) (user : jsval)
    (html : string) (cfg : jsval) (loop : Z) (trace : jsval) (abortOnFail : bool)
    (w : World) (statusCode : Z) (body : jsval) :
  let req := mkHitlReq i html (cfg ||| JObj []) (loop + 1) in
  hitl_agent env (review_sees i w) req = HitlReplied statusCode body ->
  exists w',
    submitHitlAndHandle env i user html cfg loop trace abortOnFail w
      = (Ok (mkHitlResult (hitl_accepted statusCode body) statusCode (hitl_error body)
                          (hitl_status body) (hitl_info body)), w')
    /\ calls w' = calls w ++ [CallHitl req]
    /\ drafts w' = drafts w /\ configs w' = configs w
    /\ metas w' = (if hitl_accepted statusCode body
                   then <[i := waiting (readMeta w i)]> (metas w)
                   else if abortOnFail
                        then <[i := stamp_terminal Abort (clock env (tick w)) (readMeta w i)]>
                               (metas w)
                        else metas w)
    /\ (hitl_accepted statusCode body = false -> abortOnFail = true ->
          In (i, "compose", submit_note statusCode body) (locallog w')).
Proof.
  intros req Ho. subst req. unfold review_sees in Ho.
  unfold submitHitlAndHandle. unfold_monad. cbn. rewrite Ho. cbn.
  destruct (hitl_accepted statusCode body) eqn:Hacc; cbn.
  - eexists. split; [reflexivity |]. cbn. repeat split; discriminate.
  - destruct abortOnFail; cbn.
    + match goal with |- context [abortInstance ?e ?i ?u ?t ?n ?w] =>
        destruct (abortInstance_spec e i u t n w)
          as (w2 & Hrun & Hm & (Hc & Hd & Hcf) & Ht & Hl & Hn & He)
      end.
      rewrite Hrun. cbn. eexists. split; [reflexivity |].
      rewrite Hc, Hd, Hcf, Hm. cbn. repeat split.
      intros _ _. apply Hn. reflexivity.
    + eexists. split; [reflexivity |]. cbn. repeat split. discriminate.
Qed.

Lemma submitHitlAndHandle_unreachable (env : Env) (i : string) (user : jsval)
    (html : string) (cfg : jsval) (loop : Z) (trace : jsval) (abortOnFail : bool)
    (w : World) (msg : string) :
  let req := mkHitlReq i html (cfg ||| JObj []) (loop + 1) in
  hitl_agent env (review_sees i w) req = HitlUnreachable msg ->
  exists w',
    submitHitlAndHandle env i user html cfg loop trace abortOnFail w = (Throw msg, w')
    /\ calls w' = calls w ++ [CallHitl req]
    /\ drafts w' = drafts w /\ configs w' = configs w /\ metas w' = metas w.
Proof.
  intros req Ho. subst req. unfold review_sees in Ho.
  unfold submitHitlAndHandle. unfold_monad. cbn. rewrite Ho. cbn.
  eexists. split; [reflexivity |]. cbn. repeat split.
Qed.

(** ** The review callback *)

Lemma handleHitlCallback_modes (env : Env) (b : CallbackBody) (w : World) (i : string) :
  cb_instance_id b = JStr i ->
  validateInstanceId (JStr i) = true ->
  exists tr w1,
    resolve_trace_id env (JStr (cb_trace_id b)) w = (tr, w1)
    /\ forall r w2,
         handler env b i (action_of b) (callback_user b) tr w1 = (r, w2) ->
         let h := handleHitlCallback env b w in
         metas (settle h) = metas w2
         /\ keeps_store w2 (settle h)
         /\ events (settle h) = events w2
         /\ (cb_async b = false -> task h = None /\ reply h = callback_reply r)
         /\ (cb_async b = true ->
               after h = w1
               /\ reply h = sendJson 202 (JObj [("status", JStr "accepted");
                                                ("instance_id", JStr i);
                                                ("trace_id", tr)])).
Proof.
  intros Hid Hvalid.
  destruct (resolve_trace_id env (JStr (cb_trace_id b)) w) as [tr w1] eqn:Htr.
  exists tr, w1. split; [reflexivity |]. intros r w2 Hrun h. subst h.
  unfold handleHitlCallback. rewrite Hid, Hvalid, Htr. cbn [negb].
  destruct (cb_async b); unfold settle, keeps_store; cbn.
  - unfold try_catch. rewrite Hrun. destruct r; cbn; repeat split; discriminate.
  - rewrite Hrun. destruct r; cbn; repeat split; discriminate.
Qed.

Lemma handler_approve_spec (env : Env) (b : CallbackBody) (i : string)
    (user tr : jsval) (w : World) :
  let m := mergeConfig w i (JObj []) in
  let req := mkEmailReq i user (readLatestEmailHtml w i)
               (subject m) (sender_email m) (sender_name m)
               (to m) (cc m) (bcc m) tr in
  exists W w' st (r : Res unit),
    metas W = metas w /\ keeps_store w W
    /\ handler env b i "approve" user tr w = (r, w')
    /\ calls w' = calls w ++ [CallEmail req]
    /\ drafts w' = drafts w /\ configs w' = configs w
    /\ metas w' = <[i := stamp_terminal st (clock env (tick w)) (readMeta w i)]> (metas w)
    /\ match email_agent env W req with
       | EmailReplied _ => st = Finished /\ r = Ok tt
       | EmailFailed msg =>
           st = Abort /\ r = Throw (err_text msg)
           /\ exists e, In e (events w')
                /\ l_message e = "state - abort (email send failed: " +:+ err_text msg +:+ ")"
       end.
Proof.
  intros m req. subst m req. unfold handler. cbn [String.eqb Ascii.eqb Bool.eqb].
  unfold_monad. cbn. norm_store w.
  match goal with |- context [email_agent env ?W0 _] => exists W0 end.
  destruct (email_agent env _ _) as [msg | receipt] eqn:Ho; cbn.
  - match goal with |- context [finishAs ?e ?i ?u ?t ?s ?m ?w] =>
      destruct (finishAs_spec e i u t s m w) as (w2 & Hrun & Hm & (Hc & Hd & Hcf) & Ht & Hl & He)
    end.
    rewrite Hrun. cbn. exists w2, Abort, (Throw (err_text msg)).
    rewrite Hc, Hd, Hcf, Hm. unfold keeps_store. cbn. repeat split.
    eexists. split; [rewrite He; apply in_app_iff; right; left; reflexivity |].
    cbn. reflexivity.
  - match goal with |- context [finishAs ?e ?i ?u ?t ?s ?m ?w] =>
      destruct (finishAs_spec e i u t s m w) as (w2 & Hrun & Hm & (Hc & Hd & Hcf) & Ht & Hl & He)
    end.
    rewrite Hrun. cbn. exists w2, Finished, (Ok tt).
    rewrite Hc, Hd, Hcf, Hm. unfold keeps_store. cbn. repeat split.
Qed.

Lemma next_gen_gen_of (w : World) (i : string) :
  next_gen (readMeta w i) = (gen_of w i + 1)%Z.
Proof.
  unfold next_gen, gen_of. destruct (gen_count (readMeta w i)) as [n |]; cbn; [| reflexivity].
  destruct (Z.eqb_spec n 0); subst; reflexivity.
Qed.

Lemma handler_modify_spec (env : Env) (b : CallbackBody) (i : string)
    (user tr : jsval) (w : World) :
  let m := mergeConfig w i (JObj []) in
  let g := (gen_of w i + 1)%Z in
  let newInstr := key_instruction (str_or (str_or (cb_instructions b) (cb_information b)) "") in
  let areq := mkAuthorReq i user (JStr newInstr) (JStr (readLatestEmailHtml w i))
                (subject m) tr in
  exists Wa w' (r : Res unit),
    status (readMeta Wa i) = Some Active
    /\ gen_count (readMeta Wa i) = Some g
    /\ keeps_store w Wa
    /\ handler env b i "modify" user tr w = (r, w')
    /\ configs w' = configs w
    /\ gen_count (readMeta w' i) = Some g
    /\ match author_agent env Wa areq with
       | AuthorFailed msg =>
           calls w' = calls w ++ [CallAuthor areq]
           /\ drafts w' = drafts w
           /\ status (readMeta w' i) = Some Abort
           /\ r = Throw msg
       | AuthorReplied html =>
           let hreq := mkHitlReq i html
                         (hitl_config (loadInstanceConfig w i ||| JObj []) ||| JObj [])
                         (g - 1 + 1) in
           exists Wh,
             metas Wh = metas Wa
             /\ calls Wh = calls w ++ [CallAuthor areq]
             /\ drafts Wh = <[i := html]> (drafts w)
             /\ configs Wh = configs w
             /\ calls w' = calls w ++ [CallAuthor areq; CallHitl hreq]
             /\ drafts w' = <[i := html]> (drafts w)
             /\ match hitl_agent env Wh hreq with
                | HitlUnreachable msg =>
                    status (readMeta w' i) = Some Abort /\ r = Throw msg
                | HitlReplied statusCode body =>
                    if hitl_accepted statusCode body
                    then status (readMeta w' i) = Some Wait /\ r = Ok tt
                    else status (readMeta w' i) = Some Abort /\ exists msg, r = Throw msg
                end
       end.
Proof.
  intros m g newInstr areq. subst m g newInstr areq.
  unfold handler. cbn [String.eqb Ascii.eqb Bool.eqb].
  unfold_monad. unfold regenerating. cbn. norm_store w. fold (readMeta w i).
  rewrite !next_gen_gen_of. cbn.
  match goal with |- context [author_agent env ?W0 _] => exists W0 end.
  destruct (author_agent env _ _) as [msg | html] eqn:Ha; cbn.
  - match goal with |- context [finishAs ?e ?i ?u ?t ?s ?m ?w] =>
      destruct (finishAs_spec e i u t s m w)
        as (w2 & Hrun & Hm & (Hc & Hd & Hcf) & _)
    end.
    rewrite Hrun. cbn. exists w2, (Throw msg). split_all; chase; reflexivity.
  - match goal with |- context [submitHitlAndHandle ?e ?i ?u ?h ?c ?l ?t ?a ?w0] =>
      set (W := w0); set (cfg := c)
    end.
    destruct (hitl_agent env (review_sees i W)
                (mkHitlReq i html (cfg ||| JObj []) (gen_of w i + 1 - 1 + 1)))
      as [msg | statusCode body] eqn:Hh.
    + destruct (submitHitlAndHandle_unreachable env i user html cfg (gen_of w i + 1 - 1)
                  tr false W msg Hh) as (w2 & Hrun & Hc & Hd & Hcf & Hm).
      rewrite Hrun. cbn.
      destruct (finishAs_spec env i user tr Abort ("modify failed: " +:+ err_text msg) w2)
        as (w3 & Hrun3 & Hm3 & (Hc3 & Hd3 & Hcf3) & _).
      rewrite Hrun3. cbn. exists w3, (Throw msg).
      split_all; try (subst W; chase; reflexivity).
      exists (review_sees i W). fold cfg. rewrite Hh.
      split_all; subst W; chase; rewrite <- ?app_assoc; reflexivity.
    + destruct (submitHitlAndHandle_replied env i user html cfg (gen_of w i + 1 - 1)
                  tr false W statusCode body Hh) as (w2 & Hrun & Hc & Hd & Hcf & Hm & _).
      rewrite Hrun. cbn. destruct (hitl_accepted statusCode body) eqn:Hacc; cbn.
      * exists w2, (Ok tt).
        split_all; try (subst W; chase; reflexivity).
        exists (review_sees i W). fold cfg. rewrite Hh, Hacc.
        split_all; subst W; chase; rewrite <- ?app_assoc; reflexivity.
      * match goal with |- context [abortInstance ?e ?i ?u ?t ?n ?w0] =>
          destruct (abortInstance_spec e i u t n w0)
            as (w3 & Hrun3 & Hm3 & (Hc3 & Hd3 & Hcf3) & _)
        end.
        rewrite Hrun3. cbn.
        match goal with |- context [finishAs ?e ?i ?u ?t ?s ?m ?w0] =>
          destruct (finishAs_spec e i u t s m w0)
            as (w4 & Hrun4 & Hm4 & (Hc4 & Hd4 & Hcf4) & _)
        end.
        rewrite Hrun4. cbn. eexists w4, _.
        split_all; try (subst W; chase; reflexivity).
        exists (review_sees i W). fold cfg. rewrite Hh, Hacc.
        split_all; try (subst W; chase; rewrite <- ?app_assoc; reflexivity).
        eexists. reflexivity.
Qed.

(** ** The new send *)

#[local] Arguments launch : simpl never.

Lemma markInstanceActive_spec (env : Env) (i : string) (user : jsval) (w : World) :
  exists w' m,
    markInstanceActive env i user w = (Ok tt, w')
    /\ metas w' = <[i := m]> (metas w)
    /\ keeps_store w w'
    /\ status m = Some Active
    /\ gen_count m = gen_count (readMeta w i)
    /\ finished_at m = finished_at (readMeta w i)
    /\ (forall e, In e (events w) -> In e (events w')).
Proof.
  unfold markInstanceActive. unfold_monad. unfold now. cbn.
  destruct (falsy_time _); cbn; case_ifs;
    (eexists _, _; split; [reflexivity |]; cbn; unfold keeps_store; cbn; repeat split; auto).
Qed.

Lemma launch_spec (env : Env) (i : string) (user tr : jsval) (w : World) :
  exists w' m,
    launch env i user tr w = (Ok tt, w')
    /\ metas w' = <[i := m]> (metas w)
    /\ keeps_store w w'
    /\ status m = Some Active
    /\ gen_count m = gen_count (readMeta w i)
    /\ finished_at m = finished_at (readMeta w i).
Proof.
  unfold launch. unfold_monad. cbn.
  match goal with |- context [markInstanceActive ?e ?i ?u ?w0] =>
    destruct (markInstanceActive_spec e i u w0)
      as (w2 & m & Hrun & Hm & (Hc & Hd & Hcf) & Hst & Hg & Hf & _)
  end.
  rewrite Hrun. cbn. eexists _, m. split; [reflexivity |].
  unfold keeps_store. cbn. rewrite Hm, Hc, Hd, Hcf. repeat split; assumption.
Qed.

Lemma runFlow_spec (env : Env) (i : string) (user instr base : jsval)
    (merged : Merged) (tr : jsval) (w : World) :
  let g := (gen_of w i + 1)%Z in
  let areq := mkAuthorReq i user instr base (subject merged) tr in
  exists Wa w' (r : Res jsval),
    status (readMeta Wa i) = status (readMeta w i)
    /\ gen_count (readMeta Wa i) = Some g
    /\ keeps_store w Wa
    /\ runFlow env i user instr base merged tr w = (r, w')
    /\ configs w' = configs w
    /\ gen_count (readMeta w' i) = Some g
    /\ match author_agent env Wa areq with
       | AuthorFailed msg =>
           calls w' = calls w ++ [CallAuthor areq]
           /\ drafts w' = drafts w
           /\ status (readMeta w' i) = status (readMeta w i)
           /\ finished_at (readMeta w' i) = finished_at (readMeta w i)
           /\ r = Throw msg
       | AuthorReplied html =>
           let hreq := mkHitlReq i html
                         (hitl_config (loadInstanceConfig w i ||| JObj []) ||| JObj [])
                         ((if (g =? 0)%Z then 0 else g - 1) + 1)%Z in
           exists Wh,
             metas Wh = metas Wa
             /\ calls Wh = calls w ++ [CallAuthor areq]
             /\ drafts Wh = <[i := html]> (drafts w)
             /\ configs Wh = configs w
             /\ calls w' = calls w ++ [CallAuthor areq; CallHitl hreq]
             /\ drafts w' = <[i := html]> (drafts w)
             /\ match hitl_agent env Wh hreq with
                | HitlUnreachable msg =>
                    status (readMeta w' i) = status (readMeta w i)
                    /\ finished_at (readMeta w' i) = finished_at (readMeta w i)
                    /\ r = Throw msg
                | HitlReplied statusCode body =>
                    if hitl_accepted statusCode body
                    then status (readMeta w' i) = Some Wait
                         /\ r = Ok (flow_result i tr html)
                    else status (readMeta w' i) = Some Abort
                         /\ In (i, "compose", submit_note statusCode body) (locallog w')
                         /\ r = Ok (flow_declined statusCode body)
                end
       end.
Proof.
  intros g areq. subst g areq. unfold runFlow. unfold_monad. cbn. norm_store w.
  unfold loop_index. cbn. fold (readMeta w i). rewrite !next_gen_gen_of.
  match goal with |- context [author_agent env ?W0 _] => exists W0 end.
  destruct (author_agent env _ _) as [msg | html] eqn:Ha; cbn.
  - eexists _, _. split_all; [ | | | | | reflexivity | .. ]; chase; reflexivity.
  - match goal with |- context [submitHitlAndHandle ?e ?i ?u ?h ?c ?l ?t ?a ?w0] =>
      set (W := w0); set (cfg := c)
    end.
    destruct (hitl_agent env (review_sees i W)
                (mkHitlReq i html (cfg ||| JObj [])
                   ((if (gen_of w i + 1 =? 0)%Z then 0 else gen_of w i + 1 - 1) + 1)%Z))
      as [msg | statusCode body] eqn:Hh.
    + destruct (submitHitlAndHandle_unreachable env i user html cfg
                  (if (gen_of w i + 1 =? 0)%Z then 0 else gen_of w i + 1 - 1)%Z tr true W msg Hh)
        as (w2 & Hrun & Hc & Hd & Hcf & Hm).
      rewrite Hrun. cbn. eexists _, _.
      split_all; [ | | | | | reflexivity | .. ]; try (subst W; chase; reflexivity).
      exists (review_sees i W). fold cfg. rewrite Hh.
      split_all; (subst W; chase; rewrite <- ?app_assoc; reflexivity).
    + destruct (submitHitlAndHandle_replied env i user html cfg
                  (if (gen_of w i + 1 =? 0)%Z then 0 else gen_of w i + 1 - 1)%Z tr true W
                  statusCode body Hh)
        as (w2 & Hrun & Hc & Hd & Hcf & Hm & Hnote).
      rewrite Hrun. cbn. destruct (hitl_accepted statusCode body) eqn:Hacc; cbn.
      * eexists _, _.
        split_all; [ | | | | | reflexivity | .. ]; try (subst W; chase; reflexivity).
        exists (review_sees i W). fold cfg. rewrite Hh, Hacc.
        split_all; (subst W; chase; rewrite <- ?app_assoc; reflexivity).
      * eexists _, _.
        split_all; [ | | | | | reflexivity | .. ]; try (subst W; chase; reflexivity).
        exists (review_sees i W). fold cfg. rewrite Hh, Hacc.
        split_all; try (subst W; chase; rewrite <- ?app_assoc; reflexivity).
        now apply Hnote.
Qed.

#[local] Arguments send_target : simpl never.

Lemma send_target_spec (env : Env) (p : jsval) (w : World) :
  exists i tr w3,
    send_target env p w = (i, tr, w3)
    /\ metas w3 = metas w /\ keeps_store w w3
    /\ events w3 = events w /\ locallog w3 = locallog w.
Proof.
  unfold send_target.
  destruct (resolve_instance_id env (js_get p "instance_id") w) as [i w1] eqn:Hi.
  assert (H1 : metas w1 = metas w /\ keeps_store w w1
               /\ events w1 = events w /\ locallog w1 = locallog w).
  { unfold resolve_instance_id, generateInstanceId in Hi.
    destruct (js_get p "instance_id"); try destruct (validateInstanceId _);
      inversion Hi; subst; unfold keeps_store; cbn; repeat split. }
  destruct H1 as (Hm1 & (Hc1 & Hd1 & Hcf1) & He1 & Hl1).
  destruct (resolve_trace_id_spec env (js_get p "trace_id") w1)
    as (tr & w2 & -> & Hm2 & (Hc2 & Hd2 & Hcf2) & He2 & Hl2 & _).
  exists i, tr, (add_dir i w2). split; [reflexivity |].
  unfold keeps_store. cbn. rewrite Hm2, Hc2, Hd2, Hcf2, He2, Hl2. repeat split; assumption.
Qed.

Lemma handleComposeSend_modes (env : Env) (payload : jsval) (w : World)
    (i : string) (tr : jsval) (w3 w4 : World) :
  let p := payload ||| JObj [] in
  let merged := mergeConfig w i p in
  js_truthy (js_get p "username") = true ->
  js_truthy (js_get p "instructions") || js_truthy (base_html_of p) = true ->
  send_target env p w = (i, tr, w3) ->
  js_truthy (subject merged) = true ->
  requireRecipients (to merged) (cc merged) (bcc merged) <> None ->
  launch env i (js_get p "username") tr w3 = (Ok tt, w4) ->
  forall r w5,
    runFlow env i (js_get p "username") (js_get p "instructions") (base_html_of p)
      merged tr w4 = (r, w5) ->
    let h := handleComposeSend env payload w in
    metas (settle h) = metas w5
    /\ keeps_store w5 (settle h)
    /\ locallog (settle h) = locallog w5
    /\ (js_get payload "async" <> JBool true -> task h = None /\ reply h = send_reply i tr r)
    /\ (js_get payload "async" = JBool true ->
          after h = w4 /\ reply h = acknowledgment (JStr i) tr).
Proof.
  intros p merged Huser Hinstr Htarget Hsubj Hrcpt Hlaunch r w5 Hflow h.
  subst h. unfold handleComposeSend. fold p. rewrite Huser. cbn [negb].
  apply orb_true_iff in Hinstr.
  assert (Hno : negb (js_truthy (js_get p "instructions")) && negb (js_truthy (base_html_of p))
                = false).
  { destruct Hinstr as [-> | ->]; cbn; [reflexivity | apply andb_false_r]. }
  rewrite Hno, Htarget.
  destruct (send_target_spec env p w) as (i' & tr' & w3' & Ht' & Hm3 & (Hc3 & Hd3 & Hcf3) & _).
  rewrite Htarget in Ht'. inversion Ht'; subst i' tr' w3'. clear Ht'.
  rewrite (mergeConfig_configs w w3) by exact Hcf3. fold merged.
  rewrite Hsubj. cbn [negb].
  destruct (requireRecipients (to merged) (cc merged) (bcc merged)) as [rc |]; [| congruence].
  rewrite Hlaunch. cbn [snd].
  destruct (js_get payload "async") as [| | [|] | | | |] eqn:Hasync;
    unfold settle, keeps_store; cbn; unfold try_catch, bind;
    rewrite Hflow; destruct r; cbn; repeat split; congruence.
Qed.

Lemma handleComposeSend_rejects (env : Env) (payload : jsval) (w : World) (reason : string) :
  validation_error env payload w = Some reason ->
  exists w',
    handleComposeSend env payload w = mkHandled (sendJson 400 (error_body reason)) w' None
    /\ metas w' = metas w /\ keeps_store w w'
    /\ events w' = events w /\ locallog w' = locallog w.
Proof.
  unfold validation_error, handleComposeSend.
  set (p := payload ||| JObj []).
  destruct (negb (js_truthy (js_get p "username"))).
  { intros [= <-]. exists w. unfold keeps_store. repeat split. }
  destruct (negb (js_truthy (js_get p "instructions")) && negb (js_truthy (base_html_of p))).
  { intros [= <-]. exists w. unfold keeps_store. repeat split. }
  destruct (send_target_spec env p w) as (i & tr & w3 & -> & Hm3 & Hk3 & He3 & Hl3).
  rewrite (mergeConfig_configs w w3) by apply Hk3.
  destruct (negb (js_truthy (subject (mergeConfig w i p)))).
  { intros [= <-]. exists w3. repeat split; try assumption; apply Hk3. }
  destruct (requireRecipients _ _ _); [discriminate |].
  intros [= <-]. exists w3. repeat split; try assumption; apply Hk3.
Qed.

Lemma validation_error_None (env : Env) (payload : jsval) (w : World) :
  validation_error env payload w = None ->
  let p := payload ||| JObj [] in
  exists i tr w3,
    send_target env p w = (i, tr, w3)
    /\ js_truthy (js_get p "username") = true
    /\ js_truthy (js_get p "instructions") || js_truthy (base_html_of p) = true
    /\ js_truthy (subject (mergeConfig w i p)) = true
    /\ requireRecipients (to (mergeConfig w i p)) (cc (mergeConfig w i p))
         (bcc (mergeConfig w i p)) <> None.
Proof.
  unfold validation_error. cbn zeta. set (p := payload ||| JObj []).
  destruct (js_truthy (js_get p "username")); [| discriminate]. cbn [negb].
  destruct (js_truthy (js_get p "instructions")), (js_truthy (base_html_of p));
    cbn [negb andb]; try discriminate;
    (destruct (send_target env p w) as [[i tr] w3];
     destruct (js_truthy (subject (mergeConfig w i p))) eqn:Hs; cbn [negb]; [| discriminate];
     destruct (requireRecipients _ _ _) eqn:Hr; [| discriminate];
     intros _; exists i, tr, w3; repeat split; try reflexivity; congruence).
Qed.

Lemma js_get_or_empty (p : jsval) (k : string) : js_get (p ||| JObj []) k = js_get p k.
Proof. unfold js_or. destruct (js_truthy p) eqn:Hp; [reflexivity |]. now destruct p. Qed.

Lemma same_request_or_empty (p p' : jsval) :
  same_request p p' -> same_request (p ||| JObj []) (p' ||| JObj []).
Proof. intros H k Hk. rewrite !js_get_or_empty. now apply H. Qed.

Lemma mergeConfig_same_request (w : World) (i : string) (p p' : jsval) :
  same_request p p' -> mergeConfig w i p = mergeConfig w i p'.
Proof.
  intros H. unfold mergeConfig.
  rewrite (H "subject"), (H "to"), (H "cc"), (H "bcc"), (H "sender_email"),
    (H "sender_name") by discriminate.
  reflexivity.
Qed.

Lemma base_html_same_request (p p' : jsval) :
  same_request p p' -> base_html_of p = base_html_of p'.
Proof. intros H. unfold base_html_of. now rewrite (H "regen_base_html") by discriminate. Qed.

Lemma send_target_same_request (env : Env) (w : World) (p p' : jsval) :
  same_request p p' -> send_target env p w = send_target env p' w.
Proof.
  intros H. unfold send_target.
  now rewrite (H "instance_id"), (H "trace_id") by discriminate.
Qed.

Lemma validation_error_same_request (env : Env) (w : World) (p p' : jsval) :
  same_request p p' -> validation_error env p w = validation_error env p' w.
Proof.
  intros H. apply same_request_or_empty in H. unfold validation_error.
  rewrite (H "username"), (H "instructions") by discriminate.
  rewrite (base_html_same_request _ _ H), (send_target_same_request env w _ _ H).
  destruct (send_target env _ w) as [[i tr] w3].
  now rewrite (mergeConfig_same_request w i _ _ H).
Qed.

(** A valid send, in either mode, once the event loop is idle. *)
Lemma send_settles (env : Env) (payload : jsval) (w : World) :
  validation_error env payload w = None ->
  let p := payload ||| JObj [] in
  let h := handleComposeSend env payload w in
  exists i tr w3 w4 m (r : Res jsval) w5,
    send_target env p w = (i, tr, w3)
    /\ launch env i (js_get p "username") tr w3 = (Ok tt, w4)
    /\ metas w4 = <[i := m]> (metas w) /\ keeps_store w w4
    /\ status m = Some Active
    /\ gen_count m = gen_count (readMeta w i)
    /\ finished_at m = finished_at (readMeta w i)
    /\ runFlow env i (js_get p "username") (js_get p "instructions") (base_html_of p)
         (mergeConfig w i p) tr w4 = (r, w5)
    /\ metas (settle h) = metas w5
    /\ keeps_store w5 (settle h)
    /\ locallog (settle h) = locallog w5
    /\ (js_get payload "async" <> JBool true -> task h = None /\ reply h = send_reply i tr r)
    /\ (js_get payload "async" = JBool true -> reply h = acknowledgment (JStr i) tr).
Proof.
  intros Hvalid p h.
  destruct (validation_error_None env payload w Hvalid)
    as (i & tr & w3 & Htarget & Huser & Hinstr & Hsubj & Hrcpt). fold p in Htarget, Huser, Hinstr, Hsubj, Hrcpt.
  destruct (send_target_spec env p w)
    as (i' & tr' & w3' & Ht' & Hm3 & (Hc3 & Hd3 & Hcf3) & _).
  rewrite Htarget in Ht'. inversion Ht'; subst i' tr' w3'. clear Ht'.
  destruct (launch_spec env i (js_get p "username") tr w3)
    as (w4 & m & Hlaunch & Hm4 & (Hc4 & Hd4 & Hcf4) & Hst & Hg & Hf).
  destruct (runFlow env i (js_get p "username") (js_get p "instructions") (base_html_of p)
              (mergeConfig w i p) tr w4) as [r w5] eqn:Hflow.
  destruct (handleComposeSend_modes env payload w i tr w3 w4 Huser Hinstr Htarget Hsubj Hrcpt
              Hlaunch r w5 Hflow) as (Hms & Hks & Hls & Hsync & Hasync).
  exists i, tr, w3, w4, m, r, w5. unfold keeps_store, readMeta in *.
  rewrite Hm4, Hc4, Hd4, Hcf4, Hm3, Hc3, Hd3, Hcf3. rewrite Hm3 in Hg, Hf.
  repeat match goal with |- _ /\ _ => split end;
    try assumption; try apply Hks; try reflexivity.
  intros Ha. now destruct (Hasync Ha).
Qed.

Lemma truthy_base_html (p : jsval) :
  js_truthy (base_html_of p) = js_truthy (js_get p "regen_base_html").
Proof. unfold base_html_of. now destruct (js_get p "regen_base_html"). Qed.

Lemma filter_truthy_nil (v : jsval) :
  filter_truthy v = []
  <-> forall items x, v = JArr items -> In x items -> js_truthy x = false.
Proof.
  destruct v; cbn; try (split; [intros _ ? ? ?; discriminate | reflexivity]).
  split.
  - intros Hnil its x [= <-] Hin.
    destruct (js_truthy x) eqn:Hx; [| reflexivity].
    assert (Hf : In x (List.filter js_truthy items)) by (apply List.filter_In; now split).
    rewrite Hnil in Hf. destruct Hf.
  - intros H. induction items as [| a l IH]; [reflexivity |]. cbn.
    rewrite (H (a :: l) a eq_refl (or_introl eq_refl)).
    apply IH. intros its x [= <-] Hin. apply (H (a :: l) x eq_refl). now right.
Qed.

Lemma requireRecipients_None (m : Merged) :
  requireRecipients (to m) (cc m) (bcc m) = None <-> lacks_recipient m.
Proof.
  unfold requireRecipients, lacks_recipient. split.
  - intros H field items x Hin Heq Hx.
    destruct (filter_truthy (to m)) eqn:Ht; [| discriminate].
    destruct (filter_truthy (cc m)) eqn:Hc; [| discriminate].
    destruct (filter_truthy (bcc m)) eqn:Hb; [| discriminate].
    destruct Hin as [<- | [<- | [<- | []]]].
    + exact (proj1 (filter_truthy_nil _) Ht items x Heq Hx).
    + exact (proj1 (filter_truthy_nil _) Hc items x Heq Hx).
    + exact (proj1 (filter_truthy_nil _) Hb items x Heq Hx).
  - intros H.
    assert (Ht : filter_truthy (to m) = []).
    { apply filter_truthy_nil. intros its x Heq. apply (H (to m)); cbn; auto. }
    assert (Hc : filter_truthy (cc m) = []).
    { apply filter_truthy_nil. intros its x Heq. apply (H (cc m)); cbn; auto. }
    assert (Hb : filter_truthy (bcc m) = []).
    { apply filter_truthy_nil. intros its x Heq. apply (H (bcc m)); cbn; auto. }
    now rewrite Ht, Hc, Hb.
Qed.


(** ** The review outcome *)








(** ** Approve *)

(** An approve callback, in either mode, once the event loop is idle. *)
Lemma approve_settles (env : Env) (b : CallbackBody) (w : World) (i : string) :
  cb_instance_id b = JStr i ->
  validateInstanceId (JStr i) = true ->
  action_of b = "approve" ->
  let h := handleHitlCallback env b w in
  let w' := settle h in
  let m := mergeConfig w i (JObj []) in
  exists trace W st (r : Res unit),
    let req := mkEmailReq i (callback_user b) (readLatestEmailHtml w i)
                 (subject m) (sender_email m) (sender_name m)
                 (to m) (cc m) (bcc m) trace in
    metas W = metas w /\ keeps_store w W
    /\ calls w' = calls w ++ [CallEmail req]
    /\ status_of w' i = Some st
    /\ (cb_async b = false -> reply h = callback_reply r)
    /\ match email_agent env W req with
       | EmailReplied _ => st = Finished /\ r = Ok tt
       | EmailFailed msg =>
           st = Abort /\ r = Throw (err_text msg)
           /\ exists e, In e (events w')
                /\ l_message e = "state - abort (email send failed: " +:+ err_text msg +:+ ")"
       end.
Proof.
  intros Hid Hvalid Hact h w' m.
  destruct (handleHitlCallback_modes env b w i Hid Hvalid) as (tr & w1 & Htr & Hmodes).
  destruct (resolve_trace_id_spec env (JStr (cb_trace_id b)) w)
    as (tr' & w1' & Htr' & Hm1 & (Hc1 & Hd1 & Hcf1) & He1 & Hl1 & Hdir1 & Ht1).
  rewrite Htr in Htr'. inversion Htr'; subst tr' w1'. clear Htr'.
  rewrite Hact in Hmodes.
  destruct (handler_approve_spec env b i (callback_user b) tr w1)
    as (W & w2 & st & r & HmW & (HcW & HdW & HcfW) & Hrun & Hc2 & Hd2 & Hcf2 & Hm2 & Hout).
  specialize (Hmodes r w2 Hrun). cbn zeta in Hmodes. fold h in Hmodes. fold w' in Hmodes.
  destruct Hmodes as (Hms & (Hcs & Hds & Hcfs) & Hes & Hsync & Hasync).
  rewrite (mergeConfig_configs w w1) in Hc2, Hout by exact Hcf1.
  unfold readLatestEmailHtml in *. rewrite Hd1, Hc1 in *.
  exists tr, W, st, r. cbn zeta. fold m in Hc2, Hout.
  split; [now rewrite HmW |].
  split; [unfold keeps_store; now rewrite HcW, HdW, HcfW, Hcf1 |].
  split; [now rewrite Hcs |].
  split; [unfold status_of, readMeta; now rewrite Hms, Hm2, lookup_insert_eq |].
  split; [intros Hs; now destruct (Hsync Hs) |].
  destruct (email_agent env W _) as [msg | receipt]; [| exact Hout].
  destruct Hout as (Hst & Hr & e & Hin & Hmsg). repeat split; try assumption.
  exists e. rewrite Hes. now split.
Qed.

Lemma callback_reply_throw (msg : string) :
  callback_reply (Throw (err_text msg))
  = sendJson 400 (JObj [("error", JStr "hitl_callback_failed");
                        ("detail", JStr (err_text msg))]).
Proof.
  cbn. unfold err_text, str_or.
  destruct (nonempty msg) eqn:Hne; [now rewrite Hne | reflexivity].
Qed.

(** The approve branch reads the clock once, for the stamp. *)
Lemma handler_approve_tick (env : Env) (b : CallbackBody) (i : string)
    (user tr : jsval) (w : World) :
  tick (snd (handler env b i "approve" user tr w)) = S (tick w).
Proof.
  unfold handler. cbn [String.eqb Ascii.eqb Bool.eqb].
  unfold_monad. cbn.
  destruct (email_agent env _ _) as [msg | receipt]; cbn;
    match goal with |- context [finishAs ?e ?i ?u ?t ?s ?m ?w] =>
      destruct (finishAs_spec e i u t s m w) as (w2 & Hrun & _ & _ & Ht & _)
    end; rewrite Hrun; cbn; exact Ht.
Qed.

(** The clock as a callback leaves it, in either mode. *)
Lemma handleHitlCallback_tick (env : Env) (b : CallbackBody) (w : World) (i : string) :
  cb_instance_id b = JStr i ->
  validateInstanceId (JStr i) = true ->
  forall tr w1 r w2,
    resolve_trace_id env (JStr (cb_trace_id b)) w = (tr, w1) ->
    handler env b i (action_of b) (callback_user b) tr w1 = (r, w2) ->
    tick (settle (handleHitlCallback env b w)) = tick w2.
Proof.
  intros Hid Hvalid tr w1 r w2 Htr Hrun.
  unfold handleHitlCallback. rewrite Hid, Hvalid, Htr. cbn [negb].
  destruct (cb_async b); unfold settle; cbn.
  - unfold try_catch. rewrite Hrun. destruct r; reflexivity.
  - rewrite Hrun. destruct r; reflexivity.
Qed.

(** An approve callback, in either mode, once the event loop is idle: the
    one delivery request, made in a world [W] whose store is the one the
    callback found, and the record stamped at a time the callback read. *)
Lemma approve_run (env : Env) (b : CallbackBody) (w : World) (i : string) :
  cb_instance_id b = JStr i ->
  validateInstanceId (JStr i) = true ->
  action_of b = "approve" ->
  let h := handleHitlCallback env b w in
  let w' := settle h in
  let m := mergeConfig w i (JObj []) in
  exists trace W (n : nat) st (r : Res unit),
    let req := mkEmailReq i (callback_user b) (readLatestEmailHtml w i)
                 (subject m) (sender_email m) (sender_name m)
                 (to m) (cc m) (bcc m) trace in
    (tick w <= n < tick w')%nat
    /\ metas W = metas w /\ keeps_store w W
    /\ calls w' = calls w ++ [CallEmail req]
    /\ readMeta w' i = stamp_terminal st (clock env n) (readMeta w i)
    /\ (cb_async b = false -> reply h = callback_reply r)
    /\ match email_agent env W req with
       | EmailReplied _ => st = Finished /\ r = Ok tt
       | EmailFailed msg =>
           st = Abort /\ r = Throw (err_text msg)
           /\ exists e, In e (events w')
                /\ l_message e = "state - abort (email send failed: " +:+ err_text msg +:+ ")"
       end.
Proof.
  intros Hid Hvalid Hact h w' m.
  destruct (handleHitlCallback_modes env b w i Hid Hvalid) as (tr & w1 & Htr & Hmodes).
  destruct (resolve_trace_id_spec env (JStr (cb_trace_id b)) w)
    as (tr' & w1' & Htr' & Hm1 & (Hc1 & Hd1 & Hcf1) & He1 & Hl1 & Hdir1 & Ht1).
  rewrite Htr in Htr'. inversion Htr'; subst tr' w1'. clear Htr'.
  pose proof (handleHitlCallback_tick env b w i Hid Hvalid tr w1) as Htick.
  rewrite Hact in Hmodes, Htick.
  pose proof (handler_approve_tick env b i (callback_user b) tr w1) as Hone.
  destruct (handler_approve_spec env b i (callback_user b) tr w1)
    as (W & w2 & st & r & HmW & (HcW & HdW & HcfW) & Hrun & Hc2 & Hd2 & Hcf2 & Hm2 & Hout).
  specialize (Hmodes r w2 Hrun). specialize (Htick r w2 Htr Hrun).
  rewrite Hrun in Hone. cbn [snd] in Hone.
  cbn zeta in Hmodes. fold h in Hmodes, Htick. fold w' in Hmodes, Htick.
  destruct Hmodes as (Hms & (Hcs & Hds & Hcfs) & Hes & Hsync & Hasync).
  rewrite (mergeConfig_configs w w1) in Hc2, Hout by exact Hcf1.
  unfold readLatestEmailHtml in *. rewrite Hd1, Hc1 in *.
  exists tr, W, (tick w1), st, r. cbn zeta. fold m in Hc2, Hout.
  split; [lia |].
  split; [now rewrite HmW |].
  split; [unfold keeps_store; now rewrite HcW, HdW, HcfW, Hcf1 |].
  split; [now rewrite Hcs |].
  split; [unfold readMeta at 1; rewrite Hms, Hm2, lookup_insert_eq; cbn; unfold readMeta; now rewrite Hm1 |].
  split; [intros Hs; now destruct (Hsync Hs) |].
  destruct (email_agent env W _) as [msg | receipt]; [| exact Hout].
  destruct Hout as (Hst & Hr & e & Hin & Hmsg). repeat split; try assumption.
  exists e. rewrite Hes. now split.
Qed.




(** The handler has no guard on the current status: an approve that reaches
    an instance already finished calls the delivery collaborator again and
    answers 200. *)
Lemma approve_twice_delivers_twice :
  let first := handleHitlCallback env_ok (callback "r0-r1" "approve" "") world_waiting in
  let second := handleHitlCallback env_ok (callback "r0-r1" "approve" "") (settle first) in
  status_of (settle first) "r0-r1" = Some Finished
  /\ List.length (List.filter is_email_call (calls (settle first))) = 1%nat
  /\ List.length (List.filter is_email_call (calls (settle second))) = 2%nat
  /\ code (reply second) = 200%Z.
Proof. vm_compute. repeat split. Qed.

Lemma email_calls_snoc (l : list Call) (req : EmailReq) :
  List.length (List.filter is_email_call (l ++ [CallEmail req]))
  = S (List.length (List.filter is_email_call l)).
Proof. rewrite List.filter_app, List.length_app. cbn. lia. Qed.

(** C5, as the code has it. An approve callback for an instance that is
    already finished is handled like any other approve: the delivery
    collaborator is invoked once more, with the draft on disk. When that
    delivery succeeds the record is stamped finished again, at a time read
    by this callback, and a synchronous caller is answered 200; when it
    fails the record is stamped abort and a synchronous caller is answered
    400 with the error. *)
Theorem approve_after_finished_delivers_again (env : Env) (b : CallbackBody)
    (w : World) (i : string) :
  cb_instance_id b = JStr i ->
  validateInstanceId (JStr i) = true ->
  action_of b = "approve" ->
  status_of w i = Some Finished ->
  let h := handleHitlCallback env b w in
  let w' := settle h in
  exists (req : EmailReq) (W : World) (n : nat),
    (tick w <= n < tick w')%nat
    /\ metas W = metas w /\ keeps_store w W
    /\ e_instance_id req = i
    /\ e_html req = default "" (drafts w !! i)
    /\ calls w' = calls w ++ [CallEmail req]
    /\ List.length (List.filter is_email_call (calls w'))
       = S (List.length (List.filter is_email_call (calls w)))
    /\ (forall receipt, email_agent env W req = EmailReplied receipt ->
          readMeta w' i = stamp_terminal Finished (clock env n) (readMeta w i)
          /\ status_of w' i = Some Finished
          /\ finished_at (readMeta w' i) = Some (clock env n)
          /\ (cb_async b = false ->
                reply h = sendJson 200 (JObj [("ok", JBool true)])))
    /\ (forall msg, email_agent env W req = EmailFailed msg ->
          readMeta w' i = stamp_terminal Abort (clock env n) (readMeta w i)
          /\ status_of w' i = Some Abort
          /\ finished_at (readMeta w' i) = Some (clock env n)
          /\ (cb_async b = false ->
                reply h = sendJson 400 (JObj [("error", JStr "hitl_callback_failed");
                                              ("detail", JStr (err_text msg))]))).
Proof.
  intros Hid Hvalid Hact _ h w'.
  destruct (approve_run env b w i Hid Hvalid Hact)
    as (tr & W & n & st & r & Hn & HmW & HkW & Hcalls & Hmeta & Hsync & Hout).
  fold h in Hn, Hcalls, Hmeta, Hsync, Hout. fold w' in Hn, Hcalls, Hmeta, Hout.
  set (m := mergeConfig w i (JObj [])) in *.
  exists (mkEmailReq i (callback_user b) (readLatestEmailHtml w i)
            (subject m) (sender_email m) (sender_name m) (to m) (cc m) (bcc m) tr), W, n.
  split; [exact Hn |]. split; [exact HmW |]. split; [exact HkW |].
  split; [reflexivity |]. split; [reflexivity |]. split; [exact Hcalls |].
  split; [rewrite Hcalls; apply email_calls_snoc |].
  unfold status_of. rewrite Hmeta.
  destruct (email_agent env W _) as [msg | receipt] eqn:Ho.
  - destruct Hout as (-> & -> & _). split; [discriminate |].
    intros msg' [= <-]. repeat split.
    intros Hs. rewrite (Hsync Hs). apply callback_reply_throw.
  - destruct Hout as (-> & ->). split; [| discriminate].
    intros _ _. repeat split. intros Hs. now rewrite (Hsync Hs).
Qed.

(** The finished instance of the scenario is approved a second time: one
    more delivery is made, the instance is finished again, and
    [finished_at] is no longer the time of the first approval. *)
Lemma approve_after_finished_delivers_again_witness :
  let w := settle (handleHitlCallback env_ok (callback "r0-r1" "approve" "") world_waiting) in
  let h := handleHitlCallback env_ok (callback "r0-r1" "approve" "") w in
  List.length (List.filter is_email_call (calls (settle h)))
    = S (List.length (List.filter is_email_call (calls w)))
  /\ status_of (settle h) "r0-r1" = Some Finished
  /\ finished_at (readMeta (settle h) "r0-r1") <> finished_at (readMeta w "r0-r1")
  /\ code (reply h) = 200%Z.
Proof.
  intros w h.
  destruct (approve_after_finished_delivers_again env_ok (callback "r0-r1" "approve" "")
              w "r0-r1" eq_refl eq_refl eq_refl)
    as (req & W & n & Hn & _ & _ & _ & _ & _ & Hcount & Hok & _);
    [vm_compute; reflexivity |].
  fold h in Hn, Hcount, Hok.
  destruct (Hok (JObj [("id", JStr "msg-1")]) eq_refl) as (_ & Hst & Hfin & Hreply).
  split; [exact Hcount |]. split; [exact Hst |].
  split; [vm_compute; discriminate | now rewrite Hreply].
Defined.

(** ** Abort *)




(** ** Modify *)

(** The modify branch writes one record before it drafts: status active and
    the counter one higher. *)
Lemma regenerating_spec (prev : Meta) :
  status (regenerating prev) = Some Active
  /\ gen_count (regenerating prev) = Some (default 0%Z (gen_count prev) + 1)%Z.
Proof.
  split; [reflexivity |]. cbn. unfold next_gen.
  destruct (gen_count prev) as [n |]; cbn; [| reflexivity].
  destruct (Z.eqb_spec n 0); subst; reflexivity.
Qed.

(** Guidance with visible text is trimmed and put behind the marker. *)
Lemma key_instruction_wraps (guidance : string) :
  nonempty (trim guidance) = true ->
  key_instruction guidance = "[Key Instruction] " +:+ trim guidance.
Proof.
  intros Ht. unfold key_instruction. rewrite Ht.
  destruct guidance; [discriminate | reflexivity].
Qed.

(** C3. A review callback whose outcome is modify raises [gen_count] by
    exactly one and sets the status to active before it drafts: that is the
    record the drafting collaborator finds ([Wa] is the world it is called
    in). Guidance with text in it becomes the instruction
    ["[Key Instruction] " ++ guidance]; the drafting collaborator is called
    with that instruction and the latest drafted HTML as prior document; the
    review collaborator is then called, in a world [Wh] that holds the new
    draft, with loop index [gen_count - 1] (its request carries the index
    plus one). When the drafting call fails the instance ends in abort and
    no review request is made; when the review declines, or cannot be
    reached, the instance ends in abort; when it accepts, the instance
    waits. *)
Theorem modify_redrafts_and_resubmits (env : Env) (b : CallbackBody) (w : World)
    (i : string) :
  cb_instance_id b = JStr i ->
  validateInstanceId (JStr i) = true ->
  action_of b = "modify" ->
  let h := handleHitlCallback env b w in
  let w' := settle h in
  let m := mergeConfig w i (JObj []) in
  let guidance := str_or (str_or (cb_instructions b) (cb_information b)) "" in
  exists trace Wa,
    let areq := mkAuthorReq i (callback_user b) (JStr (key_instruction guidance))
                  (JStr (readLatestEmailHtml w i)) (subject m) trace in
    status_of Wa i = Some Active
    /\ gen_of Wa i = (gen_of w i + 1)%Z
    /\ keeps_store w Wa
    /\ gen_of w' i = (gen_of w i + 1)%Z
    /\ (nonempty (trim guidance) = true ->
          a_instructions areq = JStr ("[Key Instruction] " +:+ trim guidance))
    /\ match author_agent env Wa areq with
       | AuthorFailed _ =>
           calls w' = calls w ++ [CallAuthor areq]
           /\ status_of w' i = Some Abort
       | AuthorReplied html =>
           let hreq := mkHitlReq i html
                         (hitl_config (loadInstanceConfig w i ||| JObj []) ||| JObj [])
                         (gen_of w' i - 1 + 1) in
           exists Wh,
             calls Wh = calls w ++ [CallAuthor areq]
             /\ readLatestEmailHtml Wh i = html
             /\ calls w' = calls w ++ [CallAuthor areq; CallHitl hreq]
             /\ match hitl_agent env Wh hreq with
                | HitlUnreachable _ => status_of w' i = Some Abort
                | HitlReplied statusCode body =>
                    status_of w' i
                    = Some (if hitl_accepted statusCode body then Wait else Abort)
                end
       end.
Proof.
  intros Hid Hvalid Hact h w' m guidance.
  destruct (handleHitlCallback_modes env b w i Hid Hvalid) as (tr & w1 & Htr & Hmodes).
  destruct (resolve_trace_id_spec env (JStr (cb_trace_id b)) w)
    as (tr' & w1' & Htr' & Hm1 & (Hc1 & Hd1 & Hcf1) & _).
  rewrite Htr in Htr'. inversion Htr'; subst tr' w1'. clear Htr'.
  rewrite Hact in Hmodes.
  destruct (handler_modify_spec env b i (callback_user b) tr w1)
    as (Wa & w2 & r & HstA & HgA & (HcA & HdA & HcfA) & Hrun & Hcf2 & Hg2 & Hout).
  destruct (Hmodes r w2 Hrun) as (Hms & (Hcs & Hds & Hcfs) & _).
  fold h in Hms, Hcs. fold w' in Hms, Hcs.
  assert (Hgen1 : gen_of w1 i = gen_of w i) by (unfold gen_of, readMeta; now rewrite Hm1).
  assert (Hmeta : readMeta w' i = readMeta w2 i) by (unfold readMeta; now rewrite Hms).
  assert (Hgen : gen_of w' i = (gen_of w i + 1)%Z).
  { unfold gen_of at 1. rewrite Hmeta, Hg2, Hgen1. reflexivity. }
  rewrite (mergeConfig_configs w w1) in Hout by exact Hcf1.
  unfold loadInstanceConfig, readLatestEmailHtml in *.
  rewrite Hgen1, Hd1, Hc1, Hcf1 in Hout. rewrite Hgen1 in HgA.
  exists tr, Wa. cbn zeta. fold m guidance in Hout |- *. unfold status_of.
  rewrite Hgen, Hmeta, Hcs.
  split; [exact HstA |].
  split; [unfold gen_of; now rewrite HgA |].
  split; [unfold keeps_store; now rewrite HcA, HdA, HcfA, Hc1, Hd1, Hcf1 |].
  split; [reflexivity |].
  split; [intros Ht; cbn; f_equal; now apply key_instruction_wraps |].
  destruct (author_agent env Wa _) as [msg | html].
  - destruct Hout as (Hc & _ & Hst & _). now split.
  - cbn zeta in Hout. destruct Hout as (Wh & _ & HcH & HdH & _ & Hc & _ & Hout).
    exists Wh. split; [exact HcH |].
    split; [now rewrite HdH, lookup_insert_eq |]. split; [exact Hc |].
    destruct (hitl_agent env Wh _) as [msg | statusCode body].
    + now destruct Hout.
    + destruct (hitl_accepted statusCode body); now destruct Hout.
Qed.

(** The scenario's modify: the draft in review is reworked with the
    guidance [Make it shorter]. *)
Lemma modify_redrafts_and_resubmits_witness :
  gen_of (settle (handleHitlCallback env_ok (callback "r0-r1" "modify" "Make it shorter")
                    world_waiting)) "r0-r1"
  = (gen_of world_waiting "r0-r1" + 1)%Z.
Proof.
  destruct (modify_redrafts_and_resubmits env_ok
              (callback "r0-r1" "modify" "Make it shorter") world_waiting "r0-r1"
              eq_refl eq_refl eq_refl)
    as (trace & Wa & _ & _ & _ & Hgen & _).
  exact Hgen.
Defined.

(** ** Validation of a new send *)

(** C6. A new send that has no username, or neither instructions nor a
    regeneration base, or whose merged configuration has no subject or no
    non-empty recipient in to, cc and bcc, is answered 400 with a reason
    code; no record of the instance store is created or changed, no
    collaborator is called, no draft is written and nothing is logged, and
    no background task is left. *)
Theorem invalid_send_mutates_nothing (env : Env) (payload : jsval) (w : World)
    (i : string) (tr : jsval) (w3 : World) :
  let p := payload ||| JObj [] in
  let merged := mergeConfig w i p in
  send_target env p w = (i, tr, w3) ->
  js_truthy (js_get p "username") = false
  \/ (js_truthy (js_get p "instructions") = false
      /\ js_truthy (js_get p "regen_base_html") = false)
  \/ js_truthy (subject merged) = false
  \/ lacks_recipient merged ->
  let h := handleComposeSend env payload w in
  code (reply h) = 400%Z
  /\ (exists reason, body (reply h) = error_body reason)
  /\ task h = None
  /\ metas (settle h) = metas w
  /\ calls (settle h) = calls w
  /\ drafts (settle h) = drafts w
  /\ events (settle h) = events w
  /\ locallog (settle h) = locallog w.
Proof.
  intros p merged Htarget Hinvalid h.
  assert (Herr : exists reason, validation_error env payload w = Some reason).
  { unfold validation_error. fold p. rewrite Htarget. fold merged.
    rewrite truthy_base_html.
    destruct (js_truthy (js_get p "username")); cbn [negb]; [| eauto].
    destruct (js_truthy (js_get p "instructions")) eqn:Hi,
             (js_truthy (js_get p "regen_base_html")) eqn:Hb; cbn [negb andb];
      eauto;
      (destruct (js_truthy (subject merged)); cbn [negb]; [| eauto];
       destruct (requireRecipients _ _ _) eqn:Hr; [| eauto];
       exfalso;
       destruct Hinvalid as [H | [[H1 H2] | [H | H]]]; try discriminate;
       apply requireRecipients_None in H; congruence). }
  destruct Herr as (reason & Herr).
  destruct (handleComposeSend_rejects env payload w reason Herr)
    as (w' & Hh & Hm & (Hc & Hd & Hcf) & He & Hl).
  subst h. rewrite Hh. unfold settle. cbn. repeat split; eauto.
Qed.


(** A send without a subject, on an empty store, changes nothing. *)
Lemma invalid_send_mutates_nothing_witness :
  let h := handleComposeSend env_ok send_no_subject world0 in
  code (reply h) = 400%Z /\ metas (settle h) = metas world0 /\ calls (settle h) = [].
Proof.
  intros h.
  destruct (invalid_send_mutates_nothing env_ok send_no_subject world0
              "r0-r1" (JStr "r2") (add_dir "r0-r1" (bump_tick (bump_tick (bump_tick world0))))
              eq_refl (or_intror (or_intror (or_introl eq_refl))))
    as (Hcode & _ & _ & Hm & Hc & _).
  repeat split; assumption.
Defined.

(** A request that leaves out the instructions and brings a regeneration
    base passes the validation: it is the base that is reworked. *)
Lemma regeneration_base_stands_for_instructions :
  validation_error env_ok
    (JObj [("username", JStr "alice"); ("regen_base_html", JStr "<html>old</html>");
           ("subject", JStr "Hi"); ("to", JArr [JStr "a@x.com"])]) world0
  = None.
Proof. reflexivity. Qed.

(** ** The lifecycle of a new send *)

Lemma validation_error_valid (env : Env) (payload : jsval) (w : World)
    (i : string) (tr : jsval) (w3 : World) :
  let p := payload ||| JObj [] in
  let merged := mergeConfig w i p in
  send_target env p w = (i, tr, w3) ->
  js_truthy (js_get p "username") = true ->
  js_truthy (js_get p "instructions") || js_truthy (js_get p "regen_base_html") = true ->
  js_truthy (subject merged) = true ->
  ~ lacks_recipient merged ->
  validation_error env payload w = None.
Proof.
  intros p merged Htarget Huser Hinstr Hsubj Hrcpt.
  unfold validation_error. fold p. rewrite Htarget. fold merged.
  rewrite Huser, truthy_base_html, Hsubj. cbn [negb].
  rewrite <- negb_orb, Hinstr. cbn [negb].
  destruct (requireRecipients _ _ _) eqn:Hr; [reflexivity |].
  now apply requireRecipients_None in Hr.
Qed.

(** A valid send from start to end. [Wa] is the world the drafting
    collaborator is called in, [Wh] the one the review collaborator is
    called in. *)
Lemma send_lifecycle (env : Env) (payload : jsval) (w : World)
    (i : string) (tr : jsval) (w3 : World) :
  let p := payload ||| JObj [] in
  let merged := mergeConfig w i p in
  send_target env p w = (i, tr, w3) ->
  js_truthy (js_get p "username") = true ->
  js_truthy (js_get p "instructions") || js_truthy (js_get p "regen_base_html") = true ->
  js_truthy (subject merged) = true ->
  ~ lacks_recipient merged ->
  let areq := mkAuthorReq i (js_get p "username") (js_get p "instructions")
                (base_html_of p) (subject merged) tr in
  let h := handleComposeSend env payload w in
  let w' := settle h in
  let g := (gen_of w i + 1)%Z in
  exists Wa,
    status_of Wa i = Some Active
    /\ gen_of Wa i = g
    /\ keeps_store w Wa
    /\ gen_of w' i = g
    /\ match author_agent env Wa areq with
       | AuthorFailed msg =>
           status_of w' i = Some Active
           /\ finished_at (readMeta w' i) = finished_at (readMeta w i)
           /\ calls w' = calls w ++ [CallAuthor areq]
           /\ (js_get payload "async" <> JBool true ->
                 reply h = send_reply i tr (Throw msg))
       | AuthorReplied html =>
           let hreq := mkHitlReq i html
                         (hitl_config (loadInstanceConfig w i ||| JObj []) ||| JObj [])
                         ((if (g =? 0)%Z then 0 else g - 1) + 1)%Z in
           exists Wh,
             calls Wh = calls w ++ [CallAuthor areq]
             /\ readLatestEmailHtml Wh i = html
             /\ calls w' = calls w ++ [CallAuthor areq; CallHitl hreq]
             /\ match hitl_agent env Wh hreq with
                | HitlUnreachable msg =>
                    status_of w' i = Some Active
                    /\ (js_get payload "async" <> JBool true ->
                          reply h = send_reply i tr (Throw msg))
                | HitlReplied statusCode body =>
                    if hitl_accepted statusCode body
                    then status_of w' i = Some Wait
                         /\ (js_get payload "async" <> JBool true ->
                               reply h = sendJson 200 (flow_result i tr html))
                    else status_of w' i = Some Abort
                         /\ In (i, "compose", submit_note statusCode body) (locallog w')
                         /\ (js_get payload "async" <> JBool true ->
                               reply h = sendJson 200 (flow_declined statusCode body))
                end
       end.
Proof.
  intros p merged Htarget Huser Hinstr Hsubj Hrcpt areq h w' g.
  pose proof (validation_error_valid env payload w i tr w3 Htarget Huser Hinstr Hsubj Hrcpt)
    as Hvalid.
  destruct (send_settles env payload w Hvalid)
    as (i' & tr' & w3' & w4 & m & r & w5 & Ht' & _ & Hm4 & (Hc4 & Hd4 & Hcf4) & Hst & Hg & Hf
        & Hflow & Hms & (Hcs & Hds & Hcfs) & Hls & Hsync & Hasync).
  fold p in Ht', Hflow. rewrite Htarget in Ht'. inversion Ht'; subst i' tr' w3'. clear Ht'.
  fold h in Hms, Hcs, Hls, Hsync. fold w' in Hms, Hcs, Hls.
  destruct (runFlow_spec env i (js_get p "username") (js_get p "instructions")
              (base_html_of p) merged tr w4)
    as (Wa & w5' & r' & HstA & HgA & (HcA & HdA & HcfA) & Hflow' & Hcf5 & Hg5 & Hout).
  fold merged in Hflow. rewrite Hflow in Hflow'. inversion Hflow'; subst w5' r'. clear Hflow'.
  assert (Hgen4 : gen_of w4 i = gen_of w i).
  { unfold gen_of. unfold readMeta at 1. rewrite Hm4, lookup_insert_eq. cbn.
    now rewrite Hg. }
  assert (Hmeta4 : status (readMeta w4 i) = Some Active
                   /\ finished_at (readMeta w4 i) = finished_at (readMeta w i)).
  { unfold readMeta at 1 2. rewrite Hm4, lookup_insert_eq. cbn. now split. }
  destruct Hmeta4 as (Hst4 & Hf4).
  assert (Hmeta : readMeta w' i = readMeta w5 i) by (unfold readMeta; now rewrite Hms).
  assert (Hgen' : gen_of w' i = g).
  { unfold gen_of at 1. rewrite Hmeta, Hg5, Hgen4. reflexivity. }
  unfold loadInstanceConfig in *. rewrite Hgen4, Hc4, Hd4, Hcf4 in Hout.
  rewrite Hgen4 in HgA. fold areq g in Hout.
  exists Wa. unfold status_of. rewrite Hgen', Hmeta, Hls, Hcs.
  split; [now rewrite HstA |].
  split; [unfold gen_of; now rewrite HgA |].
  split; [unfold keeps_store; now rewrite HcA, HdA, HcfA, Hc4, Hd4, Hcf4 |].
  split; [reflexivity |].
  destruct (author_agent env Wa areq) as [msg | html].
  - destruct Hout as (Hc5 & _ & -> & -> & ->).
    split_all; try assumption. intros Ha. now destruct (Hsync Ha).
  - cbn zeta in Hout. destruct Hout as (Wh & _ & HcH & HdH & _ & Hc5 & _ & Hout).
    exists Wh. split; [exact HcH |].
    split; [unfold readLatestEmailHtml; now rewrite HdH, lookup_insert_eq |].
    split; [exact Hc5 |].
    destruct (hitl_agent env Wh _) as [msg | statusCode body].
    + destruct Hout as (-> & _ & ->). split; [exact Hst4 |].
      intros Ha. now destruct (Hsync Ha).
    + destruct (hitl_accepted statusCode body).
      * destruct Hout as (-> & ->). split; [reflexivity |].
        intros Ha. now destruct (Hsync Ha).
      * destruct Hout as (-> & Hnote & ->). split; [reflexivity |]. split; [exact Hnote |].
        intros Ha. now destruct (Hsync Ha).
Qed.

(** What a valid send does when the drafting collaborator answers [html]:
    the counter is raised by one, the review is asked for with loop index
    [gen_count - 1], and the instance waits if the review accepts and is
    aborted, with a note of the rejection in its log, if it declines. *)
Lemma send_drafts_then_reviews (env : Env) (payload : jsval) (w : World)
    (i : string) (tr : jsval) (w3 : World) :
  let p := payload ||| JObj [] in
  let merged := mergeConfig w i p in
  send_target env p w = (i, tr, w3) ->
  js_truthy (js_get p "username") = true ->
  js_truthy (js_get p "instructions") || js_truthy (js_get p "regen_base_html") = true ->
  js_truthy (subject merged) = true ->
  ~ lacks_recipient merged ->
  (0 <= gen_of w i)%Z ->
  let areq := mkAuthorReq i (js_get p "username") (js_get p "instructions")
                (base_html_of p) (subject merged) tr in
  let h := handleComposeSend env payload w in
  let w' := settle h in
  exists Wa,
    status_of Wa i = Some Active
    /\ gen_of Wa i = (gen_of w i + 1)%Z
    /\ gen_of w' i = (gen_of w i + 1)%Z
    /\ forall html, author_agent env Wa areq = AuthorReplied html ->
         let hreq := mkHitlReq i html
                       (hitl_config (loadInstanceConfig w i ||| JObj []) ||| JObj [])
                       (gen_of w' i - 1 + 1) in
         exists Wh,
           calls w' = calls w ++ [CallAuthor areq; CallHitl hreq]
           /\ forall statusCode body,
                hitl_agent env Wh hreq = HitlReplied statusCode body ->
                if hitl_accepted statusCode body
                then status_of w' i = Some Wait
                else status_of w' i = Some Abort
                     /\ In (i, "compose", submit_note statusCode body) (locallog w').
Proof.
  intros p merged Htarget Huser Hinstr Hsubj Hrcpt Hgen areq h w'.
  destruct (send_lifecycle env payload w i tr w3 Htarget Huser Hinstr Hsubj Hrcpt)
    as (Wa & HstA & HgA & _ & Hg' & Hout).
  fold p merged areq h w' in HstA, HgA, Hg', Hout.
  exists Wa. split; [exact HstA |]. split; [exact HgA |]. split; [exact Hg' |].
  intros html Ha. rewrite Ha in Hout. cbn zeta in Hout.
  destruct Hout as (Wh & _ & _ & Hc & Hout).
  assert (Hloop : ((if (gen_of w i + 1 =? 0)%Z then 0 else gen_of w i + 1 - 1) + 1
                   = gen_of w' i - 1 + 1)%Z).
  { rewrite Hg'. destruct (Z.eqb_spec (gen_of w i + 1) 0); lia. }
  rewrite Hloop in Hc, Hout. exists Wh. split; [exact Hc |].
  intros statusCode body Hh. rewrite Hh in Hout.
  destruct (hitl_accepted statusCode body); [now destruct Hout |].
  destruct Hout as (Hst & Hnote & _). now split.
Qed.

(** C1, where the code departs from it. On a valid new send the instance is
    active and its counter raised by one when the drafting collaborator is
    called; when that call fails the instance is left as it is, active: it
    is not moved to abort, [finished_at] is not stamped, no review request
    is made, and a synchronous caller is answered 502. *)
Theorem send_draft_failure_stays_active (env : Env) (payload : jsval) (w : World)
    (i : string) (tr : jsval) (w3 : World) :
  let p := payload ||| JObj [] in
  let merged := mergeConfig w i p in
  send_target env p w = (i, tr, w3) ->
  js_truthy (js_get p "username") = true ->
  js_truthy (js_get p "instructions") || js_truthy (js_get p "regen_base_html") = true ->
  js_truthy (subject merged) = true ->
  ~ lacks_recipient merged ->
  let areq := mkAuthorReq i (js_get p "username") (js_get p "instructions")
                (base_html_of p) (subject merged) tr in
  let h := handleComposeSend env payload w in
  let w' := settle h in
  exists Wa,
    status_of Wa i = Some Active
    /\ gen_of Wa i = (gen_of w i + 1)%Z
    /\ keeps_store w Wa
    /\ forall msg, author_agent env Wa areq = AuthorFailed msg ->
         status_of w' i = Some Active
         /\ finished_at (readMeta w' i) = finished_at (readMeta w i)
         /\ gen_of w' i = (gen_of w i + 1)%Z
         /\ calls w' = calls w ++ [CallAuthor areq]
         /\ (js_get payload "async" <> JBool true -> reply h = send_reply i tr (Throw msg)).
Proof.
  intros p merged Htarget Huser Hinstr Hsubj Hrcpt areq h w'.
  destruct (send_lifecycle env payload w i tr w3 Htarget Huser Hinstr Hsubj Hrcpt)
    as (Wa & HstA & HgA & HkA & Hg' & Hout).
  fold p merged areq h w' in HstA, HgA, HkA, Hg', Hout.
  exists Wa. split; [exact HstA |]. split; [exact HgA |]. split; [exact HkA |].
  intros msg Ha. rewrite Ha in Hout. destruct Hout as (Hst & Hf & Hc & Hreply).
  split_all; assumption.
Qed.

(** The scenario's send when the drafting service is down. *)
Lemma send_draft_failure_stays_active_witness :
  let h := handleComposeSend env_draft_down send_alice world0 in
  status_of (settle h) "r0-r1" = Some Active
  /\ finished_at (readMeta (settle h) "r0-r1") = None
  /\ code (reply h) = 502%Z.
Proof.
  intros h.
  assert (Hrcpt : ~ lacks_recipient (mergeConfig world0 "r0-r1" (send_alice ||| JObj []))).
  { intros H. specialize (H (JArr [JStr "a@x.com"]) [JStr "a@x.com"] (JStr "a@x.com")
                            (or_introl eq_refl) eq_refl (or_introl eq_refl)).
    discriminate. }
  destruct (send_draft_failure_stays_active env_draft_down send_alice world0
              "r0-r1" (JStr "r2") (add_dir "r0-r1" (bump_tick (bump_tick (bump_tick world0))))
              eq_refl eq_refl eq_refl eq_refl Hrcpt)
    as (Wa & _ & _ & _ & Hfail).
  destruct (Hfail "author_agent_error_500: down" eq_refl) as (Hst & Hf & _ & _ & Hreply).
  fold h in Hst, Hf, Hreply.
  split; [exact Hst |]. split; [exact Hf |].
  rewrite Hreply; [reflexivity | discriminate].
Defined.

(** ** Synchronous and detached mode *)

Lemma handler_with_async (env : Env) (a : bool) (b : CallbackBody) (i act : string)
    (user tr : jsval) :
  handler env (with_async a b) i act user tr = handler env b i act user tr.
Proof. reflexivity. Qed.

(** C8. A trigger run detached leaves the same final state as the same
    trigger run synchronously: the same instance records, the same
    collaborator calls, drafts and configurations (and the same local log
    for a send, the same events for a review callback). The synchronous run
    leaves no background task. The detached run answers with the
    acknowledgment carrying the instance id and trace id, unless the request
    is refused by validation, in which case both modes answer the same 400. *)
Theorem detached_mode_same_final_state (env : Env) (w : World) :
  (forall p_sync p_detached : jsval,
     same_request p_sync p_detached ->
     js_get p_sync "async" <> JBool true ->
     js_get p_detached "async" = JBool true ->
     let hs := handleComposeSend env p_sync w in
     let hd := handleComposeSend env p_detached w in
     metas (settle hd) = metas (settle hs)
     /\ keeps_store (settle hs) (settle hd)
     /\ locallog (settle hd) = locallog (settle hs)
     /\ task hs = None
     /\ ((exists i tr, reply hd = acknowledgment (JStr i) tr)
         \/ (reply hd = reply hs /\ code (reply hs) = 400%Z /\ task hd = None)))
  /\ (forall b : CallbackBody,
        let hs := handleHitlCallback env (with_async false b) w in
        let hd := handleHitlCallback env (with_async true b) w in
        metas (settle hd) = metas (settle hs)
        /\ keeps_store (settle hs) (settle hd)
        /\ events (settle hd) = events (settle hs)
        /\ task hs = None
        /\ ((exists tr, reply hd = acknowledgment (cb_instance_id b) tr)
            \/ (reply hd = reply hs /\ code (reply hs) = 400%Z /\ task hd = None))).
Proof.
  split.
  - intros ps pd Hsame Hs Hd hs hd.
    pose proof (validation_error_same_request env w ps pd Hsame) as Hv.
    destruct (validation_error env ps w) as [reason |] eqn:Hvs.
    + destruct (handleComposeSend_rejects env ps w reason Hvs)
        as (ws & Hhs & Hms & (Hcs & Hds & Hcfs) & _ & Hls).
      destruct (handleComposeSend_rejects env pd w reason (eq_sym Hv))
        as (wd & Hhd & Hmd & (Hcd & Hdd & Hcfd) & _ & Hld).
      subst hs hd. rewrite Hhs, Hhd. unfold settle, keeps_store. cbn.
      rewrite Hms, Hmd, Hcs, Hcd, Hds, Hdd, Hcfs, Hcfd, Hls, Hld.
      repeat split. right. repeat split.
    + destruct (send_settles env ps w Hvs)
        as (i & tr & w3 & w4 & m & r & w5 & Ht & Hl & _ & _ & _ & _ & _
            & Hflow & Hms & (Hcs & Hds & Hcfs) & Hls & Hsync & _).
      destruct (send_settles env pd w (eq_sym Hv))
        as (i' & tr' & w3' & w4' & m' & r' & w5' & Ht' & Hl' & _ & _ & _ & _ & _
            & Hflow' & Hmd & (Hcd & Hdd & Hcfd) & Hld & _ & Hasync).
      pose proof (same_request_or_empty _ _ Hsame) as Hsame'.
      rewrite <- (send_target_same_request env w _ _ Hsame'), Ht in Ht'.
      inversion Ht'; subst i' tr' w3'. clear Ht'.
      rewrite <- (Hsame' "username") in Hl', Hflow' by discriminate.
      rewrite Hl in Hl'. inversion Hl'; subst w4'. clear Hl'.
      rewrite <- (Hsame' "instructions"), <- (base_html_same_request _ _ Hsame'),
        <- (mergeConfig_same_request w i _ _ Hsame'), Hflow in Hflow' by discriminate.
      inversion Hflow'; subst r' w5'. clear Hflow'.
      fold hs in Hms, Hcs, Hds, Hcfs, Hls, Hsync. fold hd in Hmd, Hcd, Hdd, Hcfd, Hld, Hasync.
      unfold keeps_store. rewrite Hms, Hmd, Hcs, Hcd, Hds, Hdd, Hcfs, Hcfd, Hls, Hld.
      destruct (Hsync Hs) as [Htask _].
      repeat match goal with |- _ /\ _ => split end; try reflexivity; try assumption.
      left. exists i, tr. now apply Hasync.
  - intros b hs hd.
    destruct (cb_instance_id b) as [| | | | i | |] eqn:Hid;
      try (subst hs hd; unfold handleHitlCallback; cbn [cb_instance_id with_async];
           rewrite Hid; unfold settle, keeps_store; cbn; repeat split; right; repeat split).
    destruct (validateInstanceId (JStr i)) eqn:Hvalid.
    2:{ subst hs hd. unfold handleHitlCallback. cbn [cb_instance_id with_async].
        rewrite Hid, Hvalid.
        unfold settle, keeps_store. cbn. repeat split. right. repeat split. }
    destruct (handleHitlCallback_modes env (with_async false b) w i Hid Hvalid)
      as (tr & w1 & Htr & Hmodes).
    destruct (handleHitlCallback_modes env (with_async true b) w i Hid Hvalid)
      as (tr' & w1' & Htr' & Hmodes').
    cbn in Htr, Htr'. rewrite Htr in Htr'. inversion Htr'; subst tr' w1'. clear Htr'.
    rewrite handler_with_async in Hmodes, Hmodes'.
    destruct (handler env b i (action_of (with_async false b))
                (callback_user (with_async false b)) tr w1) as [r w2] eqn:Hrun.
    destruct (Hmodes r w2 eq_refl) as (Hms & (Hcs & Hds & Hcfs) & Hes & Hsync & _).
    destruct (Hmodes' r w2 Hrun) as (Hmd & (Hcd & Hdd & Hcfd) & Hed & _ & Hasync).
    fold hs in Hms, Hcs, Hds, Hcfs, Hes, Hsync. fold hd in Hmd, Hcd, Hdd, Hcfd, Hed, Hasync.
    unfold keeps_store. rewrite Hms, Hmd, Hcs, Hcd, Hds, Hdd, Hcfs, Hcfd, Hes, Hed.
    destruct (Hsync eq_refl) as [Htask _]. destruct (Hasync eq_refl) as [_ Hack].
    repeat match goal with |- _ /\ _ => split end; try reflexivity; try assumption.
    left. exists tr. rewrite Hack. reflexivity.
Qed.

(** The scenario's send, run detached and run synchronously. *)
Lemma detached_mode_same_final_state_witness :
  metas (settle (handleComposeSend env_ok send_alice_detached world0))
  = metas (settle (handleComposeSend env_ok send_alice world0)).
Proof.
  apply (proj1 (detached_mode_same_final_state env_ok world0) send_alice send_alice_detached).
  - intros k Hk. cbn. apply String.eqb_neq in Hk. now rewrite Hk.
  - discriminate.
  - reflexivity.
Defined.

(** The modes differ in what is logged about a failure, not in the state:
    the error event of a failed send names the mode. *)
Lemma detached_failure_is_logged_as_such :
  let hs := handleComposeSend env_draft_down send_alice world0 in
  let hd := handleComposeSend env_draft_down send_alice_detached world0 in
  List.map l_message (events (settle hs)) <> List.map l_message (events (settle hd))
  /\ metas (settle hs) = metas (settle hd).
Proof. split; [vm_compute; discriminate | vm_compute; reflexivity]. Qed.

(** ** The fallback of the author agent *)

Section AuthorFallback.
Variable promptText : string -> string.
Variable configuredModel : string -> string.
Variable generateHtmlWithLLM : string -> string -> AuthorAgent.LlmOutcome.
Variable jsonContract : string.
Variable cleanHtmlOutput : string -> string.
Variable parseLlmJson : string -> option (string * jsval).

Local Abbreviation generate :=
  (AuthorAgent.handleGenerate promptText configuredModel generateHtmlWithLLM jsonContract
     cleanHtmlOutput parseLlmJson).

(** The [while] loop of [rotateEmailFiles] stops on a free slot. *)
Lemma first_free_is_free (dir : gmap nat string) :
  dir !! AuthorAgent.first_free dir = None.
Proof.
  unfold AuthorAgent.first_free.
  destruct (head _) as [n |] eqn:Hhead; cbn.
  - apply head_Some_elem_of, list_elem_of_In, List.filter_In in Hhead.
    destruct Hhead as [_ Hn]. now apply bool_decide_eq_true in Hn.
  - apply head_None in Hhead. exfalso.
    assert (Hsub : list_to_set (C := gset nat) (seq 1 (S (size dir))) ⊆ dom dir).
    { intros n Hn. apply elem_of_list_to_set, list_elem_of_In in Hn.
      apply elem_of_dom. destruct (dir !! n) eqn:Hl; [eauto |].
      assert (Hin : In n (List.filter (fun n => bool_decide (dir !! n = None))
                            (seq 1 (S (size dir))))).
      { apply List.filter_In. split; [exact Hn | now apply bool_decide_eq_true]. }
      rewrite Hhead in Hin. destruct Hin. }
    apply subseteq_size in Hsub.
    rewrite size_list_to_set, length_seq, size_dom in Hsub by apply NoDup_seq. lia.
Qed.

(** Whatever the provider does, a well-formed request is answered 200 and
    the HTML of the answer is what [artifacts/email.html] then holds. *)
Lemma handleGenerate_answers (payload : AuthorAgent.GenerateReq) (d : AuthorAgent.Disk)
    (i : string) :
  AuthorAgent.g_instance_id payload = JStr i ->
  validateInstanceId (JStr i) = true ->
  js_truthy (AuthorAgent.g_username payload) = true ->
  exists html,
    AuthorAgent.code (fst (generate payload d)) = 200%Z
    /\ js_get (AuthorAgent.body (fst (generate payload d))) "html" = JStr html
    /\ AuthorAgent.email_files (snd (generate payload d)) !! i ≫= (.!! 0%nat) = Some html
    /\ (forall msg,
          generateHtmlWithLLM i
            (AuthorAgent.prompt
               (AuthorAgent.buildPrompt jsonContract (AuthorAgent.g_instructions payload)
                  (AuthorAgent.g_base_html payload) (promptText i))) = AuthorAgent.LlmThrows msg ->
          html = AuthorAgent.stubGenerateHtml (AuthorAgent.g_instructions payload)
                   (AuthorAgent.g_base_html payload)).
Proof.
  intros Hid Hvalid Huser. unfold AuthorAgent.handleGenerate.
  rewrite Hid, Hvalid, Huser. cbn [negb].
  destruct (generateHtmlWithLLM i _) as [msg | res] eqn:Hllm.
  - eexists. cbn. rewrite lookup_insert_eq. cbn. rewrite lookup_insert_eq.
    repeat split. 
  - destruct (parseLlmJson _) as [[answer r] |]; eexists; cbn;
      rewrite lookup_insert_eq; cbn; rewrite lookup_insert_eq; repeat split;
      intros msg Hmsg; discriminate.
Qed.

Lemma append_assoc (s1 s2 s3 : string) : (s1 +:+ s2) +:+ s3 = s1 +:+ (s2 +:+ s3).
Proof.
  induction s1 as [| c s1 IH]; [reflexivity |].
  change (String c ((s1 +:+ s2) +:+ s3) = String c (s1 +:+ (s2 +:+ s3))).
  now f_equal.
Qed.

Lemma nonempty_trim (s : string) : nonempty (trim s) = true -> nonempty s = true.
Proof. now destruct s. Qed.

(** The stub returns a visible prior HTML as it is, and otherwise wraps the
    trimmed instructions (or a fixed sentence when there are none) in a
    minimal HTML shell. *)
Lemma stubGenerateHtml_spec (instructions baseHtml : string) :
  (nonempty (trim baseHtml) = true ->
     AuthorAgent.stubGenerateHtml instructions baseHtml = baseHtml)
  /\ (nonempty (trim baseHtml) = false ->
        AuthorAgent.stubGenerateHtml instructions baseHtml
        = "<html>" +:+ AuthorAgent.nl
          +:+ "<body style=" +:+ AuthorAgent.dq
          +:+ "font-family: Arial, sans-serif; padding: 16px;" +:+ AuthorAgent.dq +:+ ">"
          +:+ AuthorAgent.nl
          +:+ "<p>"
          +:+ (if nonempty (trim instructions) then trim instructions
               else "No additional instructions provided.")
          +:+ "</p>" +:+ AuthorAgent.nl
          +:+ "</body>" +:+ AuthorAgent.nl +:+ "</html>").
Proof.
  unfold AuthorAgent.stubGenerateHtml. split; intros Hb; rewrite Hb.
  - now rewrite (nonempty_trim _ Hb).
  - rewrite andb_false_r.
    assert (Hi : nonempty instructions && nonempty (trim instructions)
                 = nonempty (trim instructions)).
    { destruct (nonempty (trim instructions)) eqn:Ht; [| apply andb_false_r].
      now rewrite (nonempty_trim _ Ht). }
    rewrite Hi. unfold join. cbn [fold_left].
    rewrite !append_assoc. reflexivity.
Qed.

(** C10. A well-formed generate request (valid instance id, username) whose
    provider call throws is not answered with a failure: the agent falls
    back to the stub, which is the prior HTML as supplied when it has
    visible text and otherwise a minimal HTML shell around the instruction
    text; it writes that HTML to [artifacts/email.html], records the error in
    the reasoning and answers 200 with the same HTML. *)
Theorem generate_falls_back_on_llm_error (payload : AuthorAgent.GenerateReq)
    (d : AuthorAgent.Disk) (i msg : string) :
  AuthorAgent.g_instance_id payload = JStr i ->
  validateInstanceId (JStr i) = true ->
  js_truthy (AuthorAgent.g_username payload) = true ->
  generateHtmlWithLLM i
    (AuthorAgent.prompt
       (AuthorAgent.buildPrompt jsonContract (AuthorAgent.g_instructions payload)
          (AuthorAgent.g_base_html payload) (promptText i))) = AuthorAgent.LlmThrows msg ->
  let instructions := AuthorAgent.g_instructions payload in
  let base := AuthorAgent.g_base_html payload in
  let html := AuthorAgent.stubGenerateHtml instructions base in
  let answer := fst (generate payload d) in
  let d' := snd (generate payload d) in
  AuthorAgent.code answer = 200%Z
  /\ js_get (AuthorAgent.body answer) "html" = JStr html
  /\ AuthorAgent.email_files d' !! i ≫= (.!! 0%nat) = Some html
  /\ js_get (js_get (AuthorAgent.body answer) "reasoning") "summary"
     = JStr ("LLM error (" +:+ err_text msg +:+ "); used stub fallback.")
  /\ (nonempty (trim base) = true -> html = base)
  /\ (nonempty (trim base) = false ->
        html
        = "<html>" +:+ AuthorAgent.nl
          +:+ "<body style=" +:+ AuthorAgent.dq
          +:+ "font-family: Arial, sans-serif; padding: 16px;" +:+ AuthorAgent.dq +:+ ">"
          +:+ AuthorAgent.nl
          +:+ "<p>"
          +:+ (if nonempty (trim instructions) then trim instructions
               else "No additional instructions provided.")
          +:+ "</p>" +:+ AuthorAgent.nl
          +:+ "</body>" +:+ AuthorAgent.nl +:+ "</html>").
Proof.
  intros Hid Hvalid Huser Hllm instructions base html answer d'.
  subst answer d'. unfold AuthorAgent.handleGenerate.
  rewrite Hid, Hvalid, Huser. cbn [negb]. rewrite Hllm. cbn.
  rewrite lookup_insert_eq. cbn. rewrite lookup_insert_eq.
  repeat match goal with |- _ /\ _ => split end; try reflexivity;
    apply stubGenerateHtml_spec.
Qed.

End AuthorFallback.

(** A provider that is down, asked to rework nothing: the agent answers 200
    with the shell around the instructions and stores it. *)
Lemma generate_falls_back_on_llm_error_witness :
  let payload := AuthorAgent.mkGenerateReq (JStr "r0-r1") (JStr "alice") "Say hello" "" "Hi"
                   JUndef in
  let answer := fst (AuthorAgent.handleGenerate (fun _ => "Write an email.") (fun _ => "")
                       (fun _ _ => AuthorAgent.LlmThrows "ollama_error_500: ") "contract"
                       (fun s => s) (fun _ => None) payload
                       (AuthorAgent.mkDisk ∅ ∅ [] [])) in
  AuthorAgent.code answer = 200%Z
  /\ js_get (AuthorAgent.body answer) "html"
     = JStr (AuthorAgent.stubGenerateHtml "Say hello" "").
Proof.
  intros payload answer.
  destruct (generate_falls_back_on_llm_error (fun _ => "Write an email.") (fun _ => "")
              (fun _ _ => AuthorAgent.LlmThrows "ollama_error_500: ") "contract"
              (fun s => s) (fun _ => None) payload (AuthorAgent.mkDisk ∅ ∅ [] [])
              "r0-r1" "ollama_error_500: " eq_refl eq_refl eq_refl eq_refl)
    as (Hcode & Hhtml & _).
  split; assumption.
Defined.

(** * Further properties *)

(** ** What a computation leaves of a relation between worlds *)

Section Frames.
Variable R : World -> World -> Prop.
Hypothesis R_refl : forall w, R w w.
Hypothesis R_trans : forall w1 w2 w3, R w1 w2 -> R w2 w3 -> R w1 w3.

Lemma steps_ret {A} (a : A) : steps R (ret a).
Proof. intros w. apply R_refl. Qed.

Lemma steps_throw {A} (msg : string) : steps R (throw (A := A) msg).
Proof. intros w. apply R_refl. Qed.

Lemma steps_gets {A} (f : World -> A) : steps R (gets f).
Proof. intros w. apply R_refl. Qed.

Lemma steps_bind {A B} (m : M A) (k : A -> M B) :
  steps R m -> (forall a, steps R (k a)) -> steps R (bind m k).
Proof.
  intros Hm Hk w. unfold bind. specialize (Hm w).
  destruct (m w) as [[a | msg] w1]; cbn in *; [| exact Hm].
  eapply R_trans; [exact Hm | apply Hk].
Qed.

Lemma steps_try_catch {A} (m : M A) (h : string -> M A) :
  steps R m -> (forall msg, steps R (h msg)) -> steps R (try_catch m h).
Proof.
  intros Hm Hh w. unfold try_catch. specialize (Hm w).
  destruct (m w) as [[a | msg] w1]; cbn in *; [exact Hm |].
  eapply R_trans; [exact Hm | apply Hh].
Qed.

Lemma steps_if {A} (c : bool) (m1 m2 : M A) :
  steps R m1 -> steps R m2 -> steps R (if c then m1 else m2).
Proof. now destruct c. Qed.

End Frames.

Ltac steps_with refl trans prim :=
  repeat lazymatch goal with
         | |- steps _ (bind _ _) => apply steps_bind; [exact trans | | intros ?]
         | |- steps _ (try_catch _ _) => apply steps_try_catch; [exact trans | | intros ?]
         | |- steps _ (if _ then _ else _) => apply steps_if
         | |- steps _ (ret _) => apply steps_ret; exact refl
         | |- steps _ (throw _) => apply steps_throw; exact refl
         | |- steps _ (gets _) => apply steps_gets; exact refl
         | |- steps _ _ => prim
         end.

(** *** The store *)

Lemma evolves_refl (i : string) (w : World) : evolves i w w.
Proof. unfold evolves. repeat split; auto; lia. Qed.

Lemma evolves_trans (i : string) (w1 w2 w3 : World) :
  evolves i w1 w2 -> evolves i w2 w3 -> evolves i w1 w3.
Proof.
  intros (Hc & Hm & Hd & Hs & Ho & Hg) (Hc' & Hm' & Hd' & Hs' & Ho' & Hg').
  unfold evolves. repeat split.
  - congruence.
  - intros j Hj. rewrite Hm', Hm; auto.
  - intros j Hj. rewrite Hd', Hd; auto.
  - intros t Ht Hne. apply Hs'; auto.
  - intros Hown. rewrite Ho'; [auto |]. rewrite Ho; auto.
  - lia.
Qed.

(** Whatever leaves the records, drafts and configurations alone. *)
Lemma evolves_same_store (i : string) (w w' : World) :
  metas w' = metas w -> drafts w' = drafts w -> configs w' = configs w -> evolves i w w'.
Proof.
  intros Hm Hd Hc. unfold evolves, gen_of, readMeta. rewrite Hm, Hd, Hc.
  repeat split; auto; lia.
Qed.

Lemma evolves_appendLocalLog (i j s msg : string) : steps (evolves i) (appendLocalLog j s msg).
Proof. intros w. now apply evolves_same_store. Qed.

Lemma evolves_logEvent (i : string) svc lvl ty msg j user tr :
  steps (evolves i) (logEvent svc lvl ty msg j user tr).
Proof. intros w. now apply evolves_same_store. Qed.

Lemma evolves_now (env : Env) (i : string) : steps (evolves i) (now env).
Proof. intros w. now apply evolves_same_store. Qed.

Lemma evolves_read_random (env : Env) (i : string) : steps (evolves i) (read_random env).
Proof. intros w. now apply evolves_same_store. Qed.

Lemma evolves_callEmailAgent (env : Env) (i : string) (req : EmailReq) :
  steps (evolves i) (callEmailAgent env req).
Proof.
  intros w. unfold callEmailAgent. destruct (email_agent env w req); now apply evolves_same_store.
Qed.

Lemma evolves_callHitlAgent (env : Env) (i j html : string) (cfg : jsval) (loop : Z) :
  steps (evolves i) (callHitlAgent env j html cfg loop).
Proof.
  intros w. unfold callHitlAgent, bind, appendLocalLog, modify. cbn.
  destruct (hitl_agent env _ _); now apply evolves_same_store.
Qed.

Lemma evolves_callAuthorAgent (env : Env) (req : AuthorReq) :
  steps (evolves (a_instance_id req)) (callAuthorAgent env req).
Proof.
  intros w. unfold callAuthorAgent.
  destruct (author_agent env w req); [now apply evolves_same_store |].
  unfold evolves, gen_of, readMeta. cbn. repeat split; auto; try lia.
  intros j Hj. now apply lookup_insert_ne.
Qed.

(** A write of the instance's own record that keeps what is set. *)
Lemma evolves_write (i : string) (next : Meta) (w w' : World) :
  configs w' = configs w ->
  drafts w' = drafts w ->
  metas w' = <[i := next]> (metas w) ->
  (forall t, started_at (readMeta w i) = Some t -> nonempty t = true ->
     started_at next = Some t) ->
  (js_truthy (owner (readMeta w i)) = true -> owner next = owner (readMeta w i)) ->
  (gen_of w i <= default 0 (gen_count next))%Z ->
  evolves i w w'.
Proof.
  intros Hc Hd Hm Hs Ho Hg. unfold evolves, gen_of.
  assert (Hr : readMeta w' i = next) by (unfold readMeta; now rewrite Hm, lookup_insert_eq).
  rewrite Hr, Hc, Hd, Hm. repeat split; auto.
  intros j Hj. now apply lookup_insert_ne.
Qed.

(** An update of the instance's record that keeps [started_at] and [owner]
    and does not lower [gen_count]. *)
Lemma evolves_updateMeta (i : string) (f : Meta -> Meta) :
  (forall prev, started_at (f prev) = started_at prev) ->
  (forall prev, owner (f prev) = owner prev) ->
  (forall prev, (default 0 (gen_count prev) <= default 0 (gen_count (f prev)))%Z) ->
  steps (evolves i) (updateMeta i (fun prev => ret (f prev))).
Proof.
  intros Hs Ho Hg w. unfold updateMeta, writeJsonSafe, bind, gets, ret, modify. cbn.
  apply (evolves_write i (f (readMeta w i))); try reflexivity.
  - intros t Ht _. now rewrite Hs.
  - intros _. apply Ho.
  - apply Hg.
Qed.

Lemma next_gen_grows (prev : Meta) : (default 0 (gen_count prev) <= next_gen prev)%Z.
Proof.
  unfold next_gen. destruct (gen_count prev) as [n |]; cbn; [| lia].
  destruct (Z.eqb_spec n 0); lia.
Qed.

Lemma evolves_markInstanceActive (env : Env) (i : string) (user : jsval) :
  steps (evolves i) (markInstanceActive env i user).
Proof.
  intros w. unfold markInstanceActive, updateMeta, writeJsonSafe, appendLocalLog, now,
    bind, gets, ret, modify. cbn. fold (readMeta w i).
  destruct (falsy_time (started_at (readMeta w i))) eqn:Hft; cbn;
    destruct (js_truthy user && negb (js_truthy (owner (readMeta w i)))) eqn:Hu; cbn;
    (eapply evolves_write; [reflexivity | reflexivity | reflexivity | cbn .. ]);
    try (intros t Ht Hne; rewrite Ht in Hft; cbn in Hft; rewrite Hne in Hft; discriminate);
    try (intros Hown; rewrite Hown in Hu; rewrite andb_false_r in Hu; discriminate);
    try (unfold gen_of; lia); auto.
Qed.

Ltac evolves_prim0 :=
  idtac;
  lazymatch goal with
  | |- steps _ (appendLocalLog _ _ _) => apply evolves_appendLocalLog
  | |- steps _ (logEvent _ _ _ _ _ _ _) => apply evolves_logEvent
  | |- steps _ (now _) => apply evolves_now
  | |- steps _ (read_random _) => apply evolves_read_random
  | |- steps _ (callEmailAgent _ _) => apply evolves_callEmailAgent
  | |- steps _ (callHitlAgent _ _ _ _ _) => apply evolves_callHitlAgent
  | |- steps _ (callAuthorAgent _ _) =>
      apply (evolves_callAuthorAgent _ (mkAuthorReq _ _ _ _ _ _))
  | |- steps _ (markInstanceActive _ _ _) => apply evolves_markInstanceActive
  | |- steps _ (updateMeta _ _) =>
      apply evolves_updateMeta;
      [reflexivity | reflexivity | intros ?; cbn; try apply next_gen_grows; lia]
  end.

Lemma evolves_abortInstance (env : Env) (i : string) (user tr : jsval) (note : string) :
  steps (evolves i) (abortInstance env i user tr note).
Proof.
  unfold abortInstance. steps_with (evolves_refl i) (evolves_trans i) ltac:(evolves_prim0).
Qed.

Lemma evolves_finishAs (env : Env) (i : string) (user tr : jsval) (st : Status) (msg : string) :
  steps (evolves i) (finishAs env i user tr st msg).
Proof.
  unfold finishAs. steps_with (evolves_refl i) (evolves_trans i) ltac:(evolves_prim0).
Qed.

Lemma evolves_submitHitlAndHandle (env : Env) (i : string) (user : jsval) (html : string)
    (cfg : jsval) (loop : Z) (tr : jsval) (abortOnFail : bool) :
  steps (evolves i) (submitHitlAndHandle env i user html cfg loop tr abortOnFail).
Proof.
  unfold submitHitlAndHandle. cbn zeta.
  steps_with (evolves_refl i) (evolves_trans i)
    ltac:(idtac; lazymatch goal with
          | |- steps _ (abortInstance _ _ _ _ _) => apply evolves_abortInstance
          | |- _ => evolves_prim0
          end).
Qed.

Ltac evolves_prim :=
  idtac;
  lazymatch goal with
  | |- steps _ (abortInstance _ _ _ _ _) => apply evolves_abortInstance
  | |- steps _ (finishAs _ _ _ _ _ _) => apply evolves_finishAs
  | |- steps _ (submitHitlAndHandle _ _ _ _ _ _ _ _) => apply evolves_submitHitlAndHandle
  | |- _ => evolves_prim0
  end.

Ltac evolves_steps i :=
  steps_with (evolves_refl i) (evolves_trans i) ltac:(evolves_prim).


Lemma evolves_handler (env : Env) (b : CallbackBody) (i act : string) (user tr : jsval) :
  steps (evolves i) (handler env b i act user tr).
Proof.
  unfold handler. cbn zeta.
  evolves_steps i.
Qed.

Lemma evolves_runFlow (env : Env) (i : string) (user instr base : jsval) (merged : Merged)
    (tr : jsval) :
  steps (evolves i) (runFlow env i user instr base merged tr).
Proof.
  unfold runFlow. cbn zeta. evolves_steps i.
Qed.

Lemma evolves_launch (env : Env) (i : string) (user tr : jsval) :
  steps (evolves i) (launch env i user tr).
Proof. unfold launch. evolves_steps i. Qed.

(** What a handler does to the store, whole. *)

Lemma handleHitlCallback_evolves (env : Env) (b : CallbackBody) (w : World) (i : string) :
  cb_instance_id b = JStr i -> evolves i w (settle (handleHitlCallback env b w)).
Proof.
  intros Hid. destruct (validateInstanceId (JStr i)) eqn:Hvalid.
  2:{ unfold handleHitlCallback. rewrite Hid, Hvalid. apply evolves_refl. }
  destruct (handleHitlCallback_modes env b w i Hid Hvalid) as (tr & w1 & Htr & Hmodes).
  destruct (resolve_trace_id_spec env (JStr (cb_trace_id b)) w)
    as (tr' & w1' & Htr' & Hm1 & (Hc1 & Hd1 & Hcf1) & _).
  rewrite Htr in Htr'. inversion Htr'; subst tr' w1'. clear Htr'.
  destruct (handler env b i (action_of b) (callback_user b) tr w1) as [r w2] eqn:Hrun.
  destruct (Hmodes r w2 eq_refl) as (Hms & (Hcs & Hds & Hcfs) & _).
  apply (evolves_trans i w w1); [now apply evolves_same_store |].
  apply (evolves_trans i w1 w2); [| now apply evolves_same_store].
  pose proof (evolves_handler env b i (action_of b) (callback_user b) tr w1) as H.
  now rewrite Hrun in H.
Qed.

Lemma handleHitlCallback_no_instance (env : Env) (b : CallbackBody) (w : World) :
  (forall i, cb_instance_id b <> JStr i) -> settle (handleHitlCallback env b w) = w.
Proof.
  intros Hno. unfold handleHitlCallback.
  destruct (cb_instance_id b) eqn:Hid; try reflexivity. now destruct (Hno s).
Qed.

Lemma handleAbort_evolves (env : Env) (body : jsval) (w : World) (i : string) :
  js_get (body ||| JObj []) "instance_id" = JStr i ->
  evolves i w (settle (handleAbort env body w)).
Proof.
  intros Hid. unfold handleAbort. rewrite Hid.
  destruct (validateInstanceId (JStr i)); cbn [negb]; [| apply evolves_refl].
  destruct (js_truthy _); cbn [negb]; [| apply evolves_refl].
  destruct (resolve_trace_id_spec env (js_get (body ||| JObj []) "trace_id") w)
    as (tr & w1 & -> & Hm1 & (Hc1 & Hd1 & Hcf1) & _).
  unfold settle. cbn [task after].
  apply (evolves_trans i w w1); [now apply evolves_same_store |].
  apply evolves_abortInstance.
Qed.

Lemma handleAbort_no_instance (env : Env) (body : jsval) (w : World) :
  (forall i, js_get (body ||| JObj []) "instance_id" <> JStr i) ->
  settle (handleAbort env body w) = w.
Proof.
  intros Hno. unfold handleAbort.
  destruct (js_get (body ||| JObj []) "instance_id") eqn:Hid; try reflexivity.
  now destruct (Hno s).
Qed.

Lemma handleComposeSend_evolves (env : Env) (payload : jsval) (w : World)
    (i : string) (tr : jsval) (w3 : World) :
  send_target env (payload ||| JObj []) w = (i, tr, w3) ->
  evolves i w (settle (handleComposeSend env payload w)).
Proof.
  intros Htarget.
  destruct (validation_error env payload w) as [reason |] eqn:Hv.
  - destruct (handleComposeSend_rejects env payload w reason Hv)
      as (w' & -> & Hm & (Hc & Hd & Hcf) & _).
    unfold settle. cbn. now apply evolves_same_store.
  - destruct (send_settles env payload w Hv)
      as (i' & tr' & w3' & w4 & m & r & w5 & Ht' & Hl & _ & _ & _ & _ & _
          & Hflow & Hms & (Hcs & Hds & Hcfs) & _).
    rewrite Htarget in Ht'. inversion Ht'; subst i' tr' w3'. clear Ht'.
    destruct (send_target_spec env (payload ||| JObj []) w)
      as (i' & tr' & w3' & Ht' & Hm3 & (Hc3 & Hd3 & Hcf3) & _).
    rewrite Htarget in Ht'. inversion Ht'; subst i' tr' w3'. clear Ht'.
    apply (evolves_trans i w w3); [now apply evolves_same_store |].
    apply (evolves_trans i w3 w4).
    { pose proof (evolves_launch env i (js_get (payload ||| JObj []) "username") tr w3) as H.
      now rewrite Hl in H. }
    apply (evolves_trans i w4 w5); [| now apply evolves_same_store].
    match type of Hflow with
    | runFlow ?e ?i ?u ?a ?b ?m ?t ?w0 = _ =>
        pose proof (evolves_runFlow e i u a b m t w0) as H
    end.
    now rewrite Hflow in H.
Qed.


Lemma serve_evolves (env : Env) (q : Trigger) (w : World) :
  match target env q w with
  | Some i => evolves i w (settle (serve env q w))
  | None => settle (serve env q w) = w
  end.
Proof.
  destruct q as [payload | b | body]; cbn [target serve].
  - destruct (send_target env (payload ||| JObj []) w) as [[i tr] w3] eqn:Ht. cbn.
    now apply (handleComposeSend_evolves env payload w i tr w3).
  - destruct (cb_instance_id b) eqn:Hid;
      try (apply handleHitlCallback_no_instance; intros i; rewrite Hid; discriminate).
    now apply handleHitlCallback_evolves.
  - destruct (js_get (body ||| JObj []) "instance_id") eqn:Hid;
      try (apply handleAbort_no_instance; intros i; rewrite Hid; discriminate).
    now apply handleAbort_evolves.
Qed.


Lemma evolves_kept (i0 i : string) (w w' : World) :
  evolves i0 w w' ->
  (forall t, started_at (readMeta w i) = Some t -> nonempty t = true ->
     started_at (readMeta w' i) = Some t)
  /\ (js_truthy (owner (readMeta w i)) = true -> owner (readMeta w' i) = owner (readMeta w i))
  /\ (gen_of w i <= gen_of w' i)%Z.
Proof.
  intros (Hc & Hm & Hd & Hs & Ho & Hg).
  destruct (decide (i = i0)) as [-> | Hne]; [auto |].
  unfold gen_of, readMeta. rewrite (Hm i Hne). repeat split; auto; lia.
Qed.

(** X2. Over any sequence of requests, whatever they are about, the
    [started_at] of an instance stays once it is set, its [owner] stays once
    it is set, and its [gen_count] never goes down. *)
Theorem started_at_and_owner_survive (env : Env) (w w' : World) (i : string) :
  rtc (served env) w w' ->
  (forall t, started_at (readMeta w i) = Some t -> nonempty t = true ->
     started_at (readMeta w' i) = Some t)
  /\ (js_truthy (owner (readMeta w i)) = true -> owner (readMeta w' i) = owner (readMeta w i))
  /\ (gen_of w i <= gen_of w' i)%Z.
Proof.
  induction 1 as [w | w w1 w' [q ->] _ IH].
  - repeat split; auto; lia.
  - assert (Hstep : (forall t, started_at (readMeta w i) = Some t -> nonempty t = true ->
                       started_at (readMeta (settle (serve env q w)) i) = Some t)
                    /\ (js_truthy (owner (readMeta w i)) = true ->
                          owner (readMeta (settle (serve env q w)) i) = owner (readMeta w i))
                    /\ (gen_of w i <= gen_of (settle (serve env q w)) i)%Z).
    { pose proof (serve_evolves env q w) as H.
      destruct (target env q w) as [i0 |]; [now apply (evolves_kept i0) |].
      rewrite H. repeat split; auto; lia. }
    destruct Hstep as (Hs & Ho & Hg). destruct IH as (Hs' & Ho' & Hg').
    repeat split.
    + intros t Ht Hne. apply Hs'; auto.
    + intros Hown. rewrite Ho'; [auto |]. rewrite Ho; auto.
    + lia.
Qed.

Lemma started_at_and_owner_survive_witness :
  let w1 := settle (serve env_ok (AbortRequest (abort_by_alice "r0-r1")) world_waiting) in
  let w2 := settle (serve env_ok (NewSend (JObj [("instance_id", JStr "r0-r1");
                                                ("username", JStr "bob");
                                                ("instructions", JStr "Again");
                                                ("subject", JStr "Hi");
                                                ("to", JArr [JStr "a@x.com"])])) w1) in
  started_at (readMeta w2 "r0-r1") = Some "T3"
  /\ owner (readMeta w2 "r0-r1") = JStr "alice".
Proof.
  intros w1 w2.
  assert (Hrun : rtc (served env_ok) world_waiting w2).
  { apply (rtc_l _ _ w1); [eexists; reflexivity |]. apply rtc_once. eexists; reflexivity. }
  destruct (started_at_and_owner_survive env_ok world_waiting w2 "r0-r1" Hrun) as (Hs & Ho & _).
  split; [apply Hs; reflexivity | now rewrite Ho].
Defined.

(** X3. An abort request without a valid instance id or without a user
    name is answered 400 with the reason, the instance id being looked at
    first, and nothing is written or logged. *)
Theorem abort_rejects_before_writing (env : Env) (body : jsval) (w : World) :
  let b := body ||| JObj [] in
  validateInstanceId (js_get b "instance_id") = false
  \/ js_truthy (js_get b "username") = false ->
  let h := handleAbort env body w in
  settle h = w
  /\ reply h = sendJson 400
       (error_body (if validateInstanceId (js_get b "instance_id")
                    then "username_required" else "instance_id_required")).
Proof.
  intros b Hbad h. subst h b. unfold handleAbort.
  destruct (js_get (body ||| JObj []) "instance_id") eqn:Hid; try (now split).
  destruct (validateInstanceId (JStr s)) eqn:Hv; cbn [negb]; [| now split].
  destruct Hbad as [Hbad | Hbad]; [discriminate |]. rewrite Hbad. now split.
Qed.

Lemma abort_rejects_before_writing_witness :
  settle (handleAbort env_ok (JObj [("instance_id", JStr "r0-r1")]) world_waiting)
  = world_waiting.
Proof.
  apply (abort_rejects_before_writing env_ok (JObj [("instance_id", JStr "r0-r1")])
           world_waiting).
  right. reflexivity.
Defined.

(** X4. A review callback whose outcome is none of approve, reject and
    modify changes no record, no draft and no configuration and calls no
    collaborator. Answered synchronously it is a 400 with the detail
    [unknown_hitl_result]; answered asynchronously it is a 202 and the failure
    goes to the instance's local log. *)
Theorem unknown_outcome_changes_nothing (env : Env) (b : CallbackBody) (w : World)
    (i : string) :
  cb_instance_id b = JStr i ->
  validateInstanceId (JStr i) = true ->
  action_of b <> "approve" -> action_of b <> "reject" -> action_of b <> "modify" ->
  let h := handleHitlCallback env b w in
  metas (settle h) = metas w
  /\ keeps_store w (settle h)
  /\ (cb_async b = false ->
        reply h = sendJson 400 (JObj [("error", JStr "hitl_callback_failed");
                                      ("detail", JStr "unknown_hitl_result")]))
  /\ (cb_async b = true ->
        code (reply h) = 202%Z
        /\ In (i, "compose", "hitl-callback async error: unknown_hitl_result")
             (locallog (settle h))).
Proof.
  intros Hid Hvalid Ha Hr Hm h. subst h.
  apply String.eqb_neq in Ha, Hr, Hm.
  destruct (resolve_trace_id_spec env (JStr (cb_trace_id b)) w)
    as (tr & w1 & Htr & Hm1 & (Hc1 & Hd1 & Hcf1) & _).
  unfold handleHitlCallback. rewrite Hid, Hvalid, Htr. cbn [negb].
  unfold handler. rewrite Ha, Hr, Hm.
  unfold settle, keeps_store, try_catch, appendLocalLog, logEvent, bind, gets, throw, modify.
  destruct (cb_async b); cbn; rewrite Hm1, Hc1, Hd1, Hcf1; repeat split; try discriminate.
  rewrite !in_app_iff. right. now left.
Qed.

Lemma unknown_outcome_changes_nothing_witness :
  metas (settle (handleHitlCallback env_ok (callback "r0-r1" "Postpone" "") world_waiting))
  = metas world_waiting.
Proof.
  assert (Hact : action_of (callback "r0-r1" "Postpone" "") = "postpone") by reflexivity.
  destruct (unknown_outcome_changes_nothing env_ok (callback "r0-r1" "Postpone" "")
              world_waiting "r0-r1" eq_refl eq_refl) as (Hm & _);
    [rewrite Hact; discriminate .. | exact Hm].
Defined.



(** *** The events *)

Section Tags.
Variable env : Env.
Variables (i : string) (user tr : jsval).
Hypothesis user_truthy : js_truthy user = true.
Hypothesis tr_truthy : js_truthy tr = true.

Lemma logs_tagged_refl (w : World) : logs_tagged i user tr w w.
Proof. exists []. split; [now rewrite app_nil_r | constructor]. Qed.

Lemma logs_tagged_trans (w1 w2 w3 : World) :
  logs_tagged i user tr w1 w2 -> logs_tagged i user tr w2 w3 -> logs_tagged i user tr w1 w3.
Proof.
  intros (l1 & H1 & F1) (l2 & H2 & F2). exists (l1 ++ l2).
  split; [now rewrite H2, H1, app_assoc | now apply Forall_app].
Qed.

Lemma logs_tagged_same_events (w w' : World) :
  events w' = events w -> logs_tagged i user tr w w'.
Proof. intros H. exists []. split; [now rewrite app_nil_r | constructor]. Qed.

Lemma tagged_logEvent (lvl ty msg : string) :
  steps (logs_tagged i user tr) (logEvent SERVICE lvl ty msg i user tr).
Proof.
  intros w. eexists [_]. split; [reflexivity |]. repeat constructor.
Qed.

Lemma tagged_appendLocalLog (j s msg : string) :
  steps (logs_tagged i user tr) (appendLocalLog j s msg).
Proof. intros w. now apply logs_tagged_same_events. Qed.

Lemma tagged_now : steps (logs_tagged i user tr) (now env).
Proof. intros w. now apply logs_tagged_same_events. Qed.

Lemma tagged_read_random : steps (logs_tagged i user tr) (read_random env).
Proof. intros w. now apply logs_tagged_same_events. Qed.

Lemma tagged_callEmailAgent (req : EmailReq) :
  steps (logs_tagged i user tr) (callEmailAgent env req).
Proof.
  intros w. unfold callEmailAgent.
  destruct (email_agent env w req); now apply logs_tagged_same_events.
Qed.

Lemma tagged_callAuthorAgent (req : AuthorReq) :
  steps (logs_tagged i user tr) (callAuthorAgent env req).
Proof.
  intros w. unfold callAuthorAgent.
  destruct (author_agent env w req); now apply logs_tagged_same_events.
Qed.

Lemma tagged_callHitlAgent (j html : string) (cfg : jsval) (loop : Z) :
  steps (logs_tagged i user tr) (callHitlAgent env j html cfg loop).
Proof.
  intros w. unfold callHitlAgent, bind, appendLocalLog, modify. cbn.
  destruct (hitl_agent env _ _); now apply logs_tagged_same_events.
Qed.

Lemma tagged_updateMeta (j : string) (f : Meta -> Meta) :
  steps (logs_tagged i user tr) (updateMeta j (fun prev => ret (f prev))).
Proof. intros w. now apply logs_tagged_same_events. Qed.

Lemma tagged_markInstanceActive (j : string) (u : jsval) :
  steps (logs_tagged i user tr) (markInstanceActive env j u).
Proof.
  intros w. unfold markInstanceActive, updateMeta, writeJsonSafe, appendLocalLog, now,
    bind, gets, ret, modify. cbn.
  destruct (falsy_time _); cbn; now apply logs_tagged_same_events.
Qed.

Ltac tagged_prim0 :=
  idtac;
  lazymatch goal with
  | |- steps _ (logEvent _ _ _ _ _ _ _) => apply tagged_logEvent
  | |- steps _ (appendLocalLog _ _ _) => apply tagged_appendLocalLog
  | |- steps _ (now _) => apply tagged_now
  | |- steps _ (read_random _) => apply tagged_read_random
  | |- steps _ (callEmailAgent _ _) => apply tagged_callEmailAgent
  | |- steps _ (callAuthorAgent _ _) => apply tagged_callAuthorAgent
  | |- steps _ (callHitlAgent _ _ _ _ _) => apply tagged_callHitlAgent
  | |- steps _ (updateMeta _ _) => apply tagged_updateMeta
  | |- steps _ (markInstanceActive _ _ _) => apply tagged_markInstanceActive
  end.

Lemma tagged_abortInstance (note : string) :
  steps (logs_tagged i user tr) (abortInstance env i user tr note).
Proof.
  intros w. unfold abortInstance. rewrite tr_truthy, (js_or_truthy user _ user_truthy).
  unfold updateMeta, writeJsonSafe, appendLocalLog, logEvent, now, bind, gets, ret, modify.
  cbn. destruct (nonempty note); cbn; (eexists [_]; split; [reflexivity |]);
    repeat constructor.
Qed.

Lemma tagged_finishAs (st : Status) (msg : string) :
  steps (logs_tagged i user tr) (finishAs env i user tr st msg).
Proof.
  unfold finishAs. steps_with logs_tagged_refl logs_tagged_trans ltac:(tagged_prim0).
Qed.

Lemma tagged_submitHitlAndHandle (html : string) (cfg : jsval) (loop : Z) (abortOnFail : bool) :
  steps (logs_tagged i user tr) (submitHitlAndHandle env i user html cfg loop tr abortOnFail).
Proof.
  unfold submitHitlAndHandle. cbn zeta.
  steps_with logs_tagged_refl logs_tagged_trans
    ltac:(idtac; lazymatch goal with
          | |- steps _ (abortInstance _ _ _ _ _) => apply tagged_abortInstance
          | |- _ => tagged_prim0
          end).
Qed.

Ltac tagged_prim :=
  idtac;
  lazymatch goal with
  | |- steps _ (abortInstance _ _ _ _ _) => apply tagged_abortInstance
  | |- steps _ (finishAs _ _ _ _ _ _) => apply tagged_finishAs
  | |- steps _ (submitHitlAndHandle _ _ _ _ _ _ _ _) => apply tagged_submitHitlAndHandle
  | |- _ => tagged_prim0
  end.

Lemma tagged_handler (b : CallbackBody) (act : string) :
  steps (logs_tagged i user tr) (handler env b i act user tr).
Proof.
  unfold handler. cbn zeta.
  steps_with logs_tagged_refl logs_tagged_trans ltac:(tagged_prim).
Qed.

Lemma tagged_runFlow (instr base : jsval) (merged : Merged) :
  steps (logs_tagged i user tr) (runFlow env i user instr base merged tr).
Proof.
  unfold runFlow. cbn zeta.
  steps_with logs_tagged_refl logs_tagged_trans ltac:(tagged_prim).
Qed.

Lemma tagged_launch : steps (logs_tagged i user tr) (launch env i user tr).
Proof.
  unfold launch. steps_with logs_tagged_refl logs_tagged_trans ltac:(tagged_prim).
Qed.

End Tags.

Lemma resolve_trace_id_truthy (env : Env) (t : jsval) (w : World) :
  (forall n, nonempty (random env n) = true) ->
  js_truthy (resolve_trace_id env t w).1 = true
  /\ (js_truthy t = true -> (resolve_trace_id env t w).1 = t).
Proof.
  intros Hrnd. unfold resolve_trace_id.
  destruct (js_truthy t) eqn:Ht; cbn; [now split |].
  split; [apply Hrnd | discriminate].
Qed.

(** A valid send, in either mode, comes down to its flow run under a handler
    that logs the error. *)
Lemma handleComposeSend_settle (env : Env) (payload : jsval) (w : World) :
  validation_error env payload w = None ->
  let p := payload ||| JObj [] in
  exists i tr w3 w4,
    send_target env p w = (i, tr, w3)
    /\ js_truthy (js_get p "username") = true
    /\ launch env i (js_get p "username") tr w3 = (Ok tt, w4)
    /\ settle (handleComposeSend env payload w)
       = (try_catch
            (run runFlow env i (js_get p "username") (js_get p "instructions")
                   (base_html_of p) (mergeConfig w i p) tr;;
             ret tt)
            (fun msg =>
               logEvent SERVICE "error" "record"
                 ((match js_get payload "async" with
                   | JBool true => "Compose async error: "
                   | _ => "Compose error: "
                   end) +:+ err_text msg)
                 i (js_get p "username") tr) w4).2.
Proof.
  intros Hvalid p.
  destruct (validation_error_None env payload w Hvalid)
    as (i & tr & w3 & Htarget & Huser & Hinstr & Hsubj & Hrcpt).
  fold p in Htarget, Huser, Hinstr, Hsubj, Hrcpt.
  destruct (send_target_spec env p w) as (i' & tr' & w3' & Ht' & Hm3 & (Hc3 & Hd3 & Hcf3) & _).
  rewrite Htarget in Ht'. inversion Ht'; subst i' tr' w3'. clear Ht'.
  destruct (launch_spec env i (js_get p "username") tr w3) as (w4 & m & Hlaunch & _).
  exists i, tr, w3, w4. split; [exact Htarget |]. split; [exact Huser |].
  split; [exact Hlaunch |].
  unfold handleComposeSend. fold p. rewrite Huser. cbn [negb].
  apply orb_true_iff in Hinstr.
  assert (Hno : negb (js_truthy (js_get p "instructions")) && negb (js_truthy (base_html_of p))
                = false).
  { destruct Hinstr as [-> | ->]; cbn; [reflexivity | apply andb_false_r]. }
  rewrite Hno, Htarget.
  rewrite (mergeConfig_configs w w3) by exact Hcf3.
  rewrite Hsubj. cbn [negb].
  destruct (requireRecipients _ _ _) as [rc |]; [| congruence].
  rewrite Hlaunch. cbn [snd].
  destruct (js_get payload "async") as [| | [|] | | | |] eqn:Hasync;
    unfold settle, try_catch, bind; cbn [task after];
    try reflexivity;
    destruct (runFlow env i _ _ _ _ tr w4) as [[res | msg] w5]; reflexivity.
Qed.

Lemma handleComposeSend_tagged (env : Env) (payload : jsval) (w : World) :
  (forall n, nonempty (random env n) = true) ->
  let p := payload ||| JObj [] in
  let '(i, tr, _) := send_target env p w in
  logs_tagged i (js_get p "username") tr w (settle (handleComposeSend env payload w)).
Proof.
  intros Hrnd p.
  destruct (validation_error env payload w) as [reason |] eqn:Hv.
  - destruct (handleComposeSend_rejects env payload w reason Hv)
      as (w' & -> & _ & _ & He & _).
    destruct (send_target env p w) as [[i tr] w3].
    unfold settle. cbn. now apply logs_tagged_same_events.
  - destruct (handleComposeSend_settle env payload w Hv)
      as (i & tr & w3 & w4 & Htarget & Huser & Hlaunch & ->).
    fold p in Htarget, Huser, Hlaunch |- *. rewrite Htarget.
    destruct (send_target_spec env p w) as (i' & tr' & w3' & Ht' & _ & _ & He3 & _).
    rewrite Htarget in Ht'. inversion Ht'; subst i' tr' w3'. clear Ht'.
    assert (Htr : js_truthy tr = true).
    { unfold send_target in Htarget.
      destruct (resolve_instance_id env _ w) as [i0 w1].
      pose proof (resolve_trace_id_truthy env (js_get p "trace_id") w1 Hrnd) as [H _].
      destruct (resolve_trace_id env _ w1) as [tr0 w2]. now inversion Htarget; subst. }
    apply (logs_tagged_trans _ _ _ w w3); [now apply logs_tagged_same_events |].
    apply (logs_tagged_trans _ _ _ w3 w4).
    { pose proof (tagged_launch env i (js_get p "username") tr w3) as H.
      now rewrite Hlaunch in H. }
    apply steps_try_catch; [apply logs_tagged_trans | | intros msg; apply tagged_logEvent].
    apply steps_bind; [apply logs_tagged_trans | | intros ?; apply steps_ret, logs_tagged_refl].
    now apply tagged_runFlow.
Qed.


Lemma callback_user_truthy (b : CallbackBody) : js_truthy (callback_user b) = true.
Proof.
  unfold callback_user, str_or. cbn.
  destruct (nonempty (trim _)) eqn:H; [exact H | reflexivity].
Qed.

(** X6. When the random source gives non-empty strings, every event a
    request logs carries the orchestrator's service name, the instance the
    request is about, the user of the request and one and the same trace id,
    which is the one the request brought when it brought one. *)
Theorem events_carry_the_request_tags (env : Env) (q : Trigger) (w : World) (i : string) :
  (forall n, nonempty (random env n) = true) ->
  target env q w = Some i ->
  exists tr,
    logs_tagged i (requester q) tr w (settle (serve env q w))
    /\ (js_truthy (supplied_trace q) = true -> tr = supplied_trace q).
Proof.
  intros Hrnd Ht. destruct q as [payload | b | body]; cbn [target serve requester supplied_trace] in *.
  - pose proof (handleComposeSend_tagged env payload w Hrnd) as H. cbn zeta in H.
    set (p := payload ||| JObj []) in *.
    assert (Htr : js_truthy (js_get p "trace_id") = true ->
                  (send_target env p w).1.2 = js_get p "trace_id").
    { unfold send_target. destruct (resolve_instance_id env _ w) as [i0 w1].
      pose proof (resolve_trace_id_truthy env (js_get p "trace_id") w1 Hrnd) as [_ Hsup].
      destruct (resolve_trace_id env _ w1) as [tr0 w2]. exact Hsup. }
    destruct (send_target env p w) as [[i' tr] w3]. cbn in Ht, Htr. inversion Ht; subst i'.
    exists tr. now split.
  - destruct (cb_instance_id b) eqn:Hid; try discriminate. inversion Ht; subst s. clear Ht.
    destruct (validateInstanceId (JStr i)) eqn:Hvalid.
    2:{ exists (resolve_trace_id env (JStr (cb_trace_id b)) w).1.
        split; [| apply resolve_trace_id_truthy, Hrnd].
        unfold handleHitlCallback. rewrite Hid, Hvalid. apply logs_tagged_refl. }
    destruct (handleHitlCallback_modes env b w i Hid Hvalid) as (tr & w1 & Htr & Hmodes).
    destruct (resolve_trace_id_spec env (JStr (cb_trace_id b)) w)
      as (tr' & w1' & Htr' & _ & _ & He1 & _).
    rewrite Htr in Htr'. inversion Htr'; subst tr' w1'. clear Htr'.
    pose proof (resolve_trace_id_truthy env (JStr (cb_trace_id b)) w Hrnd) as [Htruthy Hsup].
    rewrite Htr in Htruthy, Hsup. cbn [fst] in Htruthy, Hsup.
    destruct (handler env b i (action_of b) (callback_user b) tr w1) as [r w2] eqn:Hrun.
    destruct (Hmodes r w2 eq_refl) as (_ & _ & Hes & _).
    exists tr. split; [| exact Hsup].
    apply (logs_tagged_trans _ _ _ w w1); [now apply logs_tagged_same_events |].
    apply (logs_tagged_trans _ _ _ w1 w2); [| now apply logs_tagged_same_events].
    pose proof (tagged_handler env i (callback_user b) tr (callback_user_truthy b) Htruthy
                  b (action_of b) w1) as H.
    now rewrite Hrun in H.
  - set (p := body ||| JObj []) in *.
    destruct (js_get p "instance_id") eqn:Hid; try discriminate. inversion Ht; subst s. clear Ht.
    pose proof (resolve_trace_id_truthy env (js_get p "trace_id") w Hrnd) as [Htruthy Hsup].
    exists (resolve_trace_id env (js_get p "trace_id") w).1. split; [| exact Hsup].
    unfold handleAbort. fold p. rewrite Hid.
    destruct (validateInstanceId (JStr i)); cbn [negb]; [| apply logs_tagged_refl].
    destruct (js_truthy (js_get p "username")) eqn:Huser; cbn [negb]; [| apply logs_tagged_refl].
    destruct (resolve_trace_id_spec env (js_get p "trace_id") w)
      as (tr & w1 & Htr & _ & _ & He1 & _).
    rewrite Htr in Htruthy |- *. cbn [fst] in Htruthy |- *.
    unfold settle. cbn [task after].
    apply (logs_tagged_trans _ _ _ w w1); [now apply logs_tagged_same_events |].
    now apply tagged_abortInstance.
Qed.

Lemma events_carry_the_request_tags_witness :
  exists tr,
    logs_tagged "r0-r1" (JStr "unknown") tr world_waiting
      (settle (serve env_ok (ReviewCallback (callback "r0-r1" "approve" "")) world_waiting)).
Proof.
  destruct (events_carry_the_request_tags env_ok
              (ReviewCallback (callback "r0-r1" "approve" "")) world_waiting "r0-r1")
    as (tr & H & _); [intros n; reflexivity | reflexivity |].
  exists tr. exact H.
Defined.

(** X7. A valid send whose draft the author agent writes, but whose review
    cannot be submitted, leaves the instance active: the draft is on disk, the
    author agent and the review agent have been called once each and in that
    order, and the synchronous answer is the failure of the submission. *)
Theorem send_review_unreachable_stays_active (env : Env) (payload : jsval) (w : World)
    (i : string) (tr : jsval) (w3 : World) :
  let p := payload ||| JObj [] in
  let merged := mergeConfig w i p in
  send_target env p w = (i, tr, w3) ->
  js_truthy (js_get p "username") = true ->
  js_truthy (js_get p "instructions") || js_truthy (js_get p "regen_base_html") = true ->
  js_truthy (subject merged) = true ->
  ~ lacks_recipient merged ->
  let areq := mkAuthorReq i (js_get p "username") (js_get p "instructions")
                (base_html_of p) (subject merged) tr in
  let h := handleComposeSend env payload w in
  let w' := settle h in
  let g := (gen_of w i + 1)%Z in
  exists Wa,
    keeps_store w Wa
    /\ forall html, author_agent env Wa areq = AuthorReplied html ->
         let hreq := mkHitlReq i html
                       (hitl_config (loadInstanceConfig w i ||| JObj []) ||| JObj [])
                       ((if (g =? 0)%Z then 0 else g - 1) + 1)%Z in
         exists Wh,
           readLatestEmailHtml Wh i = html
           /\ forall msg, hitl_agent env Wh hreq = HitlUnreachable msg ->
                status_of w' i = Some Active
                /\ calls w' = calls w ++ [CallAuthor areq; CallHitl hreq]
                /\ (js_get payload "async" <> JBool true ->
                      reply h = send_reply i tr (Throw msg)).
Proof.
  intros p merged Htarget Huser Hinstr Hsubj Hrcpt areq h w' g.
  destruct (send_lifecycle env payload w i tr w3 Htarget Huser Hinstr Hsubj Hrcpt)
    as (Wa & _ & _ & HkA & _ & Hout).
  fold p merged areq h w' g in HkA, Hout.
  exists Wa. split; [exact HkA |].
  intros html Ha. rewrite Ha in Hout. cbn zeta in Hout.
  destruct Hout as (Wh & _ & Hdraft & Hcalls & Hout).
  exists Wh. split; [exact Hdraft |].
  intros msg Hh. rewrite Hh in Hout. destruct Hout as [Hst Hreply].
  split; [exact Hst |]. split; [exact Hcalls | exact Hreply].
Qed.

Lemma send_review_unreachable_stays_active_witness :
  let h := handleComposeSend env_review_down send_alice world0 in
  status_of (settle h) "r0-r1" = Some Active /\ code (reply h) = 502%Z.
Proof.
  intros h.
  assert (Hrcpt : ~ lacks_recipient (mergeConfig world0 "r0-r1" (send_alice ||| JObj []))).
  { intros H. specialize (H (JArr [JStr "a@x.com"]) [JStr "a@x.com"] (JStr "a@x.com")
                            (or_introl eq_refl) eq_refl (or_introl eq_refl)).
    discriminate. }
  destruct (send_review_unreachable_stays_active env_review_down send_alice world0
              "r0-r1" (JStr "r2") (add_dir "r0-r1" (bump_tick (bump_tick (bump_tick world0))))
              eq_refl eq_refl eq_refl eq_refl Hrcpt)
    as (Wa & _ & Hrun).
  destruct (Hrun "<html>H1</html>" eq_refl) as (Wh & _ & Hdown).
  destruct (Hdown "fetch failed" eq_refl) as (Hst & _ & Hreply).
  fold h in Hst, Hreply. split; [exact Hst |].
  rewrite Hreply; [reflexivity | discriminate].
Defined.


(** ** The drafts the author agent keeps *)

(** The [while] loop of [rotateEmailFiles] passes over occupied slots only. *)
Lemma first_free_least (dir : gmap nat string) (k : nat) :
  (1 <= k < AuthorAgent.first_free dir)%nat -> is_Some (dir !! k).
Proof.
  unfold AuthorAgent.first_free. intros [Hk1 Hk].
  destruct (dir !! k) eqn:Hl; [eauto |]. exfalso.
  assert (Hbound : forall a len,
             (a <= k < a + len)%nat ->
             exists n, head (List.filter (fun n => bool_decide (dir !! n = None)) (seq a len))
                       = Some n /\ (n <= k)%nat).
  { intros a len. revert a. induction len as [| len IH]; intros a Ha; [lia |].
    cbn. destruct (bool_decide (dir !! a = None)) eqn:Hd.
    - exists a. split; [reflexivity | lia].
    - destruct (decide (a = k)) as [-> | Hne].
      + rewrite Hl in Hd. now rewrite bool_decide_eq_true_2 in Hd.
      + apply IH. lia. }
  destruct (head _) as [n |] eqn:Hhead; cbn in Hk.
  - pose proof Hhead as Hin.
    apply head_Some_elem_of, list_elem_of_In, List.filter_In in Hin.
    destruct Hin as [Hin _]. apply in_seq in Hin.
    destruct (Hbound 1%nat (S (size dir))) as (n' & Hn' & Hle); [lia |].
    rewrite Hhead in Hn'. inversion Hn'. lia.
  - destruct (Hbound 1%nat (S (size dir))) as (n' & Hn' & Hle); [lia |].
    rewrite Hhead in Hn'. discriminate.
Qed.

Lemma first_free_positive (dir : gmap nat string) : (1 <= AuthorAgent.first_free dir)%nat.
Proof.
  unfold AuthorAgent.first_free. destruct (head _) as [n |] eqn:Hhead; cbn; [| lia].
  apply head_Some_elem_of, list_elem_of_In, List.filter_In in Hhead.
  destruct Hhead as [Hin _]. apply in_seq in Hin. lia.
Qed.

(** Renaming slot [a + len - 1] to [a + len], then the one below it, down
    to slot [a], moves each of these files one slot up. *)
Lemma shift_up_lookup (dir : gmap nat string) (len a k : nat) :
  (forall j, (a <= j < a + len)%nat -> is_Some (dir !! j)) ->
  dir !! (a + len)%nat = None ->
  fold_right (fun i d => AuthorAgent.rename i (S i) d) dir (seq a len) !! k
  = if decide (k < a)%nat then dir !! k
    else if decide (k = a) then None
    else if decide (k <= a + len)%nat then dir !! (k - 1)%nat
    else dir !! k.
Proof.
  revert a k. induction len as [| len IH]; intros a k Hocc Hfree.
  - cbn. rewrite Nat.add_0_r in Hfree.
    repeat case_decide; subst; try lia; auto.
  - cbn [seq fold_right].
    set (R' := fold_right (fun i d => AuthorAgent.rename i (S i) d) dir (seq (S a) len)).
    assert (HR' : forall j, R' !! j
                  = if decide (j < S a)%nat then dir !! j
                    else if decide (j = S a) then None
                    else if decide (j <= S a + len)%nat then dir !! (j - 1)%nat
                    else dir !! j).
    { intros j. apply IH.
      - intros j' Hj'. apply Hocc. lia.
      - replace (S a + len)%nat with (a + S len)%nat by lia. exact Hfree. }
    destruct (Hocc a) as [c Hc]; [lia |].
    assert (Ha : R' !! a = Some c).
    { rewrite HR'. rewrite decide_True by lia. exact Hc. }
    unfold AuthorAgent.rename. rewrite Ha.
    destruct (decide (k = S a)) as [-> | Hk1].
    { rewrite lookup_insert_eq. repeat case_decide; try lia.
      now replace (S a - 1)%nat with a by lia. }
    rewrite lookup_insert_ne by congruence.
    destruct (decide (k = a)) as [-> | Hk2].
    { rewrite lookup_delete_eq. repeat case_decide; try lia; reflexivity. }
    rewrite lookup_delete_ne by congruence. rewrite HR'.
    repeat case_decide; try lia; reflexivity.
Qed.

Lemma rotateEmailFiles_as_shift (dir : gmap nat string) (c : string) :
  dir !! 0%nat = Some c ->
  AuthorAgent.rotateEmailFiles dir
  = fold_right (fun i d => AuthorAgent.rename i (S i) d) dir
      (seq 0 (AuthorAgent.first_free dir)).
Proof.
  intros H0. unfold AuthorAgent.rotateEmailFiles. rewrite H0.
  pose proof (first_free_positive dir) as Hpos.
  destruct (AuthorAgent.first_free dir) as [| n]; [lia |].
  cbn [seq fold_right]. replace (S n - 1)%nat with n by lia.
  f_equal. rewrite <- (rev_involutive (seq 1 n)) at 2.
  now rewrite fold_left_rev_right.
Qed.

(** Where the files of a directory are after [rotateEmailFiles]. *)
Lemma rotateEmailFiles_slots (dir : gmap nat string) :
  (dir !! 0%nat = None -> AuthorAgent.rotateEmailFiles dir = dir)
  /\ (is_Some (dir !! 0%nat) ->
        AuthorAgent.rotateEmailFiles dir !! 0%nat = None
        /\ AuthorAgent.rotateEmailFiles dir !! 1%nat = dir !! 0%nat
        /\ (forall k content,
              dir !! k = Some content ->
              AuthorAgent.rotateEmailFiles dir !! rotated_slot dir k = Some content)
        /\ (forall k' content,
              AuthorAgent.rotateEmailFiles dir !! k' = Some content ->
              exists k, rotated_slot dir k = k' /\ dir !! k = Some content)).
Proof.
  split.
  - intros H0. unfold AuthorAgent.rotateEmailFiles. now rewrite H0.
  - intros [c H0]. rewrite (rotateEmailFiles_as_shift dir c H0).
    pose proof (first_free_positive dir) as Hpos.
    pose proof (first_free_is_free dir) as Hfree.
    assert (Hocc : forall j, (0 <= j < 0 + AuthorAgent.first_free dir)%nat -> is_Some (dir !! j)).
    { intros j Hj. destruct (decide (j = 0%nat)) as [-> | Hne]; [eauto |].
      apply first_free_least. lia. }
    repeat match goal with |- _ /\ _ => split end.
    + rewrite shift_up_lookup by assumption. repeat case_decide; try lia; reflexivity.
    + rewrite shift_up_lookup by assumption. repeat case_decide; try lia; reflexivity.
    + intros k content Hk. rewrite shift_up_lookup by assumption. unfold rotated_slot.
      destruct (decide (k < AuthorAgent.first_free dir)%nat) as [Hlt | Hge].
      * repeat case_decide; try lia. now replace (S k - 1)%nat with k by lia.
      * assert (Hne : k <> AuthorAgent.first_free dir) by (intros ->; congruence).
        repeat case_decide; try lia; assumption.
    + intros k' content. rewrite shift_up_lookup by assumption. unfold rotated_slot.
      repeat case_decide; try lia; try discriminate; intros Hk'.
      * exists (k' - 1)%nat. split; [| exact Hk']. rewrite decide_True by lia. lia.
      * exists k'. split; [| exact Hk']. rewrite decide_False by lia. reflexivity.
Qed.

(** X8. [rotateEmailFiles] loses no draft and invents none. Without a current
    draft it does nothing. With one, the current draft becomes [email-1], each
    numbered draft below the first free number moves one number up, the
    drafts above it stay where they are, the current slot is left empty, and
    every file afterwards is one of the files before. *)
Theorem rotateEmailFiles_keeps_every_draft (dir : gmap nat string) :
  (dir !! 0%nat = None -> AuthorAgent.rotateEmailFiles dir = dir)
  /\ (is_Some (dir !! 0%nat) ->
        AuthorAgent.rotateEmailFiles dir !! 0%nat = None
        /\ AuthorAgent.rotateEmailFiles dir !! 1%nat = dir !! 0%nat
        /\ (forall k content,
              dir !! k = Some content ->
              AuthorAgent.rotateEmailFiles dir !! rotated_slot dir k = Some content)
        /\ (forall k' content,
              AuthorAgent.rotateEmailFiles dir !! k' = Some content ->
              exists k, rotated_slot dir k = k' /\ dir !! k = Some content)).
Proof. exact (rotateEmailFiles_slots dir). Qed.

(** A directory with [email.html], [email-1.html] and [email-3.html]: the
    first two move up, the third stays. *)
Lemma rotateEmailFiles_keeps_every_draft_witness :
  let dir : gmap nat string := {[0%nat := "new"; 1%nat := "old"; 3%nat := "older"]} in
  AuthorAgent.rotateEmailFiles dir !! 0%nat = None
  /\ AuthorAgent.rotateEmailFiles dir !! 1%nat = Some "new".
Proof.
  intros dir.
  destruct (proj2 (rotateEmailFiles_keeps_every_draft dir)) as (H0 & H1 & _).
  - exists "new". reflexivity.
  - split; [exact H0 | exact H1].
Defined.

Section AuthorDrafts.
Variable promptText : string -> string.
Variable configuredModel : string -> string.
Variable generateHtmlWithLLM : string -> string -> AuthorAgent.LlmOutcome.
Variable jsonContract : string.
Variable cleanHtmlOutput : string -> string.
Variable parseLlmJson : string -> option (string * jsval).

Local Abbreviation generate :=
  (AuthorAgent.handleGenerate promptText configuredModel generateHtmlWithLLM jsonContract
     cleanHtmlOutput parseLlmJson).

(** X9. A valid generate request is answered 200, and the HTML of the answer
    is what is written to [email.html] and what the appended trace entry holds
    as its answer, next to the prompt that was built. The draft that was
    current is at [email-1], every older draft is at its number or the next,
    and the traces of the instance grow by that one entry. *)
Theorem generate_files_its_answer (payload : AuthorAgent.GenerateReq)
    (d : AuthorAgent.Disk) (i : string) :
  AuthorAgent.g_instance_id payload = JStr i ->
  validateInstanceId (JStr i) = true ->
  js_truthy (AuthorAgent.g_username payload) = true ->
  let answer := fst (generate payload d) in
  let d' := snd (generate payload d) in
  let before := default ∅ (AuthorAgent.email_files d !! i) in
  let prompt := AuthorAgent.prompt
                  (AuthorAgent.buildPrompt jsonContract (AuthorAgent.g_instructions payload)
                     (AuthorAgent.g_base_html payload) (promptText i)) in
  exists html after entry,
    AuthorAgent.code answer = 200%Z
    /\ js_get (AuthorAgent.body answer) "html" = JStr html
    /\ AuthorAgent.email_files d' !! i = Some after
    /\ after !! 0%nat = Some html
    /\ (forall c, before !! 0%nat = Some c -> after !! 1%nat = Some c)
    /\ (forall k c, before !! k = Some c -> (0 < k)%nat ->
          after !! k = Some c \/ after !! S k = Some c)
    /\ AuthorAgent.llm_traces d' !! i
       = Some (default [] (AuthorAgent.llm_traces d !! i) ++ [entry])
    /\ AuthorAgent.t_answer entry = html
    /\ AuthorAgent.t_prompt entry = prompt.
Proof.
  intros Hid Hvalid Huser answer d' before prompt. subst answer d'.
  unfold AuthorAgent.handleGenerate. rewrite Hid, Hvalid, Huser. cbn [negb].
  fold before. fold prompt.
  assert (Hkeep : forall html,
             (forall c, before !! 0%nat = Some c ->
                <[0%nat := html]> (AuthorAgent.rotateEmailFiles before) !! 1%nat = Some c)
             /\ (forall k c, before !! k = Some c -> (0 < k)%nat ->
                   <[0%nat := html]> (AuthorAgent.rotateEmailFiles before) !! k = Some c
                   \/ <[0%nat := html]> (AuthorAgent.rotateEmailFiles before) !! S k = Some c)).
  { intros html. destruct (before !! 0%nat) as [c0 |] eqn:H0.
    - destruct (proj2 (rotateEmailFiles_slots before)) as (_ & H1 & Hall & _);
        [rewrite H0; eauto |].
      split.
      + intros c [= <-]. rewrite lookup_insert_ne by lia. now rewrite H1.
      + intros k c Hk Hpos. specialize (Hall k c Hk). unfold rotated_slot in Hall.
        destruct (decide (k < AuthorAgent.first_free before)%nat);
          [right | left]; rewrite lookup_insert_ne by lia; exact Hall.
    - rewrite (proj1 (rotateEmailFiles_slots before) H0).
      split; [intros c; discriminate |].
      intros k c Hk Hpos. left. now rewrite lookup_insert_ne by lia. }
  destruct (generateHtmlWithLLM i prompt) as [msg | res].
  - eexists _, _, _. cbn. rewrite !lookup_insert_eq.
    repeat match goal with |- _ /\ _ => split end;
      try reflexivity; try apply Hkeep; apply lookup_insert_eq.
  - destruct (parseLlmJson _) as [[ans r] |];
      (eexists _, _, _; cbn; rewrite !lookup_insert_eq;
       repeat match goal with |- _ /\ _ => split end;
       try reflexivity; try apply Hkeep; apply lookup_insert_eq).
Qed.

(** X10. A generate request without a valid instance id or without a user
    name is answered 400 with the reason, the instance id being looked at
    first, and the disk is left as it is: no draft is rotated, no trace is
    appended. *)
Theorem generate_rejects_before_writing (payload : AuthorAgent.GenerateReq)
    (d : AuthorAgent.Disk) :
  validateInstanceId (AuthorAgent.g_instance_id payload) = false
  \/ js_truthy (AuthorAgent.g_username payload) = false ->
  generate payload d
  = (AuthorAgent.send 400
       (JObj [("error",
               JStr (if validateInstanceId (AuthorAgent.g_instance_id payload)
                     then "username_required" else "instance_id_required"))]), d).
Proof.
  intros Hbad. unfold AuthorAgent.handleGenerate.
  destruct (AuthorAgent.g_instance_id payload) eqn:Hid; try reflexivity.
  destruct (validateInstanceId (JStr s)) eqn:Hv; cbn [negb]; [| reflexivity].
  destruct Hbad as [Hbad | Hbad]; [discriminate |]. now rewrite Hbad.
Qed.

End AuthorDrafts.

Lemma generate_files_its_answer_witness :
  let payload := AuthorAgent.mkGenerateReq (JStr "r0-r1") (JStr "alice") "Shorter" "" "Hi" JUndef in
  let d := AuthorAgent.mkDisk {["r0-r1" := {[0%nat := "<html>first</html>"]}]} ∅ [] [] in
  let d' := snd (AuthorAgent.handleGenerate (fun _ => "Write an email.") (fun _ => "")
                   (fun _ _ => AuthorAgent.LlmReturns
                                 (AuthorAgent.mkLlmResult "<html>second</html>" "m" JNull))
                   "contract" (fun s => s) (fun _ => None) payload d) in
  exists after,
    AuthorAgent.email_files d' !! "r0-r1" = Some after
    /\ after !! 1%nat = Some "<html>first</html>".
Proof.
  intros payload d d'.
  destruct (generate_files_its_answer (fun _ => "Write an email.") (fun _ => "")
              (fun _ _ => AuthorAgent.LlmReturns
                            (AuthorAgent.mkLlmResult "<html>second</html>" "m" JNull))
              "contract" (fun s => s) (fun _ => None) payload d "r0-r1"
              eq_refl eq_refl eq_refl)
    as (html & after & entry & _ & _ & Hfiles & _ & Hprev & _).
  exists after. split; [exact Hfiles |]. apply Hprev. reflexivity.
Defined.

Lemma generate_rejects_before_writing_witness :
  let payload := AuthorAgent.mkGenerateReq (JStr "  ") (JStr "alice") "Hello" "" "Hi" JUndef in
  let d := AuthorAgent.mkDisk ∅ ∅ [] [] in
  snd (AuthorAgent.handleGenerate (fun _ => "Write an email.") (fun _ => "")
         (fun _ _ => AuthorAgent.LlmThrows "down") "contract" (fun s => s) (fun _ => None)
         payload d) = d.
Proof.
  intros payload d.
  rewrite (generate_rejects_before_writing (fun _ => "Write an email.") (fun _ => "")
             (fun _ _ => AuthorAgent.LlmThrows "down") "contract" (fun s => s) (fun _ => None)
             payload d); [reflexivity |].
  left. reflexivity.
Defined.


(** ** Environment files *)

(** *** White space *)

Lemma trim_end_nonempty (c : ascii) (s : string) :
  is_ws c = false -> exists r, trim_end (String c s) = String c r.
Proof.
  intros Hc. cbn. destruct (trim_end s); [rewrite Hc |]; eauto.
Qed.

Lemma trim_end_idempotent (s : string) : trim_end (trim_end s) = trim_end s.
Proof.
  induction s as [| c s IH]; [reflexivity |].
  cbn. destruct (trim_end s) as [| c' r] eqn:Hr.
  - destruct (is_ws c) eqn:Hc; [reflexivity |]. cbn. now rewrite Hc.
  - cbn [trim_end] in IH |- *. cbn in IH. rewrite IH. reflexivity.
Qed.

Lemma trim_start_head (s : string) :
  trim_start s = "" \/ exists c r, trim_start s = String c r /\ is_ws c = false.
Proof.
  induction s as [| c s IH]; [now left |].
  cbn. destruct (is_ws c) eqn:Hc; [exact IH | right; eauto].
Qed.

Lemma trim_start_nonws (c : ascii) (s : string) :
  is_ws c = false -> trim_start (String c s) = String c s.
Proof. intros Hc. cbn. now rewrite Hc. Qed.

Lemma trim_idempotent (s : string) : trim (trim s) = trim s.
Proof.
  unfold trim. destruct (trim_start_head s) as [-> | (c & r & -> & Hc)]; [reflexivity |].
  destruct (trim_end_nonempty c r Hc) as (r' & Hr). rewrite Hr.
  rewrite (trim_start_nonws c r' Hc), <- Hr. apply trim_end_idempotent.
Qed.

(** A string that [trim] leaves alone starts, when it is not empty, with a
    character that is not white space. *)
Lemma trimmed_head (c : ascii) (s : string) : trim (String c s) = String c s -> is_ws c = false.
Proof.
  unfold trim. intros H. destruct (is_ws c) eqn:Hc; [| reflexivity]. exfalso.
  cbn [trim_start] in H. rewrite Hc in H.
  (* the trimmed string is no longer than the rest *)
  assert (Hlen : forall t, (String.length (trim_end t) <= String.length t)%nat).
  { induction t as [| a t IHt]; [reflexivity |]. cbn.
    destruct (trim_end t); [destruct (is_ws a); cbn; lia | cbn in *; lia]. }
  assert (Hlen' : forall t, (String.length (trim_start t) <= String.length t)%nat).
  { induction t as [| a t IHt]; [reflexivity |]. cbn. destruct (is_ws a); cbn; lia. }
  pose proof (Hlen (trim_start s)) as H1. pose proof (Hlen' s) as H2.
  rewrite H in H1. cbn in H1. lia.
Qed.

(** *** Lines *)

Lemma prefix_nil (s : string) : String.prefix "" s = true.
Proof. now destruct s. Qed.

Lemma append_nil_r (s : string) : s +:+ "" = s.
Proof. induction s as [| c s IH]; [reflexivity |]. change (String c (s +:+ "") = String c s). now f_equal. Qed.

Lemma append_cons (c : ascii) (s t : string) : String c s +:+ t = String c (s +:+ t).
Proof. reflexivity. Qed.

Lemma split_lines_one_line (s : string) : one_line s -> split_lines s = [s].
Proof.
  intros [Hlf Hcr]. induction s as [| c s IH]; [reflexivity |].
  cbn in Hlf, Hcr. apply orb_false_iff in Hlf, Hcr.
  destruct Hlf as [Hc1 Hlf], Hcr as [Hc2 Hcr].
  cbn [split_lines]. rewrite Ascii.eqb_sym, Hc1. rewrite Ascii.eqb_sym, Hc2. cbn [andb].
  now rewrite IH.
Qed.

Lemma split_lines_app (eol line rest : string) :
  eol = String LF "" \/ eol = CRLF ->
  one_line line ->
  split_lines (line +:+ eol +:+ rest) = line :: split_lines rest.
Proof.
  intros Heol [Hlf Hcr]. induction line as [| c line IH].
  - destruct Heol as [-> | ->]; [reflexivity |]. now destruct rest.
  - cbn in Hlf, Hcr. apply orb_false_iff in Hlf, Hcr.
    destruct Hlf as [Hc1 Hlf], Hcr as [Hc2 Hcr].
    rewrite append_cons. cbn [split_lines].
    rewrite Ascii.eqb_sym, Hc1. rewrite Ascii.eqb_sym, Hc2. cbn [andb].
    now rewrite IH.
Qed.

Lemma split_lines_join (eol : string) (lines : list string) :
  eol = String LF "" \/ eol = CRLF ->
  Forall one_line lines -> lines <> [] ->
  split_lines (join eol lines) = lines.
Proof.
  intros Heol Hall Hne. destruct lines as [| l lines]; [congruence |]. clear Hne.
  unfold join. revert l Hall. induction lines as [| l' lines IH]; intros l Hall.
  - cbn. apply split_lines_one_line. now inversion Hall.
  - cbn [fold_left].
    assert (Hfold : forall (ls : list string) (a b : string),
               fold_left (fun acc q => acc +:+ eol +:+ q) ls (a +:+ eol +:+ b)
               = a +:+ eol +:+ fold_left (fun acc q => acc +:+ eol +:+ q) ls b).
    { induction ls as [| x ls IHls]; intros a b; [reflexivity |].
      cbn [fold_left]. rewrite <- IHls. f_equal.
      now rewrite !append_assoc. }
    rewrite Hfold.
    inversion Hall as [| ? ? Hl Hrest]; subst.
    rewrite split_lines_app by assumption. f_equal. now apply IH.
Qed.

(** *** Positions *)

Lemma length_append (a b : string) :
  String.length (a +:+ b) = (String.length a + String.length b)%nat.
Proof. induction a as [| c a IH]; [reflexivity |]. rewrite append_cons. cbn. now rewrite IH. Qed.

Lemma substring_full (s : string) : String.substring 0 (String.length s) s = s.
Proof. induction s as [| c s IH]; [reflexivity |]. cbn. now rewrite IH. Qed.

Lemma substring_app_l (a b : string) : String.substring 0 (String.length a) (a +:+ b) = a.
Proof.
  induction a as [| c a IH]; [now destruct b |]. rewrite append_cons. cbn. now rewrite IH.
Qed.

Lemma substring_app_r (a b : string) (n : nat) :
  String.substring (String.length a) n (a +:+ b) = String.substring 0 n b.
Proof. induction a as [| c a IH]; [reflexivity |]. rewrite append_cons. cbn. exact IH. Qed.

Lemma prefix_char (c c' : ascii) (s : string) :
  String.prefix (String c "") (String c' s) = Ascii.eqb c c'.
Proof.
  cbn [String.prefix]. destruct (ascii_dec c c') as [-> | Hne].
  - now rewrite prefix_nil, Ascii.eqb_refl.
  - symmetry. now apply Ascii.eqb_neq.
Qed.

Lemma prefix_char_false (c c' : ascii) (s : string) :
  Ascii.eqb c c' = false -> String.prefix (String c "") (String c' s) = false.
Proof. intros H. now rewrite prefix_char. Qed.

Lemma prefix_char_true (c : ascii) (s : string) : String.prefix (String c "") (String c s) = true.
Proof. rewrite prefix_char. apply Ascii.eqb_refl. Qed.

Lemma indexOf_char_app (c : ascii) (a b : string) :
  has c a = false -> indexOf (String c "") (a +:+ String c b) = Some (String.length a).
Proof.
  intros Ha. unfold indexOf. induction a as [| c' a IH].
  - change ("" +:+ String c b) with (String c b). cbn [String.index String.length].
    now rewrite prefix_char_true.
  - cbn in Ha. apply orb_false_iff in Ha. destruct Ha as [Hc Ha].
    rewrite append_cons. cbn [String.index String.length].
    rewrite (prefix_char_false c c' _ Hc). now rewrite IH.
Qed.

(** *** One line of an environment file *)

Lemma parse_env_line_blank (out : gmap string string) : parse_env_line out "" = out.
Proof. reflexivity. Qed.

Lemma parse_env_line_comment (out : gmap string string) (text : string) :
  parse_env_line out ("#" +:+ text) = out.
Proof.
  change ("#" +:+ text) with (String "#" text).
  unfold parse_env_line, startsWith, trim. cbn [nonempty String.eqb negb orb].
  rewrite trim_start_nonws by reflexivity.
  destruct (trim_end_nonempty "#" text eq_refl) as (r & ->).
  now rewrite prefix_char.
Qed.

Lemma parse_env_line_assign (out : gmap string string) (k v : string) :
  well_formed (Assign k v) ->
  parse_env_line out (k +:+ "=" +:+ v) = <[k := v]> out.
Proof.
  intros (Hne & Hk & Heq & _ & Hhash & Hproto & Hv & _).
  destruct k as [| c k]; [discriminate |].
  pose proof (trimmed_head c k Hk) as Hc.
  unfold parse_env_line.
  assert (Hstart : startsWith "#" (trim (String c k +:+ "=" +:+ v)) = false).
  { unfold trim. rewrite append_cons, trim_start_nonws by exact Hc.
    destruct (trim_end_nonempty c (k +:+ "=" +:+ v) Hc) as (r & ->).
    unfold startsWith in *. now rewrite prefix_char in Hhash |- *. }
  rewrite Hstart. rewrite append_cons at 1. cbn [nonempty String.eqb negb orb].
  change ("=" +:+ v) with (String "=" v).
  rewrite (indexOf_char_app "=" (String c k) v Heq).
  unfold slice, slice_from. rewrite Nat.sub_0_r, substring_app_l, Hk, Hne.
  replace (String.substring (S (String.length (String c k)))
             (String.length (String c k +:+ String "=" v) - S (String.length (String c k)))
             (String c k +:+ String "=" v)) with v.
  - rewrite Hv. unfold set_env_key.
    destruct (String.eqb_spec (String c k) "__proto__"); [contradiction | reflexivity].
  - rewrite length_append. cbn [String.length].
    replace (S (String.length k) + S (String.length v) - S (S (String.length k)))%nat
      with (String.length v) by lia.
    change (S (S (String.length k))) with (S (String.length (String c k))).
    change (String c k +:+ String "=" v) with (String c (k +:+ String "=" v)).
    cbn [String.substring String.length].
    (* past the key and the sign *)
    clear. induction k as [| c' k IH].
    + change ("" +:+ String "=" v) with (String "=" v). cbn [String.length String.substring].
      now rewrite substring_full.
    + rewrite append_cons. cbn [String.length String.substring]. exact IH.
Qed.

Lemma has_append (c : ascii) (a b : string) : has c (a +:+ b) = has c a || has c b.
Proof.
  induction a as [| c' a IH]; [reflexivity |]. rewrite append_cons. cbn.
  now rewrite IH, orb_assoc.
Qed.

Lemma one_line_render_line (l : EnvLine) : well_formed l -> one_line (render_line l).
Proof.
  destruct l as [k v | text |]; cbn [well_formed render_line].
  - intros (_ & _ & _ & [Hk1 Hk2] & _ & _ & _ & [Hv1 Hv2]).
    split; rewrite !has_append; [rewrite Hk1, Hv1 | rewrite Hk2, Hv2]; reflexivity.
  - intros [H1 H2]. split; rewrite has_append; [rewrite H1 | rewrite H2]; reflexivity.
  - intros _. now split.
Qed.

Lemma parse_env_lines_rendered (ls : list EnvLine) (out : gmap string string) :
  Forall well_formed ls ->
  fold_left parse_env_line (List.map render_line ls) out
  = fold_left (fun m l => match l with Assign k v => <[k := v]> m | _ => m end) ls out.
Proof.
  intros Hall. revert out. induction Hall as [| l ls Hl _ IH]; intros out; [reflexivity |].
  cbn [List.map fold_left]. rewrite <- IH. f_equal.
  destruct l as [k v | text |]; cbn [render_line].
  - now apply parse_env_line_assign.
  - apply parse_env_line_comment.
  - apply parse_env_line_blank.
Qed.

(** X11. [parseEnvFile] reads back what was written: for a file made of
    [KEY=value] lines, comment lines and blank lines, ended by LF or by CRLF,
    the result is the map of the assignments, a later one overriding an
    earlier one of the same key. *)
Theorem parseEnvFile_reads_back (eol : string) (ls : list EnvLine) :
  eol = String LF "" \/ eol = CRLF ->
  Forall well_formed ls ->
  parseEnvFile (Some (render eol ls)) = assignments ls.
Proof.
  intros Heol Hall. unfold parseEnvFile, render, assignments.
  destruct ls as [| l ls]; [reflexivity |].
  rewrite split_lines_join.
  - now apply parse_env_lines_rendered.
  - exact Heol.
  - apply Forall_map. eapply Forall_impl; [exact Hall |]. apply one_line_render_line.
  - discriminate.
Qed.

Lemma parseEnvFile_reads_back_witness :
  parseEnvFile (Some ("# provider" +:+ CRLF +:+ "LLM_PROVIDER=OpenAI" +:+ CRLF +:+ CRLF
                        +:+ "LLM_MODEL=a=b" +:+ CRLF +:+ "LLM_PROVIDER=ollama"))
  = <["LLM_PROVIDER" := "ollama"]> (<["LLM_MODEL" := "a=b"]> (<["LLM_PROVIDER" := "OpenAI"]> ∅)).
Proof.
  apply (parseEnvFile_reads_back CRLF
           [Comment " provider"; Assign "LLM_PROVIDER" "OpenAI"; Blank;
            Assign "LLM_MODEL" "a=b"; Assign "LLM_PROVIDER" "ollama"]).
  - now right.
  - repeat constructor; cbn; try reflexivity; discriminate.
Defined.

(** *** What a parsed file holds *)

Lemma has_trim_start (c : ascii) (s : string) : has c s = false -> has c (trim_start s) = false.
Proof.
  induction s as [| c' s IH]; [reflexivity |]. intros H. cbn.
  destruct (is_ws c'); [| exact H]. cbn in H. apply orb_false_iff in H. now apply IH.
Qed.

Lemma has_trim_end (c : ascii) (s : string) : has c s = false -> has c (trim_end s) = false.
Proof.
  induction s as [| c' s IH]; [reflexivity |]. intros H. cbn in H.
  apply orb_false_iff in H. destruct H as [Hc Hs]. specialize (IH Hs). cbn.
  destruct (trim_end s) as [| c'' r].
  - destruct (is_ws c'); cbn; [reflexivity | now rewrite Hc].
  - cbn in IH |- *. now rewrite Hc, IH.
Qed.

Lemma has_before_index (c : ascii) (s : string) (idx : nat) :
  indexOf (String c "") s = Some idx -> has c (slice 0 idx s) = false.
Proof.
  unfold indexOf, slice. rewrite Nat.sub_0_r. revert idx.
  induction s as [| c' s IH]; intros idx; [discriminate |].
  cbn [String.index]. rewrite prefix_char.
  destruct (Ascii.eqb c c') eqn:Hc; [intros [= <-]; reflexivity |].
  destruct (String.index 0 (String c "") s) as [n |]; [| discriminate].
  intros [= <-]. cbn. rewrite Hc. now apply IH.
Qed.

Lemma parse_env_line_entries (out : gmap string string) (line : string) :
  (forall k v, out !! k = Some v -> env_entry k v) ->
  forall k v, parse_env_line out line !! k = Some v -> env_entry k v.
Proof.
  intros Hout k v. unfold parse_env_line.
  destruct (negb (nonempty line) || startsWith "#" (trim line)); [apply Hout |].
  destruct (indexOf "=" line) as [idx |] eqn:Hidx; [| apply Hout].
  destruct (nonempty (trim (slice 0 idx line))) eqn:Hne; [| apply Hout].
  unfold set_env_key. destruct (String.eqb_spec (trim (slice 0 idx line)) "__proto__") as [| Hp];
    [apply Hout |].
  destruct (decide (k = trim (slice 0 idx line))) as [-> | Hk].
  - rewrite lookup_insert_eq. intros [= <-].
    repeat split; auto using trim_idempotent.
    unfold trim. apply has_trim_end, has_trim_start. now apply has_before_index.
  - rewrite lookup_insert_ne by congruence. apply Hout.
Qed.

(** X12. Whatever the file, present or not, every entry [parseEnvFile] gives
    has a key that is not empty, has no white space around it, holds no [=]
    and is not [__proto__], and a value with no white space around it. *)
Theorem parseEnvFile_entries (file : option string) (k v : string) :
  parseEnvFile file !! k = Some v ->
  nonempty k = true /\ trim k = k /\ has "=" k = false /\ k <> "__proto__" /\ trim v = v.
Proof.
  unfold parseEnvFile. destruct file as [content |]; [| now rewrite lookup_empty].
  assert (Hfold : forall lines out,
             (forall k v, out !! k = Some v -> env_entry k v) ->
             forall k v, fold_left parse_env_line lines out !! k = Some v -> env_entry k v).
  { induction lines as [| l lines IH]; intros out Hout; [exact Hout |].
    cbn [fold_left]. apply IH. now apply parse_env_line_entries. }
  apply Hfold. intros k' v'. now rewrite lookup_empty.
Qed.

Lemma parseEnvFile_entries_witness :
  nonempty "K" = true /\ trim "K" = "K" /\ has "=" "K" = false /\ "K" <> "__proto__"
  /\ trim "a b" = "a b".
Proof.
  apply (parseEnvFile_entries (Some "  K =  a b  ") "K" "a b"). reflexivity.
Defined.


(** ** The provider of the author agent *)

(** *** The cleaned answer *)

Lemma toLowerCase_length (s : string) : String.length (toLowerCase s) = String.length s.
Proof. induction s as [| c s IH]; [reflexivity |]. cbn. now rewrite IH. Qed.

Lemma toLowerCase_substring (n m : nat) (s : string) :
  toLowerCase (String.substring n m s) = String.substring n m (toLowerCase s).
Proof.
  revert n m. induction s as [| c s IH]; intros n m.
  - now destruct n, m.
  - destruct n as [| n]; cbn.
    + destruct m as [| m]; [reflexivity |]. cbn. now rewrite IH.
    + apply IH.
Qed.

Lemma length_substring (n m : nat) (s : string) :
  String.length (String.substring n m s) = Nat.min m (String.length s - n).
Proof.
  revert n m. induction s as [| c s IH]; intros n m.
  - destruct n, m; reflexivity.
  - destruct n as [| n]; cbn.
    + destruct m as [| m]; [reflexivity |]. cbn. rewrite IH. now rewrite Nat.sub_0_r.
    + apply IH.
Qed.

Lemma substring_substring (a m a' m' : nat) (s : string) :
  (a' + m' <= m)%nat ->
  String.substring a' m' (String.substring a m s) = String.substring (a + a') m' s.
Proof.
  revert a m a' m'. induction s as [| c s IH]; intros a m a' m' Hle.
  - destruct a, m, a', m'; reflexivity.
  - destruct a as [| a].
    + cbn [Nat.add]. destruct m as [| m].
      * assert (a' = 0%nat) by lia. assert (m' = 0%nat) by lia. subst. reflexivity.
      * cbn [String.substring]. destruct a' as [| a'].
        -- destruct m' as [| m']; [reflexivity |]. cbn [String.substring]. f_equal.
           rewrite (IH 0%nat m 0%nat m') by lia. reflexivity.
        -- cbn [String.substring]. rewrite (IH 0%nat m a' m') by lia. reflexivity.
    + cbn [String.substring Nat.add]. apply IH. exact Hle.
Qed.

Lemma substring_split (n : nat) (s : string) :
  (n <= String.length s)%nat ->
  s = String.substring 0 n s +:+ String.substring n (String.length s - n) s.
Proof.
  revert n. induction s as [| c s IH]; intros n Hn.
  - cbn in Hn. assert (n = 0%nat) by lia. subst. reflexivity.
  - destruct n as [| n].
    + cbn [String.substring]. change ("" +:+ ?x) with x. cbn [String.length Nat.sub].
      now rewrite substring_full.
    + cbn [String.substring String.length Nat.sub]. rewrite append_cons. f_equal.
      apply IH. cbn in Hn. lia.
Qed.

Lemma prefix_substring (p s : string) :
  String.prefix p s = true <-> String.substring 0 (String.length p) s = p.
Proof. apply String.prefix_correct. Qed.

Lemma lastIndexOf_correct (sub s : string) (m : nat) :
  lastIndexOf sub s = Some m -> String.substring m (String.length sub) s = sub.
Proof.
  revert m. induction s as [| c s IH]; intros m.
  - cbn [lastIndexOf]. destruct (String.prefix sub "") eqn:Hp; [| discriminate].
    intros [= <-]. now apply prefix_substring.
  - cbn [lastIndexOf]. destruct (lastIndexOf sub s) as [n |].
    + intros [= <-]. cbn [String.substring]. now apply IH.
    + destruct (String.prefix sub (String c s)) eqn:Hp; [| discriminate].
      intros [= <-]. now apply prefix_substring.
Qed.

Lemma substring_fits (m : nat) (p s : string) :
  String.substring m (String.length p) s = p -> (m + String.length p <= String.length s)%nat
                                                \/ String.length p = 0%nat.
Proof.
  intros H. apply (f_equal String.length) in H. rewrite length_substring in H. lia.
Qed.

Lemma lastIndexOf_suffix (sub pre : string) :
  nonempty sub = true -> lastIndexOf sub (pre +:+ sub) = Some (String.length pre).
Proof.
  intros Hne.
  assert (Hshort : forall s, (String.length s < String.length sub)%nat ->
                             lastIndexOf sub s = None).
  { intros s Hs. destruct (lastIndexOf sub s) as [m |] eqn:Hm; [| reflexivity].
    apply lastIndexOf_correct, substring_fits in Hm. destruct sub; [discriminate |].
    cbn in *. lia. }
  induction pre as [| c pre IH].
  - change ("" +:+ sub) with sub. destruct sub as [| c sub]; [discriminate |].
    cbn [lastIndexOf]. rewrite Hshort by (cbn; lia).
    assert (Hp : String.prefix (String c sub) (String c sub) = true).
    { apply prefix_substring. apply substring_full. }
    now rewrite Hp.
  - rewrite append_cons. cbn [lastIndexOf String.length]. now rewrite IH.
Qed.

Lemma indexOf_prefix (p s : string) :
  nonempty s = true -> String.prefix p s = true -> indexOf p s = Some 0%nat.
Proof.
  intros Hne Hp. unfold indexOf. destruct s as [| c s]; [discriminate |].
  cbn [String.index]. now rewrite Hp.
Qed.

Lemma lower_ascii_ws (c : ascii) : is_ws (lower_ascii c) = false -> is_ws c = false.
Proof.
  destruct c as [[] [] [] [] [] [] [] []]; vm_compute; congruence.
Qed.

Lemma trim_end_snoc (pre : string) (c : ascii) :
  is_ws c = false -> trim_end (pre +:+ String c "") = pre +:+ String c "".
Proof.
  intros Hc. induction pre as [| x pre IH].
  - change ("" +:+ String c "") with (String c ""). cbn. now rewrite Hc.
  - rewrite append_cons. cbn [trim_end]. rewrite IH.
    destruct pre; reflexivity.
Qed.

(** A string that starts and ends with visible characters is left as it
    is by [trim]. *)
Lemma trim_visible_ends (c c' : ascii) (s pre : string) :
  is_ws c = false -> is_ws c' = false ->
  String c s = pre +:+ String c' "" ->
  trim (String c s) = String c s.
Proof.
  intros Hc Hc' Hs. unfold trim. rewrite trim_start_nonws by exact Hc.
  rewrite Hs. now apply trim_end_snoc.
Qed.

Lemma document_is_trimmed (s : string) : is_document s -> trim s = s.
Proof.
  intros [Hstart Hend]. unfold startsWith, endsWith in *.
  apply andb_true_iff in Hend. destruct Hend as [Hlen Hend].
  apply Nat.leb_le in Hlen. apply String.eqb_eq in Hend.
  rewrite toLowerCase_length in Hlen, Hend. cbn [String.length] in Hlen, Hend.
  destruct s as [| c s]; [cbn in Hlen; lia |].
  (* the first character *)
  assert (Hc : is_ws c = false).
  { apply lower_ascii_ws. cbn [toLowerCase] in Hstart.
    apply prefix_substring in Hstart. cbn in Hstart. injection Hstart as Hc0 _.
    now rewrite Hc0. }
  (* the last character *)
  set (n := (String.length (String c s) - 7)%nat) in *.
  pose proof (substring_split (n + 6) (String c s)) as Hsplit.
  assert (Hlast : String.substring 6 1 (String.substring n 7 (toLowerCase (String c s))) = ">").
  { now rewrite Hend. }
  rewrite substring_substring in Hlast by lia.
  rewrite <- toLowerCase_substring in Hlast.
  replace (String.length (String c s) - (n + 6))%nat with 1%nat in Hsplit by (subst n; lia).
  destruct (String.substring (n + 6) 1 (String c s)) as [| c' [| ? ?]] eqn:Hsub;
    cbn in Hlast; try discriminate.
  injection Hlast as Hc'.
  eapply (trim_visible_ends c c'); [exact Hc | | apply Hsplit; subst n; lia].
  apply lower_ascii_ws. now rewrite Hc'.
Qed.

Lemma strip_summary_trimmed (raw lower : string) :
  trim (AuthorProvider.strip_summary (trim raw) lower)
  = AuthorProvider.strip_summary (trim raw) lower.
Proof.
  unfold AuthorProvider.strip_summary.
  destruct (lastIndexOf _ lower); apply trim_idempotent.
Qed.

(** The span from a found [<html] to a found [</html>] after it is a
    document. *)
Lemma html_span_is_document (s : string) (a b : nat) :
  indexOf "<html" (toLowerCase s) = Some a ->
  lastIndexOf "</html>" (toLowerCase s) = Some b ->
  (a < b)%nat ->
  is_document (slice a (b + 7) s).
Proof.
  intros Ha Hb Hlt. unfold is_document, slice, startsWith, endsWith.
  apply String.index_correct1 in Ha. apply lastIndexOf_correct in Hb.
  pose proof (substring_fits _ _ _ Hb) as [Hfit | Hfit]; [| discriminate].
  cbn [String.length] in Ha, Hb, Hfit.
  rewrite toLowerCase_substring. split.
  - apply prefix_substring. cbn [String.length].
    rewrite substring_substring by lia. now rewrite Nat.add_0_r.
  - rewrite length_substring. cbn [String.length].
    replace (Nat.min (b + 7 - a) (String.length (toLowerCase s) - a)) with (b + 7 - a)%nat by lia.
    apply andb_true_iff. split; [apply Nat.leb_le; lia |].
    apply String.eqb_eq. rewrite substring_substring by lia.
    now replace (a + (b + 7 - a - 7))%nat with b by lia.
Qed.

(** X13. On ASCII text, the output of [cleanHtmlOutput] has no white space
    around it. When the text holds [<html] and, after it, a last [</html>]
    (in any case), the output is exactly the text from the one to the end of
    the other, and it is a document; a text that is a document already is
    returned as it is. *)
Theorem cleanHtmlOutput_keeps_the_document (raw : string) :
  ascii_text raw = true ->
  let out := AuthorProvider.cleanHtmlOutput (JStr raw) in
  let trimmed := trim raw in
  trim out = out
  /\ (forall a b,
        indexOf "<html" (toLowerCase trimmed) = Some a ->
        lastIndexOf "</html>" (toLowerCase trimmed) = Some b ->
        (a < b)%nat ->
        out = slice a (b + 7) trimmed /\ is_document out)
  /\ (is_document trimmed -> out = trimmed).
Proof.
  intros _ out trimmed. subst out. unfold AuthorProvider.cleanHtmlOutput.
  fold trimmed.
  assert (Hspan : forall a b,
             indexOf "<html" (toLowerCase trimmed) = Some a ->
             lastIndexOf "</html>" (toLowerCase trimmed) = Some b ->
             (a < b)%nat ->
             trim (slice a (b + 7) trimmed) = slice a (b + 7) trimmed
             /\ is_document (slice a (b + 7) trimmed)).
  { intros a b Ha Hb Hlt. pose proof (html_span_is_document trimmed a b Ha Hb Hlt) as Hdoc.
    split; [now apply document_is_trimmed | exact Hdoc]. }
  destruct (nonempty raw) eqn:Hraw; cbn [negb].
  2:{ assert (raw = "") as -> by (now destruct raw). subst trimmed.
      split; [reflexivity |]. split; [intros a b Ha; discriminate |].
      intros [Hs _]. discriminate. }
  cbn [String.length].
  split; [| split].
  - destruct (indexOf "<html" (toLowerCase trimmed)) as [a |] eqn:Ha;
      [| apply strip_summary_trimmed].
    destruct (lastIndexOf "</html>" (toLowerCase trimmed)) as [b |] eqn:Hb;
      [| apply strip_summary_trimmed].
    destruct (a <? b)%nat; [apply trim_idempotent | apply strip_summary_trimmed].
  - intros a b Ha Hb Hlt. rewrite Ha, Hb.
    rewrite (proj2 (Nat.ltb_lt a b) Hlt).
    destruct (Hspan a b Ha Hb Hlt) as [Htrim Hdoc]. rewrite Htrim. now split.
  - intros Hdoc. pose proof Hdoc as [Hstart Hend]. unfold startsWith, endsWith in Hstart, Hend.
    apply andb_true_iff in Hend. destruct Hend as [Hlen Hend].
    apply Nat.leb_le in Hlen. apply String.eqb_eq in Hend. cbn [String.length] in Hlen, Hend.
    set (lower := toLowerCase trimmed) in *.
    set (n := (String.length lower - 7)%nat) in *.
    assert (Hne : nonempty lower = true) by (destruct lower; [cbn in Hlen; lia | reflexivity]).
    assert (Ha : indexOf "<html" lower = Some 0%nat) by now apply indexOf_prefix.
    assert (Hb : lastIndexOf "</html>" lower = Some n).
    { pose proof (substring_split n lower) as Hsplit.
      replace (String.length lower - n)%nat with 7%nat in Hsplit by (subst n; lia).
      rewrite Hend in Hsplit. rewrite Hsplit by (subst n; lia).
      rewrite lastIndexOf_suffix by reflexivity.
      rewrite length_substring. f_equal. subst n. lia. }
    assert (Hpos : (0 < n)%nat).
    { destruct (Nat.eq_dec n 0) as [Hz | Hnz]; [| lia]. exfalso.
      rewrite Hz in Hend. apply prefix_substring in Hstart. cbn [String.length] in Hstart.
      pose proof (substring_substring 0 7 0 5 lower ltac:(lia)) as Hsub.
      cbn [Nat.add] in Hsub. rewrite Hend, Hstart in Hsub. discriminate. }
    rewrite Ha, Hb. rewrite (proj2 (Nat.ltb_lt 0 n) Hpos).
    unfold slice. rewrite Nat.sub_0_r.
    replace (n + 7)%nat with (String.length trimmed)
      by (subst n lower; rewrite toLowerCase_length in *; lia).
    rewrite substring_full. now apply document_is_trimmed.
Qed.

Lemma cleanHtmlOutput_keeps_the_document_witness :
  AuthorProvider.cleanHtmlOutput (JStr "Sure! <HTML><p>Hi</p></HTML> Hope it helps.")
  = "<HTML><p>Hi</p></HTML>".
Proof.
  destruct (cleanHtmlOutput_keeps_the_document "Sure! <HTML><p>Hi</p></HTML> Hope it helps."
              eq_refl)
    as (_ & Hspan & _).
  destruct (Hspan 6%nat 21%nat) as [Hout _]; [reflexivity | reflexivity | lia |].
  exact Hout.
Defined.

(** *** The configuration read from the environment *)

Lemma lower_ascii_idempotent (c : ascii) : lower_ascii (lower_ascii c) = lower_ascii c.
Proof. destruct c as [[] [] [] [] [] [] [] []]; reflexivity. Qed.

Lemma toLowerCase_idempotent (s : string) : toLowerCase (toLowerCase s) = toLowerCase s.
Proof.
  induction s as [| c s IH]; [reflexivity |]. cbn. now rewrite lower_ascii_idempotent, IH.
Qed.

Lemma nonempty_toLowerCase (s : string) : nonempty (toLowerCase s) = nonempty s.
Proof. now destruct s. Qed.

Lemma setting_nonempty (overrides process_env : gmap string string) (k dflt : string) :
  nonempty dflt = true -> nonempty (setting overrides process_env k dflt) = true.
Proof.
  intros Hd. unfold setting, str_or.
  destruct (nonempty (env_var overrides k)) eqn:Ho; [exact Ho |].
  destruct (nonempty (env_var process_env k)) eqn:Hp; [exact Hp | exact Hd].
Qed.

Section Providers.
Variable process_env : gmap string string.
Variable env_files : string -> option string.
Variable JSON_parse : string -> option jsval.

(** The provider names are never empty and always lower case: the agents'
    own [|| 'openai'] and [|| 'resend'] have nothing to replace. *)
Lemma provider_is_normalised (overrides : gmap string string) :
  let llm := getLLMConfigFromEnv process_env JSON_parse overrides in
  let mail := getMailConfigFromEnv process_env overrides in
  (nonempty (llm_provider llm) = true /\ toLowerCase (llm_provider llm) = llm_provider llm
   /\ toLowerCase (str_or (llm_provider llm) "openai") = llm_provider llm)
  /\ (nonempty (mail_provider mail) = true /\ toLowerCase (mail_provider mail) = mail_provider mail
      /\ toLowerCase (str_or (mail_provider mail) "resend") = mail_provider mail).
Proof.
  cbn. rewrite !nonempty_toLowerCase, !toLowerCase_idempotent.
  rewrite !setting_nonempty by reflexivity.
  unfold str_or. rewrite !nonempty_toLowerCase, !setting_nonempty by reflexivity.
  now rewrite !toLowerCase_idempotent.
Qed.

End Providers.

(** *** The provider call *)

Section MissingKey.
Variable process_env : gmap string string.
Variable env_files : string -> option string.
Variable JSON_parse : string -> option jsval.
Variable callOllama : forall (model endpoint prompt : string) (options : jsval),
    AuthorAgent.LlmOutcome.
Variable callOpenAI : forall (model apiKey endpoint prompt : string) (options : jsval),
    AuthorAgent.LlmOutcome.
Variable promptText : string -> string.
Variable jsonContract : string.
Variable cleanHtml : string -> string.
Variable parseAnswer : string -> option (string * jsval).

Local Abbreviation config_of := (llm_config_of process_env env_files JSON_parse).
Local Abbreviation generate :=
  (generate_configured process_env env_files JSON_parse callOllama callOpenAI promptText
     jsonContract cleanHtml parseAnswer).

(** X14. When the provider configured for the instance is not [ollama] and
    no API key is configured, a valid generate request calls no provider and
    still is answered 200: with the stub HTML, the configured model or
    [stub-model], and a reasoning summary that names
    [openai_api_key_missing]. *)
Theorem generate_without_api_key_uses_the_stub (payload : AuthorAgent.GenerateReq)
    (d : AuthorAgent.Disk) (i : string) :
  AuthorAgent.g_instance_id payload = JStr i ->
  validateInstanceId (JStr i) = true ->
  js_truthy (AuthorAgent.g_username payload) = true ->
  llm_provider (config_of i) <> "ollama" ->
  llm_apiKey (config_of i) = "" ->
  let answer := fst (generate payload d) in
  AuthorAgent.code answer = 200%Z
  /\ js_get (AuthorAgent.body answer) "html"
     = JStr (AuthorAgent.stubGenerateHtml (AuthorAgent.g_instructions payload)
               (AuthorAgent.g_base_html payload))
  /\ js_get (AuthorAgent.body answer) "model"
     = JStr (str_or (llm_model (config_of i)) "stub-model")
  /\ js_get (js_get (AuthorAgent.body answer) "reasoning") "summary"
     = JStr "LLM error (openai_api_key_missing); used stub fallback.".
Proof.
  intros Hid Hvalid Huser Hprov Hkey answer. subst answer.
  unfold generate_configured, AuthorAgent.handleGenerate.
  rewrite Hid, Hvalid, Huser. cbn [negb].
  unfold AuthorProvider.generateHtmlWithLLM.
  destruct (provider_is_normalised process_env JSON_parse (loadInstanceEnv env_files i))
    as [(_ & _ & Hnorm) _].
  cbn zeta in Hnorm. fold (config_of i) in Hnorm. rewrite Hnorm.
  destruct (String.eqb_spec (llm_provider (config_of i)) "ollama") as [| _];
    [contradiction |].
  rewrite Hkey. cbn. repeat split.
Qed.

End MissingKey.

Lemma generate_without_api_key_uses_the_stub_witness :
  let payload := AuthorAgent.mkGenerateReq (JStr "r0-r1") (JStr "alice") "Say hello" "" "Hi"
                   JUndef in
  let answer :=
    fst (generate_configured {["LLM_PROVIDER" := "OpenAI"]} (fun _ => Some "LLM_MODEL=gpt-x")
           (fun _ => None)
           (fun _ _ _ _ => AuthorAgent.LlmThrows "unreachable")
           (fun _ _ _ _ _ => AuthorAgent.LlmThrows "unreachable")
           (fun _ => "Write an email.") "contract" (fun s => s) (fun _ => None)
           payload (AuthorAgent.mkDisk ∅ ∅ [] [])) in
  js_get (AuthorAgent.body answer) "html" = JStr (AuthorAgent.stubGenerateHtml "Say hello" "")
  /\ js_get (AuthorAgent.body answer) "model" = JStr "gpt-x".
Proof.
  intros payload answer.
  destruct (generate_without_api_key_uses_the_stub
              {["LLM_PROVIDER" := "OpenAI"]} (fun _ => Some "LLM_MODEL=gpt-x")
              (fun _ => None)
              (fun _ _ _ _ => AuthorAgent.LlmThrows "unreachable")
              (fun _ _ _ _ _ => AuthorAgent.LlmThrows "unreachable")
              (fun _ => "Write an email.") "contract" (fun s => s) (fun _ => None)
              payload (AuthorAgent.mkDisk ∅ ∅ [] []) "r0-r1")
    as (_ & Hhtml & Hmodel & _); try reflexivity.
  - vm_compute. discriminate.
  - split; [exact Hhtml | exact Hmodel].
Defined.


(** *** The prompt *)

(** X15. [buildPrompt] reports [usedExistingHtml] exactly when base HTML was
    given. With base HTML the prompt text of the instance plays no part and
    the base HTML stands verbatim in the prompt inside an [html] code fence.
    Instructions of white space only count as none. *)
Theorem buildPrompt_with_prior_html (jsonContract instructions baseHtml promptText : string) :
  let p := AuthorAgent.buildPrompt jsonContract instructions baseHtml promptText in
  AuthorAgent.usedExistingHtml p = nonempty baseHtml
  /\ (nonempty baseHtml = true ->
        (forall otherText,
           AuthorAgent.buildPrompt jsonContract instructions baseHtml otherText = p)
        /\ exists before after,
             AuthorAgent.prompt p
             = before +:+ "```html" +:+ AuthorAgent.nl +:+ baseHtml +:+ AuthorAgent.nl +:+ "```"
               +:+ after)
  /\ (nonempty (trim instructions) = false ->
        AuthorAgent.buildPrompt jsonContract "" baseHtml promptText = p).
Proof.
  intros p. subst p. unfold AuthorAgent.buildPrompt.
  destruct (nonempty baseHtml) eqn:Hb; cbn [negb AuthorAgent.usedExistingHtml AuthorAgent.prompt].
  - split; [reflexivity |]. split.
    + intros _. split; [reflexivity |].
      match goal with
      | |- exists before after, ?h +:+ ?k +:+ ?r +:+ ?e +:+ ?n1 +:+ ?n2 +:+ ?here +:+ ?n3 +:+ ?n4 +:+ ?rest = _ =>
          exists (h +:+ k +:+ r +:+ e +:+ n1 +:+ n2 +:+ here +:+ n3 +:+ n4), (n1 +:+ n2 +:+ jsonContract)
      end.
      rewrite !append_assoc. reflexivity.
    + intros Ht. rewrite Ht, !andb_false_r. reflexivity.
  - split; [reflexivity |]. split; [discriminate |].
    intros Ht. rewrite Ht, !andb_false_r. reflexivity.
Qed.

Lemma buildPrompt_with_prior_html_witness :
  AuthorAgent.buildPrompt "contract" "shorter" "<html>Hi</html>" "House style: formal."
  = AuthorAgent.buildPrompt "contract" "shorter" "<html>Hi</html>" "".
Proof.
  destruct (buildPrompt_with_prior_html "contract" "shorter" "<html>Hi</html>" "") as (_ & H & _).
  destruct (H eq_refl) as [Hany _]. apply Hany.
Defined.


(** ** The send agent *)

Module DeliveryProperties.
Import SendAgent.

Lemma handleSend_refuses process_env env_files fetch date_now iso_time random_hex base64
    null_read_error (p : SendPayload) (s : Outbox) :
  send_refused p ->
  SendAgent.code (fst (handleSend process_env env_files fetch date_now iso_time random_hex
                         base64 null_read_error p s)) = 400%Z
  /\ snd (handleSend process_env env_files fetch date_now iso_time random_hex
            base64 null_read_error p s) = s.
Proof.
  unfold send_refused, handleSend.
  destruct (s_instance_id p) eqn:Hid; try (now split).
  destruct (validateInstanceId (JStr s0)) eqn:Hv; cbn [negb]; [| now split].
  destruct (js_truthy (s_username p)) eqn:Hu; cbn [negb]; [| now split].
  destruct (nonempty (s_html p)) eqn:Hh; cbn [negb]; [| now split].
  destruct (js_truthy (s_subject p)) eqn:Hs; cbn [negb]; [| now split].
  destruct (SendAgent.requireRecipients _ _ _) as [[[to cc] bcc] |] eqn:Hr; [| now split].
  intros [H | [H | [H | [H | H]]]]; try discriminate.
  rewrite H in Hh. discriminate.
Qed.

Lemma classic_refused (p : SendPayload) : send_refused p \/ ~ send_refused p.
Proof.
  unfold send_refused.
  destruct (validateInstanceId (s_instance_id p)); [| now left; left].
  destruct (js_truthy (s_username p)); [| now left; right; left].
  destruct (String.eqb_spec (s_html p) "") as [Hh | Hh]; [now left; right; right; left |].
  destruct (js_truthy (s_subject p)); [| now left; right; right; right; left].
  destruct (SendAgent.requireRecipients _ _ _); [| now left; right; right; right; right].
  right. intros [H | [H | [H | [H | H]]]]; congruence.
Qed.

Section SendAgentProperties.
Variable process_env : gmap string string.
Variable env_files : string -> option string.
Variable fetch : NetRequest -> HttpOutcome.
Variable date_now : nat -> string.
Variable iso_time : nat -> string.
Variable random_hex : nat -> string.
Variable base64 : string -> string.
Variable null_read_error : string -> string.

Local Abbreviation send :=
  (handleSend process_env env_files fetch date_now iso_time random_hex base64 null_read_error).
Local Abbreviation provider :=
  (sendEmailProvider fetch date_now base64 null_read_error).

(** X16. A delivery request without a valid instance id, a user name, HTML,
    a subject or a recipient is answered 400, and nothing is written, logged
    or sent. *)
Theorem send_rejects_before_writing (p : SendPayload) (s : Outbox) :
  send_refused p ->
  SendAgent.code (fst (send p s)) = 400%Z /\ snd (send p s) = s.
Proof.
  unfold send_refused, handleSend.
  destruct (s_instance_id p) eqn:Hid; try (now split).
  destruct (validateInstanceId (JStr s0)) eqn:Hv; cbn [negb]; [| now split].
  destruct (js_truthy (s_username p)) eqn:Hu; cbn [negb]; [| now split].
  destruct (nonempty (s_html p)) eqn:Hh; cbn [negb]; [| now split].
  destruct (js_truthy (s_subject p)) eqn:Hs; cbn [negb]; [| now split].
  destruct (SendAgent.requireRecipients _ _ _) as [[[to cc] bcc] |] eqn:Hr; [| now split].
  intros [H | [H | [H | [H | H]]]]; try discriminate.
  rewrite H in Hh. discriminate.
Qed.

Ltac provider_cases :=
  repeat match goal with
         | |- context [match fetch ?q with _ => _ end] => destruct (fetch q) eqn:?; cbn
         | |- context [match read_property ?e ?d ?k with _ => _ end] =>
             destruct (read_property e d k) eqn:?; cbn
         | |- context [match ?x with Ok _ => _ | Throw _ => _ end] => destruct x eqn:?; cbn
         | |- context [if ?c then _ else _] => destruct c eqn:?; cbn
         end.

Ltac provider_frame :=
  (split; [reflexivity |]);
  (split; [first [ discriminate | intros ? [= <-]; assumption | intros ? [= <-]; reflexivity
                 | intros ? [= <-]; apply negb_false_iff; assumption ] |]);
  first [ exists []; now rewrite app_nil_r | eexists [_]; reflexivity ].

Lemma sendViaResend_frame (apiKey : string) (fromEmail fromName : jsval)
    (to cc bcc : list jsval) (subject : jsval) (html : string) (s : Outbox) :
  let out := sendViaResend fetch date_now null_read_error apiKey fromEmail fromName
               to cc bcc subject html s in
  artifacts (snd out) = artifacts s
  /\ (forall id, fst out = Ok id -> js_truthy id = true)
  /\ exists qs, requests (snd out) = requests s ++ qs.
Proof. unfold sendViaResend. cbn zeta. provider_cases; provider_frame. Qed.

Lemma getGmailAccessToken_frame (cfg : MailConfig) (s : Outbox) :
  let out := getGmailAccessToken fetch null_read_error cfg s in
  artifacts (snd out) = artifacts s
  /\ (forall id, fst out = Ok id -> js_truthy id = true)
  /\ exists qs, requests (snd out) = requests s ++ qs.
Proof. unfold getGmailAccessToken. cbn zeta. provider_cases; provider_frame. Qed.

Lemma sendViaGmail_frame (cfg : MailConfig) (fromEmail : jsval) (to cc bcc : list jsval)
    (subject : jsval) (html : string) (s : Outbox) :
  let out := sendViaGmail fetch date_now base64 null_read_error cfg fromEmail
               to cc bcc subject html s in
  artifacts (snd out) = artifacts s
  /\ (forall id, fst out = Ok id -> js_truthy id = true)
  /\ exists qs, requests (snd out) = requests s ++ qs.
Proof.
  unfold sendViaGmail.
  destruct (getGmailAccessToken_frame cfg s) as (Ha & _ & qs & Hq).
  destruct (getGmailAccessToken fetch null_read_error cfg s) as [[token | msg] s1];
    cbn [fst snd] in *.
  2:{ split; [exact Ha |]. split; [discriminate |]. now exists qs. }
  cbn zeta. provider_cases;
    (split; [exact Ha |]);
    (split; [first [discriminate | intros ? [= <-]; assumption | intros ? [= <-]; reflexivity] |]);
    (exists (qs ++ [GmailSend token (buildGmailRaw base64 fromEmail to cc bcc subject html)]);
     rewrite Hq; now rewrite app_assoc).
Qed.

Lemma provider_keeps_artifacts (cfg : MailConfig) (fromEmail fromName : jsval)
    (to cc bcc : list jsval) (subject : jsval) (html : string) (s : Outbox) :
  let out := provider cfg fromEmail fromName to cc bcc subject html s in
  artifacts (snd out) = artifacts s
  /\ (forall id, fst out = Ok id -> js_truthy id = true)
  /\ exists qs, requests (snd out) = requests s ++ qs.
Proof.
  unfold sendEmailProvider.
  destruct (String.eqb _ "gmail"); [apply sendViaGmail_frame | apply sendViaResend_frame].
Qed.

(** X17. A delivery request that is accepted writes its HTML to the
    instance's [email.html] whatever the provider then does. The answer is a
    200 or a 502; a 200 has the status [sent], a message id that is not empty
    and the trace id of the request or [null]. *)
Theorem send_files_the_html_before_sending (p : SendPayload) (s : Outbox) (i : string) :
  s_instance_id p = JStr i ->
  ~ send_refused p ->
  let answer := fst (send p s) in
  let s' := snd (send p s) in
  artifacts s' = <[i := s_html p]> (artifacts s)
  /\ (SendAgent.code answer = 200%Z \/ SendAgent.code answer = 502%Z)
  /\ (SendAgent.code answer = 200%Z ->
        js_get (SendAgent.body answer) "status" = JStr "sent"
        /\ js_truthy (js_get (SendAgent.body answer) "id") = true
        /\ js_get (SendAgent.body answer) "trace_id" = s_trace_id p ||| JNull).
Proof.
  intros Hid Hok answer s'. subst answer s'. unfold handleSend. rewrite Hid.
  unfold send_refused in Hok. rewrite Hid in Hok.
  destruct (validateInstanceId (JStr i)) eqn:Hv; [| tauto]. cbn [negb].
  destruct (js_truthy (s_username p)) eqn:Hu; [| tauto]. cbn [negb].
  destruct (nonempty (s_html p)) eqn:Hh; cbn [negb].
  2:{ destruct (s_html p); [tauto | discriminate]. }
  destruct (js_truthy (s_subject p)) eqn:Hs; [| tauto]. cbn [negb].
  destruct (SendAgent.requireRecipients _ _ _) as [[[to cc] bcc] |] eqn:Hr; [| tauto].
  cbn zeta.
  match goal with |- context [sendEmailProvider ?f ?d ?b ?n ?cfg ?fe ?fn ?t ?c ?bc ?su ?h ?s0] =>
    pose proof (provider_keeps_artifacts cfg fe fn t c bc su h s0) as (Ha & Hidt & _);
    destruct (sendEmailProvider f d b n cfg fe fn t c bc su h s0) as [[id | msg] s3]
  end; cbn [fst snd] in *.
  - rewrite (Hidt id eq_refl). cbn. rewrite Ha. cbn.
    pose proof (Hidt id eq_refl). repeat split; auto.
  - cbn. rewrite Ha. cbn.
    repeat match goal with |- _ /\ _ => split end; auto. discriminate.
Qed.

Local Abbreviation mail_config := (mail_config_of process_env env_files).

(** X18. Without the credentials of the configured provider (the Resend API
    key, or one of the Gmail client id, client secret and refresh token) an
    accepted delivery request is answered 502 with the name of the missing
    credential, no request goes out to the network, and the HTML has been
    written to [email.html] all the same. *)
Theorem send_without_credentials_makes_no_request (p : SendPayload) (s : Outbox)
    (i : string) :
  s_instance_id p = JStr i ->
  ~ send_refused p ->
  let cfg := mail_config i in
  (if String.eqb (mail_provider cfg) "gmail"
   then gmailClientId cfg = "" \/ gmailClientSecret cfg = "" \/ gmailRefreshToken cfg = ""
   else resendApiKey cfg = "") ->
  fst (send p s)
  = SendAgent.sendJson 502
      (SendAgent.error_body (if String.eqb (mail_provider cfg) "gmail"
                             then "gmail_credentials_missing" else "resend_api_key_missing"))
  /\ requests (snd (send p s)) = requests s
  /\ artifacts (snd (send p s)) = <[i := s_html p]> (artifacts s).
Proof.
  intros Hid Hok cfg Hcred. unfold handleSend. rewrite Hid.
  unfold send_refused in Hok. rewrite Hid in Hok.
  destruct (validateInstanceId (JStr i)) eqn:Hv; [| tauto]. cbn [negb].
  destruct (js_truthy (s_username p)) eqn:Hu; [| tauto]. cbn [negb].
  destruct (nonempty (s_html p)) eqn:Hh; cbn [negb].
  2:{ destruct (s_html p); [tauto | discriminate]. }
  destruct (js_truthy (s_subject p)) eqn:Hs; [| tauto]. cbn [negb].
  destruct (SendAgent.requireRecipients _ _ _) as [[[to cc] bcc] |] eqn:Hr; [| tauto].
  cbn zeta. fold (mail_config i). fold cfg.
  unfold sendEmailProvider.
  destruct (provider_is_normalised process_env (fun _ => None) (loadInstanceEnv env_files i))
    as [_ (_ & _ & Hnorm)].
  cbn zeta in Hnorm. fold (mail_config i) in Hnorm. fold cfg in Hnorm. rewrite Hnorm.
  destruct (String.eqb (mail_provider cfg) "gmail").
  - unfold sendViaGmail, getGmailAccessToken.
    assert (Hmiss : negb (nonempty (gmailClientId cfg)) || negb (nonempty (gmailClientSecret cfg))
                    || negb (nonempty (gmailRefreshToken cfg)) = true).
    { destruct Hcred as [-> | [-> | ->]]; cbn; rewrite ?orb_true_r; reflexivity. }
    rewrite Hmiss. cbn. repeat split.
  - unfold sendViaResend. rewrite Hcred. cbn. repeat split.
Qed.

Lemma sendViaResend_asked (p : SendPayload) (apiKey : string) (to cc bcc : list jsval)
    (s : Outbox) :
  let out := sendViaResend fetch date_now null_read_error apiKey (s_sender_email p)
               (s_sender_name p) to cc bcc (s_subject p) (s_html p) s in
  exists qs, requests (snd out) = requests s ++ qs
             /\ provider_asked fetch base64 p to cc bcc (fst out) qs.
Proof.
  unfold sendViaResend. cbn zeta.
  destruct (negb (nonempty apiKey)); cbn [fst snd].
  { exists []. rewrite app_nil_r. split; [reflexivity |]. split; [now left | discriminate]. }
  match goal with |- context [fetch ?q] => set (q0 := q) end.
  assert (Hshape : forall out : Res jsval,
            (forall id, out = Ok id ->
               exists status text data,
                 fetch q0 = HttpAnswers status text (Ok data) /\ http_ok status = true) ->
            provider_asked fetch base64 p to cc bcc out [q0]).
  { intros out Hout. split.
    - right. left. exists q0. split; [reflexivity |]. split; [discriminate |].
      intros _. cbn. repeat split.
    - intros id Hid. destruct (Hout id Hid) as (status & text & data & Hf & Hs).
      exists [], q0, status, text, data. repeat split; assumption. }
  destruct (fetch q0) as [msg | status text json] eqn:Hf; cbn [fst snd].
  { exists [q0]. split; [reflexivity |]. apply Hshape. discriminate. }
  destruct (http_ok status) eqn:Hs; cbn [negb fst snd].
  2:{ exists [q0]. split; [reflexivity |]. apply Hshape. discriminate. }
  destruct json as [data | msg]; cbn [fst snd].
  2:{ exists [q0]. split; [reflexivity |]. apply Hshape. discriminate. }
  assert (Hans : forall out : Res jsval, provider_asked fetch base64 p to cc bcc out [q0]).
  { intros out. apply Hshape. intros _ _. now exists status, text, data. }
  destruct (read_property null_read_error data "id") as [id | msg]; cbn [fst snd].
  2:{ exists [q0]. split; [reflexivity | apply Hans]. }
  destruct (js_truthy id); cbn [fst snd]; [exists [q0]; split; [reflexivity | apply Hans] |].
  destruct (js_truthy (js_get data "message")); cbn [fst snd];
    exists [q0]; (split; [reflexivity | apply Hans]).
Qed.

Lemma getGmailAccessToken_asked (cfg : MailConfig) (s : Outbox) :
  let out := getGmailAccessToken fetch null_read_error cfg s in
  (requests (snd out) = requests s /\ exists msg, fst out = Throw msg)
  \/ exists tq, requests (snd out) = requests s ++ [tq] /\ is_message tq = false
                /\ forall tok, fst out = Ok tok -> grants fetch tq tok.
Proof.
  unfold getGmailAccessToken. cbn zeta.
  destruct (_ || _); cbn [fst snd]; [left; eauto |].
  match goal with |- context [fetch ?q] => set (q0 := q) end.
  right. exists q0.
  destruct (fetch q0) as [msg | status text json] eqn:Hf; cbn [fst snd].
  { repeat split; discriminate. }
  destruct (http_ok status) eqn:Hs; cbn [negb fst snd]; [| repeat split; discriminate].
  destruct json as [data | msg]; cbn [fst snd]; [| repeat split; discriminate].
  unfold read_property.
  destruct data eqn:Hd; cbn [fst snd]; try (repeat split; discriminate);
    match goal with
    | |- context [js_truthy ?t] =>
        destruct (js_truthy t) eqn:Ht; cbn [negb fst snd];
        (split; [reflexivity |]); (split; [reflexivity |]); intros tok Htok;
        [injection Htok as <-; split; [reflexivity |];
         exists status, text, data; subst data; repeat split; assumption
        | discriminate]
    end.
Qed.

Lemma sendViaGmail_asked (p : SendPayload) (cfg : MailConfig) (to cc bcc : list jsval)
    (s : Outbox) :
  let out := sendViaGmail fetch date_now base64 null_read_error cfg (s_sender_email p)
               to cc bcc (s_subject p) (s_html p) s in
  exists qs, requests (snd out) = requests s ++ qs
             /\ provider_asked fetch base64 p to cc bcc (fst out) qs.
Proof.
  unfold sendViaGmail.
  destruct (getGmailAccessToken_asked cfg s) as [[Hq [msg Hmsg]] | (tq & Hq & Htq & Hgrant)];
    destruct (getGmailAccessToken fetch null_read_error cfg s) as [[token | msg'] s1];
    cbn [fst snd] in *; try discriminate.
  - exists []. rewrite app_nil_r. split; [exact Hq |]. split; [now left | discriminate].
  - cbn zeta.
    match goal with |- context [fetch ?q] => set (q0 := q) end.
    assert (Hshape : forall out : Res jsval,
              (forall id, out = Ok id ->
                 exists status text data,
                   fetch q0 = HttpAnswers status text (Ok data) /\ http_ok status = true) ->
              provider_asked fetch base64 p to cc bcc out [tq; q0]).
    { intros out Hout. split.
      - right. right. exists tq, token, (buildGmailRaw base64 (s_sender_email p) to cc bcc
                                          (s_subject p) (s_html p)).
        split; [reflexivity |]. split; [now apply Hgrant | reflexivity].
      - intros id Hid. destruct (Hout id Hid) as (status & text & data & Hf & Hs).
        exists [tq], q0, status, text, data. repeat split; assumption. }
    assert (Hreq : forall s2, requests s2 = requests s1 ++ [q0] ->
                              requests s2 = requests s ++ [tq; q0]).
    { intros s2 ->. rewrite Hq, <- app_assoc. reflexivity. }
    destruct (fetch q0) as [msg | status text json] eqn:Hf; cbn [fst snd].
    { exists [tq; q0]. split; [now apply Hreq |]. apply Hshape. discriminate. }
    destruct (http_ok status) eqn:Hs; cbn [negb fst snd].
    2:{ exists [tq; q0]. split; [now apply Hreq |]. apply Hshape. discriminate. }
    destruct json as [data | msg]; cbn [fst snd].
    2:{ exists [tq; q0]. split; [now apply Hreq |]. apply Hshape. discriminate. }
    assert (Hans : forall out : Res jsval, provider_asked fetch base64 p to cc bcc out [tq; q0]).
    { intros out. apply Hshape. intros _ _. now exists status, text, data. }
    destruct (read_property null_read_error data "id") as [id | msg]; cbn [fst snd].
    2:{ exists [tq; q0]. split; [now apply Hreq | apply Hans]. }
    destruct (js_truthy id); cbn [fst snd];
      exists [tq; q0]; (split; [now apply Hreq | apply Hans]).
  - exists [tq]. split; [exact Hq |]. split; [| discriminate].
    right. left. exists tq. split; [reflexivity |].
    split; [intros tok raw ->; discriminate | rewrite Htq; discriminate].
Qed.

Lemma sendEmailProvider_asked (p : SendPayload) (cfg : MailConfig) (to cc bcc : list jsval)
    (s : Outbox) :
  let out := provider cfg (s_sender_email p) (s_sender_name p) to cc bcc (s_subject p)
               (s_html p) s in
  exists qs, requests (snd out) = requests s ++ qs
             /\ provider_asked fetch base64 p to cc bcc (fst out) qs.
Proof.
  unfold sendEmailProvider.
  destruct (String.eqb _ "gmail"); [apply sendViaGmail_asked | apply sendViaResend_asked].
Qed.

(** What [handleSend] asks the provider on behalf of an accepted request. *)
Lemma handleSend_asked (p : SendPayload) (s : Outbox) (i : string) :
  s_instance_id p = JStr i ->
  ~ send_refused p ->
  exists to cc bcc out qs,
    SendAgent.requireRecipients (s_to p) (s_cc p) (s_bcc p) = Some (to, cc, bcc)
    /\ requests (snd (send p s)) = requests s ++ qs
    /\ provider_asked fetch base64 p to cc bcc out qs
    /\ (SendAgent.code (fst (send p s)) = 200%Z -> exists id, out = Ok id).
Proof.
  intros Hid Hok. unfold handleSend. rewrite Hid.
  unfold send_refused in Hok. rewrite Hid in Hok.
  destruct (validateInstanceId (JStr i)) eqn:Hv; [| tauto]. cbn [negb].
  destruct (js_truthy (s_username p)) eqn:Hu; [| tauto]. cbn [negb].
  destruct (nonempty (s_html p)) eqn:Hh; cbn [negb].
  2:{ destruct (s_html p); [tauto | discriminate]. }
  destruct (js_truthy (s_subject p)) eqn:Hs; [| tauto]. cbn [negb].
  destruct (SendAgent.requireRecipients _ _ _) as [[[to cc] bcc] |] eqn:Hr; [| tauto].
  cbn zeta.
  match goal with |- context [sendEmailProvider ?f ?d ?b ?n ?cfg ?fe ?fn ?t ?c ?bc ?su ?h ?s0] =>
    destruct (sendEmailProvider_asked p cfg t c bc s0) as (qs & Hq & Hasked);
    destruct (sendEmailProvider f d b n cfg fe fn t c bc su h s0) as [[id | msg] s3]
  end; cbn [fst snd] in *.
  - exists to, cc, bcc, (Ok id), qs. split; [reflexivity |].
    split; [| split; [exact Hasked | eauto]].
    destruct (js_truthy id); cbn; exact Hq.
  - exists to, cc, bcc, (Throw msg), qs. split; [reflexivity |].
    split; [exact Hq |]. split; [exact Hasked |]. cbn. discriminate.
Qed.

(** X22. An answer 200 of the send agent means the provider accepted the
    message: the last request made is the one that hands the message over
    (to Resend, or to Gmail), it carries the HTML, the subject and the
    recipients of the request, and the provider answered it ok. *)
Theorem sent_means_the_provider_accepted (p : SendPayload) (s : Outbox) (i : string) :
  s_instance_id p = JStr i ->
  SendAgent.code (fst (send p s)) = 200%Z ->
  exists to cc bcc before q status text data,
    SendAgent.requireRecipients (s_to p) (s_cc p) (s_bcc p) = Some (to, cc, bcc)
    /\ requests (snd (send p s)) = requests s ++ before ++ [q]
    /\ carries_message base64 p to cc bcc q
    /\ fetch q = HttpAnswers status text (Ok data) /\ http_ok status = true.
Proof.
  intros Hid Hsent.
  assert (Hok : ~ send_refused p).
  { intros Href.
    destruct (handleSend_refuses process_env env_files fetch date_now iso_time random_hex
                base64 null_read_error p s Href) as [H400 _].
    rewrite H400 in Hsent. discriminate. }
  destruct (handleSend_asked p s i Hid Hok)
    as (to & cc & bcc & out & qs & Hr & Hq & [Hshape Hans] & Hout).
  destruct (Hout Hsent) as [id ->].
  destruct (Hans id eq_refl) as (before & q & status & text & data & -> & Hm & Hf & Hs).
  exists to, cc, bcc, before, q, status, text, data.
  repeat match goal with |- _ /\ _ => split end; try assumption.
  destruct Hshape as [Hnil | [(q1 & H1 & _ & Hc) | (tq & tok & raw & H2 & _ & Hc)]].
  - destruct before; discriminate.
  - destruct before as [| b [| b' before]]; try discriminate.
    injection H1 as <-. now apply Hc.
  - destruct before as [| b [| b' before]]; try discriminate;
      [| destruct before; discriminate].
    injection H2 as _ ->. exact Hc.
Qed.

(** X23. An accepted request hands its message to the provider at most
    once, as the last thing it asks, and never another message; with Gmail
    the message goes out only with a token that the token request, answered
    ok, has granted. *)
Theorem send_hands_the_message_over_at_most_once (p : SendPayload) (s : Outbox)
    (i : string) :
  s_instance_id p = JStr i ->
  ~ send_refused p ->
  exists to cc bcc qs,
    SendAgent.requireRecipients (s_to p) (s_cc p) (s_bcc p) = Some (to, cc, bcc)
    /\ requests (snd (send p s)) = requests s ++ qs
    /\ (List.length (List.filter is_message qs) <= 1)%nat
    /\ (forall q, In q qs -> is_message q = true ->
          carries_message base64 p to cc bcc q /\ exists before, qs = before ++ [q])
    /\ (forall tok raw, In (GmailSend tok raw) qs ->
          exists tq, qs = [tq; GmailSend tok raw] /\ grants fetch tq tok).
Proof.
  intros Hid Hok.
  destruct (handleSend_asked p s i Hid Hok)
    as (to & cc & bcc & out & qs & Hr & Hq & [Hshape _] & _).
  exists to, cc, bcc, qs. split; [exact Hr |]. split; [exact Hq |].
  destruct Hshape as [-> | [(q1 & -> & Hns & Hc) | (tq & tok & raw & -> & Hg & Hc)]].
  - cbn. repeat split; try lia; intros; contradiction.
  - repeat match goal with |- _ /\ _ => split end.
    + cbn. destruct (is_message q1); cbn; lia.
    + intros q [<- | []] Hm. split; [now apply Hc | now exists []].
    + intros tok raw [-> | []]. now destruct (Hns tok raw).
  - destruct Hg as [Htq Hg]. repeat match goal with |- _ /\ _ => split end.
    + cbn. rewrite Htq. cbn. lia.
    + intros q [<- | [<- | []]] Hm; [congruence |]. split; [exact Hc | now exists [tq]].
    + intros tok' raw' [Heq | [[= <- <-] | []]]; [rewrite Heq in Htq; discriminate |].
      exists tq. split; [reflexivity | now split].
Qed.

End SendAgentProperties.

Section SendAgentAsDelivery.
Variable process_env : gmap string string.
Variable env_files : string -> option string.
Variable fetch : NetRequest -> HttpOutcome.
Variable date_now : nat -> string.
Variable iso_time : nat -> string.
Variable random_hex : nat -> string.
Variable base64 : string -> string.
Variable null_read_error : string -> string.
Variable JSON_stringify : jsval -> string.

Local Abbreviation delivery :=
  (delivery_by_send_agent process_env env_files fetch date_now iso_time random_hex base64
     null_read_error JSON_stringify).

(** X19. With the send agent as the delivery collaborator, an approval
    aborts the instance when its stored configuration has no subject or no
    recipient, or when its draft is empty: the subject and the recipients of
    the delivery are the stored ones, not those of the send request.
    Answered synchronously the callback is a 400. *)
Theorem approve_needs_stored_subject_and_draft (env : Env) (b : CallbackBody) (w : World)
    (i : string) :
  email_agent env = delivery ->
  cb_instance_id b = JStr i ->
  validateInstanceId (JStr i) = true ->
  action_of b = "approve" ->
  let m := mergeConfig w i (JObj []) in
  js_truthy (subject m) = false \/ lacks_recipient m \/ readLatestEmailHtml w i = "" ->
  let h := handleHitlCallback env b w in
  status_of (settle h) i = Some Abort
  /\ (cb_async b = false -> Compose.code (reply h) = 400%Z).
Proof.
  intros Henv Hid Hvalid Hact m Hbad h.
  destruct (approve_settles env b w i Hid Hvalid Hact)
    as (tr & W & st & r & _ & _ & _ & Hst & Hsync & Hout).
  fold h in Hst, Hsync, Hout. fold m in Hout. cbn zeta in Hout.
  set (req := mkEmailReq i (callback_user b) (readLatestEmailHtml w i) (subject m)
                (sender_email m) (sender_name m) (to m) (cc m) (bcc m) tr) in *.
  assert (Hfail : exists msg, email_agent env W req = EmailFailed msg).
  { rewrite Henv. unfold delivery_by_send_agent.
    assert (Href : send_refused (payload_of req)).
    { unfold send_refused, payload_of. cbn.
      destruct Hbad as [Hs | [Hr | Hd]]; [auto | | auto].
      right. right. right. right.
      apply (proj2 (requireRecipients_None m)) in Hr. exact Hr. }
    destruct (handleSend_refuses process_env env_files fetch date_now iso_time random_hex
                base64 null_read_error (payload_of req) (outbox_of W) Href) as [Hcode _].
    rewrite Hcode. cbn. eauto. }
  destruct Hfail as [msg Hmsg]. rewrite Hmsg in Hout. destruct Hout as (-> & -> & _).
  split; [exact Hst |]. intros Hs. rewrite (Hsync Hs). reflexivity.
Qed.

Lemma handleSend_accepted (p : SendPayload) (s : Outbox) (i : string) :
  s_instance_id p = JStr i ->
  ~ send_refused p ->
  exists to cc bcc,
    SendAgent.requireRecipients (s_to p) (s_cc p) (s_bcc p) = Some (to, cc, bcc)
    /\ forall s2,
         s2 = add_send_log (i, "send-agent", "Sending email via provider")
                (write_artifact i (s_html p)
                   (add_send_event
                      (mkLogEvent SendAgent.SERVICE "info" "progress"
                         ("Sending email ("
                            +:+ mail_provider (getMailConfigFromEnv process_env
                                                 (loadInstanceEnv env_files i)) +:+ ")")
                         i (s_username p) (s_trace_id p)) s)) ->
         let sent := sendEmailProvider fetch date_now base64 null_read_error
                       (getMailConfigFromEnv process_env (loadInstanceEnv env_files i))
                       (s_sender_email p) (s_sender_name p) to cc bcc (s_subject p)
                       (s_html p) s2 in
         let out := handleSend process_env env_files fetch date_now iso_time random_hex
                      base64 null_read_error p s in
         artifacts (snd out) = <[i := s_html p]> (artifacts s)
         /\ SendAgent.code (fst out) = (match fst sent with Ok _ => 200 | Throw _ => 502 end)%Z.
Proof.
  intros Hid Hok. unfold send_refused in Hok. rewrite Hid in Hok.
  unfold handleSend. rewrite Hid.
  destruct (validateInstanceId (JStr i)) eqn:Hv; [| tauto]. cbn [negb].
  destruct (js_truthy (s_username p)) eqn:Hu; [| tauto]. cbn [negb].
  destruct (nonempty (s_html p)) eqn:Hh; cbn [negb].
  2:{ destruct (s_html p); [tauto | discriminate]. }
  destruct (js_truthy (s_subject p)) eqn:Hs; [| tauto]. cbn [negb].
  destruct (SendAgent.requireRecipients _ _ _) as [[[to cc] bcc] |] eqn:Hr; [| tauto].
  exists to, cc, bcc. split; [reflexivity |]. intros s2 ->. cbn zeta.
  match goal with |- context [sendEmailProvider ?f ?d ?b ?n ?cfg ?fe ?fn ?t ?c ?bc ?su ?h ?s0] =>
    pose proof (provider_keeps_artifacts fetch date_now base64 null_read_error
                  cfg fe fn t c bc su h s0) as (Ha & Hidt & _);
    destruct (sendEmailProvider f d b n cfg fe fn t c bc su h s0) as [[id | msg] s3]
  end; cbn [fst snd] in *.
  - rewrite (Hidt id eq_refl). cbn. rewrite Ha. now split.
  - cbn. rewrite Ha. now split.
Qed.

(** X20. Delivering the draft the orchestrator has read never changes a
    draft on disk: what the send agent writes to [email.html] is what was
    there. *)
Theorem delivery_leaves_the_draft (w : World) (req : EmailReq) :
  e_html req = readLatestEmailHtml w (e_instance_id req) ->
  artifacts (snd (handleSend process_env env_files fetch date_now iso_time random_hex
                    base64 null_read_error (payload_of req) (outbox_of w)))
  = drafts w.
Proof.
  intros Hhtml.
  destruct (classic_refused (payload_of req)) as [Href | Hok].
  - now rewrite (proj2 (handleSend_refuses process_env env_files fetch date_now iso_time
                          random_hex base64 null_read_error _ (outbox_of w) Href)).
  - destruct (handleSend_accepted (payload_of req) (outbox_of w) (e_instance_id req)
                eq_refl Hok) as (to & cc & bcc & _ & Hrun).
    destruct (Hrun _ eq_refl) as [Ha _]. rewrite Ha. cbn.
    apply insert_id. unfold readLatestEmailHtml in Hhtml.
    destruct (drafts w !! e_instance_id req) as [html |] eqn:Hd; cbn in Hhtml.
    + now rewrite Hhtml.
    + exfalso. apply Hok. right. right. left. exact Hhtml.
Qed.

Lemma resend_answers (apiKey : string) (fromEmail fromName : jsval) (to cc bcc : list jsval)
    (subject : jsval) (html : string) (s : Outbox) :
  nonempty apiKey = true ->
  (forall q, exists status text data,
     fetch q = HttpAnswers status text (Ok data) /\ http_ok status = true
     /\ data <> JNull /\ data <> JUndef) ->
  exists id, fst (sendViaResend fetch date_now null_read_error apiKey fromEmail fromName
                    to cc bcc subject html s) = Ok id.
Proof.
  intros Hkey Hnet. unfold sendViaResend. rewrite Hkey. cbn [negb]. cbn zeta.
  match goal with |- context [fetch ?q] =>
    destruct (Hnet q) as (status & text & data & -> & Hok & Hn1 & Hn2)
  end.
  rewrite Hok. cbn [negb].
  assert (Hread : read_property null_read_error data "id" = Ok (js_get data "id")).
  { destruct data; try reflexivity; congruence. }
  rewrite Hread.
  destruct (js_truthy (js_get data "id")); [eauto |].
  destruct (js_truthy (js_get data "message")); eauto.
Qed.

(** X21. With the send agent as the delivery collaborator, a stored subject
    and recipient, a non-empty draft, a Resend API key and a provider that
    answers ok with a JSON value, an approval finishes the instance, and the
    synchronous answer is a 200. *)
Theorem approve_delivers_when_configured (env : Env) (b : CallbackBody) (w : World)
    (i : string) :
  email_agent env = delivery ->
  cb_instance_id b = JStr i ->
  validateInstanceId (JStr i) = true ->
  action_of b = "approve" ->
  let m := mergeConfig w i (JObj []) in
  let cfg := getMailConfigFromEnv process_env (loadInstanceEnv env_files i) in
  js_truthy (subject m) = true ->
  ~ lacks_recipient m ->
  readLatestEmailHtml w i <> "" ->
  mail_provider cfg <> "gmail" ->
  nonempty (resendApiKey cfg) = true ->
  (forall q, exists status text data,
     fetch q = HttpAnswers status text (Ok data) /\ http_ok status = true
     /\ data <> JNull /\ data <> JUndef) ->
  let h := handleHitlCallback env b w in
  status_of (settle h) i = Some Finished
  /\ (cb_async b = false -> Compose.code (reply h) = 200%Z).
Proof.
  intros Henv Hid Hvalid Hact m cfg Hsubj Hrcpt Hdraft Hprov Hkey Hnet h.
  destruct (approve_settles env b w i Hid Hvalid Hact)
    as (tr & W & st & r & _ & _ & _ & Hst & Hsync & Hout).
  fold h in Hst, Hsync, Hout. fold m in Hout. cbn zeta in Hout.
  set (req := mkEmailReq i (callback_user b) (readLatestEmailHtml w i) (subject m)
                (sender_email m) (sender_name m) (to m) (cc m) (bcc m) tr) in *.
  assert (Hsent : exists receipt, email_agent env W req = EmailReplied receipt).
  { rewrite Henv. unfold delivery_by_send_agent.
    assert (Hok : ~ send_refused (payload_of req)).
    { unfold send_refused, payload_of, req.
      cbn [s_instance_id s_username s_html s_subject s_to s_cc s_bcc
           e_instance_id e_username e_html e_subject e_to e_cc e_bcc].
      rewrite Hvalid, Hsubj, callback_user_truthy.
      intros [H | [H | [H | [H | H]]]]; try discriminate; try contradiction.
      apply Hrcpt. now apply requireRecipients_None. }
    destruct (handleSend_accepted (payload_of req) (outbox_of W) i eq_refl Hok)
      as (to & cc & bcc & _ & Hrun).
    destruct (Hrun _ eq_refl) as [_ Hcode]. rewrite Hcode.
    unfold sendEmailProvider.
    destruct (provider_is_normalised process_env (fun _ => None) (loadInstanceEnv env_files i))
      as [_ (_ & _ & Hnorm)].
    cbn zeta in Hnorm. fold cfg in Hnorm |- *. rewrite Hnorm.
    destruct (String.eqb_spec (mail_provider cfg) "gmail") as [| _]; [contradiction |].
    match goal with |- context [sendViaResend ?f ?d ?n ?k ?fe ?fn ?t ?c ?bc ?su ?ht ?s0] =>
      destruct (resend_answers k fe fn t c bc su ht s0 Hkey Hnet) as [id ->]
    end.
    cbn. eauto. }
  destruct Hsent as [receipt Hr]. rewrite Hr in Hout. destruct Hout as (-> & ->).
  split; [exact Hst |]. intros Hs. rewrite (Hsync Hs). reflexivity.
Qed.

End SendAgentAsDelivery.

Lemma send_rejects_before_writing_witness :
  snd (send_agent ∅ (send_request "") outbox0) = outbox0.
Proof.
  apply (send_rejects_before_writing ∅ (fun _ => None) provider_accepts clock_T clock_T
           random_r (fun s => s) (fun k => "Cannot read properties of null")
           (send_request "") outbox0).
  right. right. left. reflexivity.
Defined.

Lemma send_files_the_html_before_sending_witness :
  SendAgent.artifacts (snd (send_agent ∅ (send_request "<html>H1</html>") outbox0))
  = {["r0-r1" := "<html>H1</html>"]}.
Proof.
  destruct (send_files_the_html_before_sending ∅ (fun _ => None) provider_accepts clock_T
              clock_T random_r (fun s => s) (fun k => "Cannot read properties of null")
              (send_request "<html>H1</html>") outbox0 "r0-r1" eq_refl) as (Ha & _).
  - intros [H | [H | [H | [H | H]]]]; discriminate.
  - exact Ha.
Defined.

Lemma send_without_credentials_makes_no_request_witness :
  SendAgent.code (fst (send_agent ∅ (send_request "<html>H1</html>") outbox0)) = 502%Z
  /\ SendAgent.requests (snd (send_agent ∅ (send_request "<html>H1</html>") outbox0)) = [].
Proof.
  destruct (send_without_credentials_makes_no_request ∅ (fun _ => None) provider_accepts
              clock_T clock_T random_r (fun s => s) (fun k => "Cannot read properties of null")
              (send_request "<html>H1</html>") outbox0 "r0-r1" eq_refl) as (Hreply & Hreq & _).
  - intros [H | [H | [H | [H | H]]]]; discriminate.
  - reflexivity.
  - unfold send_agent. rewrite Hreply. split; [reflexivity | exact Hreq].
Defined.

Lemma approve_needs_stored_subject_and_draft_witness :
  status_of (settle (handleHitlCallback (env_with_send_agent {["RESEND_API_KEY" := "k"]})
                       (callback "r0-r1" "approve" "") world_waiting)) "r0-r1"
  = Some Abort.
Proof.
  apply (approve_needs_stored_subject_and_draft {["RESEND_API_KEY" := "k"]} (fun _ => None)
           provider_accepts clock_T clock_T random_r (fun s => s)
           (fun k => "Cannot read properties of null") (fun _ => "{}")
           (env_with_send_agent {["RESEND_API_KEY" := "k"]})
           (callback "r0-r1" "approve" "") world_waiting "r0-r1");
    try reflexivity.
  left. reflexivity.
Defined.

Lemma delivery_leaves_the_draft_witness :
  SendAgent.artifacts
    (snd (send_agent {["RESEND_API_KEY" := "k"]}
            (payload_of (mkEmailReq "r0-r1" (JStr "alice") "<html>H1</html>" (JStr "Hi")
                           JNull JNull (JArr [JStr "a@x.com"]) (JArr []) (JArr []) JUndef))
            (outbox_of world_waiting)))
  = drafts world_waiting.
Proof.
  apply (delivery_leaves_the_draft {["RESEND_API_KEY" := "k"]} (fun _ => None)
           provider_accepts clock_T clock_T random_r (fun s => s)
           (fun k => "Cannot read properties of null") world_waiting).
  reflexivity.
Defined.

Lemma approve_delivers_when_configured_witness :
  status_of (settle (handleHitlCallback (env_with_send_agent {["RESEND_API_KEY" := "k"]})
                       (callback "r0-r1" "approve" "") world_configured)) "r0-r1"
  = Some Finished.
Proof.
  apply (approve_delivers_when_configured {["RESEND_API_KEY" := "k"]} (fun _ => None)
           provider_accepts clock_T clock_T random_r (fun s => s)
           (fun k => "Cannot read properties of null") (fun _ => "{}")
           (env_with_send_agent {["RESEND_API_KEY" := "k"]})
           (callback "r0-r1" "approve" "") world_configured "r0-r1");
    try reflexivity.
  - intros H. specialize (H (JArr [JStr "a@x.com"]) [JStr "a@x.com"] (JStr "a@x.com")
                            (or_introl eq_refl) eq_refl (or_introl eq_refl)).
    discriminate.
  - discriminate.
  - vm_compute. discriminate.
  - intros q. exists 200%Z, "", (JObj [("id", JStr "m-1")]).
    repeat split; discriminate.
Defined.

(** The scenario's request with a Resend key: the one request made hands
    over the message. *)
Lemma sent_means_the_provider_accepted_witness :
  exists before q,
    SendAgent.requests (snd (send_agent {["RESEND_API_KEY" := "k"]}
                               (send_request "<html>H1</html>") outbox0))
    = before ++ [q]
    /\ carries_message (fun s => s) (send_request "<html>H1</html>") [JStr "a@x.com"] [] [] q.
Proof.
  destruct (sent_means_the_provider_accepted {["RESEND_API_KEY" := "k"]} (fun _ => None)
              provider_accepts clock_T clock_T random_r (fun s => s)
              (fun k => "Cannot read properties of null")
              (send_request "<html>H1</html>") outbox0 "r0-r1" eq_refl)
    as (to & cc & bcc & before & q & status & text & data & Hr & Hq & Hc & _).
  - vm_compute. reflexivity.
  - injection Hr as <- <- <-. exists before, q. split; [exact Hq | exact Hc].
Defined.

(** The scenario's request with Gmail credentials, where the answer to the
    token request holds no token: no message goes out. *)
Lemma send_hands_the_message_over_at_most_once_witness :
  let gmail : gmap string string :=
    {["MAIL_PROVIDER" := "gmail"; "GMAIL_CLIENT_ID" := "c"; "GMAIL_CLIENT_SECRET" := "s";
      "GMAIL_REFRESH_TOKEN" := "r"]} in
  exists qs,
    SendAgent.requests (snd (send_agent gmail (send_request "<html>H1</html>") outbox0)) = qs
    /\ (List.length (List.filter is_message qs) <= 1)%nat.
Proof.
  intros gmail.
  destruct (send_hands_the_message_over_at_most_once gmail (fun _ => None)
              provider_accepts clock_T clock_T random_r (fun s => s)
              (fun k => "Cannot read properties of null")
              (send_request "<html>H1</html>") outbox0 "r0-r1" eq_refl)
    as (to & cc & bcc & qs & _ & Hq & Hone & _).
  - intros [H | [H | [H | [H | H]]]]; discriminate.
  - exists qs. split; [exact Hq | exact Hone].
Defined.

End DeliveryProperties.

(** ** The instance a request is about *)

Lemma trim_start_visible (a b : string) (c : ascii) :
  is_ws c = false -> nonempty (trim_start (a +:+ String c b)) = true.
Proof.
  intros Hc. induction a as [| x a IH].
  - change ("" +:+ String c b) with (String c b). now rewrite trim_start_nonws.
  - rewrite append_cons. cbn [trim_start]. destruct (is_ws x); [exact IH | reflexivity].
Qed.

Lemma trim_visible (a b : string) (c : ascii) :
  is_ws c = false -> nonempty (trim (a +:+ String c b)) = true.
Proof.
  intros Hc. unfold trim. pose proof (trim_start_visible a b c Hc) as Hne.
  destruct (trim_start_head (a +:+ String c b)) as [H0 | (x & r & Hx & Hws)].
  - rewrite H0 in Hne. discriminate.
  - rewrite Hx. destruct (trim_end_nonempty x r Hws) as [r' ->]. reflexivity.
Qed.

(** The ids [generateInstanceId] makes are valid, whatever the clock and the
    random source give. *)
Lemma generateInstanceId_valid (env : Env) (w : World) :
  validateInstanceId (JStr (generateInstanceId env w).1) = true.
Proof. unfold generateInstanceId. cbn [fst validateInstanceId]. now apply trim_visible. Qed.

Lemma send_target_valid (env : Env) (p : jsval) (w : World) :
  validateInstanceId (JStr (send_target env p w).1.1) = true.
Proof.
  unfold send_target, resolve_instance_id.
  destruct (js_get p "instance_id") eqn:Hid;
    try (pose proof (generateInstanceId_valid env w) as Hg;
         destruct (generateInstanceId env w) as [i w1]; destruct (resolve_trace_id _ _ w1);
         exact Hg).
  destruct (validateInstanceId (JStr s)) eqn:Hv.
  - destruct (resolve_trace_id _ _ w). exact Hv.
  - pose proof (generateInstanceId_valid env w) as Hg.
    destruct (generateInstanceId env w) as [i w1]. destruct (resolve_trace_id _ _ w1). exact Hg.
Qed.

(** A request about an instance id that is not valid changes nothing. *)
Lemma serve_invalid_target (env : Env) (q : Trigger) (w : World) (i : string) :
  target env q w = Some i -> validateInstanceId (JStr i) = false ->
  settle (serve env q w) = w.
Proof.
  destruct q as [payload | b | body]; cbn [target serve].
  - intros [= <-] Hv. now rewrite send_target_valid in Hv.
  - unfold handleHitlCallback. destruct (cb_instance_id b); try discriminate.
    intros [= ->] ->. reflexivity.
  - unfold handleAbort. destruct (js_get (body ||| JObj []) "instance_id"); try discriminate.
    intros [= ->] ->. reflexivity.
Qed.

(** X1. A request served by the orchestrator (a new send, a review callback
    or an abort) writes the files of one instance only. Whatever the file
    system takes for one file under two paths, as long as a path is the
    same file as itself: for an id [j] whose [meta.json] is another file
    than the one the request's instance id names, the record is as before;
    for an id whose [email.html] is another file than the one the request's
    instance id names, the draft is as before; and no stored configuration
    is written at all. *)
Theorem request_touches_one_instance (env : Env) (q : Trigger) (w : World)
    (process_env : gmap string string) (cwd : string)
    (same_file : string -> string -> Prop) (j : string) :
  (forall path, same_file path path) ->
  let w' := settle (serve env q w) in
  ((forall t, target env q w = Some t -> apart same_file p_meta process_env cwd t j) ->
   metas w' !! j = metas w !! j)
  /\ ((forall t, target env q w = Some t ->
         apart same_file p_draftHtml process_env cwd t j) ->
      drafts w' !! j = drafts w !! j)
  /\ configs w' = configs w.
Proof.
  intros Hrefl w'. subst w'. pose proof (serve_evolves env q w) as H.
  destruct (target env q w) as [i |] eqn:Ht; [| rewrite H; repeat split].
  assert (Hsame : forall kind,
             apart same_file kind process_env cwd i j -> j = i ->
             settle (serve env q w) = w).
  { intros kind Hap ->.
    destruct (validateInstanceId (JStr i)) eqn:Hv;
      [| now apply (serve_invalid_target env q w i)].
    exfalso. apply nonempty_trim in Hv.
    unfold apart, file_of, getInstancePaths in Hap. rewrite Hv in Hap. cbn [negb] in Hap.
    now apply (Hap _ _ eq_refl eq_refl). }
  destruct H as (Hc & Hm & Hd & _). split; [| split; [| exact Hc]].
  - intros Hj. destruct (decide (j = i)) as [Heq | Hne]; [| now apply Hm].
    now rewrite (Hsame p_meta (Hj i eq_refl) Heq).
  - intros Hj. destruct (decide (j = i)) as [Heq | Hne]; [| now apply Hd].
    now rewrite (Hsame p_draftHtml (Hj i eq_refl) Heq).
Qed.

(** An abort for another instance leaves the record of the scenario's, on
    a file system where a file has one path. *)
Lemma request_touches_one_instance_witness :
  metas (settle (serve env_ok (AbortRequest (abort_by_alice "other")) world_waiting)) !! "r0-r1"
  = metas world_waiting !! "r0-r1".
Proof.
  apply (request_touches_one_instance env_ok (AbortRequest (abort_by_alice "other"))
           world_waiting ∅ "/srv" eq "r0-r1"); [reflexivity |].
  intros t [= <-] pi pj [= <-] [= <-]. discriminate.
Defined.

(** X24. A request that changes anything (a record, a draft, a log, the
    calls made, the clock) is about a valid instance id: the one it names,
    which is validated before anything is done, or, for a new send that
    names none or an invalid one, the id that is generated, which is valid
    whatever the clock and the random source give. *)
Theorem only_valid_ids_are_served (env : Env) (q : Trigger) (w : World) :
  settle (serve env q w) <> w ->
  exists i, target env q w = Some i /\ validateInstanceId (JStr i) = true.
Proof.
  intros Hch. pose proof (serve_evolves env q w) as H.
  destruct (target env q w) as [i |] eqn:Ht; [| now destruct Hch].
  exists i. split; [reflexivity |].
  destruct (validateInstanceId (JStr i)) eqn:Hv; [reflexivity |].
  destruct Hch. now apply (serve_invalid_target env q w i).
Qed.

(** The scenario's send names no instance: the id generated for it is
    valid. *)
Lemma only_valid_ids_are_served_witness :
  exists i, target env_ok (NewSend send_alice) world0 = Some i
            /\ validateInstanceId (JStr i) = true.
Proof.
  apply (only_valid_ids_are_served env_ok (NewSend send_alice) world0).
  intros Heq. apply (f_equal tick) in Heq. vm_compute in Heq. discriminate.
Defined.
